(** * Emergency mesh chat: connection registry, fan-out and segmentation

    A shallow embedding of the multi-transport delivery layer of
    [src/app.js] (class [EmergencyMeshChat]) and of the incident-log
    server [src/unnamed/part_000], with the properties the specification
    states about them.

    Conventions.
    - A JavaScript string is the list of its UTF-16 code units ([jsstring]);
      [lit] turns an ASCII literal of the source into one.
    - A JavaScript [Map] is an association list in insertion order
      ([JsMap]): [forEach] and [for..of] visit entries in that order and
      [set] on a present key keeps its position.
    - Methods of the class are computations in the monad [M]: they read and
      update the application state [App] (the fields of [this] and the DOM
      nodes the methods touch), append to a log of observable effects
      ([Event]) and complete normally or by a throw.
    - What the browser, PeerJS and the radio decide (clock readings, whether
      a send throws, whether a GATT write is rejected, the position fix) is
      read from an environment record [Env].
    - Each method is run without interleaving of other handlers at its
      [await] points. *)

From Stdlib Require Import List ZArith NArith Arith Lia Bool String Ascii Floats.
From Stdlib Require Import DecimalN.
From Stdlib Require Import Strings.Byte.
Import ListNotations.
Set Warnings "-register-all".
Local Open Scope list_scope.

(* ===================================================================== *)
(** * Part I. The embedding                                               *)
(* ===================================================================== *)

(** ** Strings *)

Definition jsstring := list N.

Definition lit (s : string) : jsstring :=
  map N_of_ascii (list_ascii_of_string s).

Fixpoint str_eqb (a b : jsstring) : bool :=
  match a, b with
  | [], [] => true
  | x :: a', y :: b' => N.eqb x y && str_eqb a' b'
  | _, _ => false
  end.

(** ECMAScript WhiteSpace and LineTerminator code units, the ones
    [String.prototype.trim] strips. *)
Definition is_white (c : N) : bool :=
  existsb (N.eqb c)
    [9; 10; 11; 12; 13; 32; 160; 5760; 8192; 8193; 8194; 8195; 8196; 8197;
     8198; 8199; 8200; 8201; 8202; 8232; 8233; 8239; 8287; 12288; 65279]%N.

Fixpoint trimStart (s : jsstring) : jsstring :=
  match s with
  | c :: s' => if is_white c then trimStart s' else s
  | [] => []
  end.

Definition trim (s : jsstring) : jsstring :=
  rev (trimStart (rev (trimStart s))).

(** [!s] for a string: true exactly for the empty string. *)
Definition falsy (s : jsstring) : bool :=
  match s with [] => true | _ => false end.

Fixpoint uint_units (d : Decimal.uint) : jsstring :=
  match d with
  | Decimal.Nil => []
  | Decimal.D0 d' => 48%N :: uint_units d'
  | Decimal.D1 d' => 49%N :: uint_units d'
  | Decimal.D2 d' => 50%N :: uint_units d'
  | Decimal.D3 d' => 51%N :: uint_units d'
  | Decimal.D4 d' => 52%N :: uint_units d'
  | Decimal.D5 d' => 53%N :: uint_units d'
  | Decimal.D6 d' => 54%N :: uint_units d'
  | Decimal.D7 d' => 55%N :: uint_units d'
  | Decimal.D8 d' => 56%N :: uint_units d'
  | Decimal.D9 d' => 57%N :: uint_units d'
  end.

(** A count interpolated into a template literal. *)
Definition numberToString (n : nat) : jsstring := uint_units (Nat.to_uint n).

(** ** JavaScript [Map], keyed by strings *)

Module JsMap.

Definition t (V : Type) := list (jsstring * V).

Definition empty {V : Type} : t V := [].

Fixpoint get {V : Type} (m : t V) (k : jsstring) : option V :=
  match m with
  | [] => None
  | (k', v) :: m' => if str_eqb k' k then Some v else get m' k
  end.

Fixpoint set {V : Type} (m : t V) (k : jsstring) (v : V) : t V :=
  match m with
  | [] => [(k, v)]
  | (k', v') :: m' =>
      if str_eqb k' k then (k', v) :: m' else (k', v') :: set m' k v
  end.

Definition delete {V : Type} (m : t V) (k : jsstring) : t V :=
  filter (fun e => negb (str_eqb (fst e) k)) m.

Definition size {V : Type} (m : t V) : nat := List.length m.

Definition keys {V : Type} (m : t V) : list jsstring := map fst m.

End JsMap.

(** ** Transport handles *)

(** [conn.metadata] as the remote peer supplied it. *)
Record Metadata := {
  md_deviceName : option jsstring;
  md_timestamp : option Z;
  md_connectionType : option jsstring
}.

(** A PeerJS [DataConnection]: [conn_id] is the identity of the object,
    [conn_peer] is [conn.peer]. *)
Record DataConnection := {
  conn_id : nat;
  conn_peer : jsstring;
  conn_metadata : option Metadata
}.

(** An entry of [this.connections]. *)
Record ConnData := {
  cd_connection : DataConnection;
  cd_type : jsstring;
  cd_metadata : option Metadata
}.

Record BluetoothDevice := {
  dev_id : jsstring;
  dev_name : option jsstring
}.

Record Characteristic := {
  chr_id : nat;
  chr_write : bool;
  chr_writeWithoutResponse : bool;
  chr_notify : bool
}.

(** An entry of [this.bluetoothConnections]. *)
Record BtConnData := {
  bt_device : BluetoothDevice;
  bt_server : nat;
  bt_service : nat;
  bt_characteristic : Characteristic;
  bt_type : jsstring
}.

(** ** Messages *)

Record Location := {
  latitude : option float;
  longitude : option float;
  accuracy : option float
}.

Definition null_location : Location :=
  {| latitude := None; longitude := None; accuracy := None |}.

(** The object literals the methods build, one constructor per literal, the
    fields in the order of the source. *)
Inductive Message :=
| Handshake (deviceName : jsstring) (timestamp : Z) (peerId : jsstring)
    (connectionType : jsstring)
| BluetoothHandshake (deviceName : jsstring) (timestamp : Z)
    (deviceId : jsstring) (capabilities : list jsstring)
| ChatMessage (content sender : jsstring) (timestamp : Z) (id : jsstring)
| Emergency (content sender : jsstring) (timestamp : Z) (location : Location)
    (id : jsstring)
| FileMessage (fileName : jsstring) (fileSize : N) (fileType : jsstring)
    (data : option jsstring) (sender : jsstring) (timestamp : Z)
    (id : jsstring)
| FileNotification (fileName : jsstring) (fileSize : N) (fileType : jsstring)
    (sender : jsstring) (timestamp : Z) (id : jsstring) (message : jsstring)
| Ping (timestamp : Z).

(** The [type] field of each literal. *)
Definition msg_type (m : Message) : jsstring :=
  match m with
  | Handshake _ _ _ _ => lit "handshake"
  | BluetoothHandshake _ _ _ _ => lit "bluetooth-handshake"
  | ChatMessage _ _ _ _ => lit "message"
  | Emergency _ _ _ _ _ => lit "emergency"
  | FileMessage _ _ _ _ _ _ _ => lit "file"
  | FileNotification _ _ _ _ _ _ _ => lit "file-notification"
  | Ping _ => lit "ping"
  end.

Record File := {
  file_name : jsstring;
  file_size : N;
  file_type : jsstring
}.

(** ** Environment *)

(** What [navigator.geolocation.getCurrentPosition] does with its
    callbacks. *)
Inductive Geolocation :=
| GeoUnsupported
| GeoPosition (lat lon acc : float)
| GeoError (code : N)
| GeoSilent.

Record Env := {
  (** the k-th reading of [Date.now()] *)
  env_now : nat -> Z;
  (** [generateMessageId()] evaluated at the k-th reading *)
  env_messageId : nat -> jsstring;
  (** [conn.open] as the quality probe reads it, by [conn_id] *)
  env_conn_open : nat -> bool;
  (** [conn.send] throws, by [conn_id] *)
  env_send_throws : nat -> bool;
  (** [characteristic.writeValue] rejects the frame that starts at the
      given byte offset of the encoded message, by [chr_id] *)
  env_write_rejects : nat -> nat -> bool;
  env_geolocation : Geolocation;
  (** [FileReader.readAsDataURL]: the data URL, or [None] for [onerror] *)
  env_readAsDataURL : File -> option jsstring;
  (** [device.gatt.connect()]: the server, or [None] when it rejects *)
  env_gatt_connect : jsstring -> option nat;
  (** [server.getPrimaryService(EMERGENCY_SERVICE_UUID)] *)
  env_primary_service : nat -> option nat;
  (** [service.getCharacteristic(MESSAGE_CHARACTERISTIC_UUID)] *)
  env_message_characteristic : nat -> option Characteristic;
  (** [characteristic.startNotifications()] resolves, by [chr_id] *)
  env_start_notifications : nat -> bool;
  (** [server.getPrimaryServices()] *)
  env_primary_services : nat -> option (list nat);
  (** [service.getCharacteristics()] *)
  env_characteristics : nat -> option (list Characteristic)
}.

(** ** Application state and observable effects *)

(** A child appended to [#messages]. *)
Inductive Bubble :=
| MessageBubble (m : Message) (isSent : bool)
| AlertBubble (m : Message) (isSent : bool)
| FileBubble (m : Message) (isSent : bool).

(** Callbacks handed to [setTimeout] and [setInterval]. *)
Inductive Task :=
| BootTask
| StaggeredBluetoothScan
| StaggeredLocalScan
| PeriodicRediscovery
| QualityProbe.

Record App := {
  (** [this.peer.id], [None] when [this.peer] is null *)
  peer : option jsstring;
  connections : JsMap.t ConnData;
  bluetoothConnections : JsMap.t BtConnData;
  bluetoothCharacteristic : option Characteristic;
  bluetoothDevice : option BluetoothDevice;
  deviceName : jsstring;
  autoConnect : bool;
  connectionPriority : jsstring;
  (** value of [#message-input] *)
  message_input : jsstring;
  (** value of [#remote-peer-id] *)
  remote_peer_id : jsstring;
  (** [#file-input].files[0] *)
  file_input : option File;
  (** children of [#messages], oldest first *)
  messages : list Bubble;
  (** how many clock readings were taken so far *)
  clock_reads : nat
}.

Inductive Event :=
| EvSend (conn : nat) (m : Message)
| EvSendThrew (conn : nat) (m : Message)
| EvWriteValue (chr : nat) (frame : list byte)
| EvWriteRejected (chr : nat) (frame : list byte)
| EvConnClose (conn : nat)
| EvGattDisconnect (device : jsstring)
| EvSleep (ms : Z)
| EvToast (text kind : jsstring)
| EvStatus (text kind : jsstring)
| EvConsole (level text : jsstring)
| EvActiveConnections (total : nat)
| EvAlertSound
| EvHideFileModal
| EvSetTimeout (ms : Z) (task : Task)
| EvSetInterval (ms : Z) (task : Task)
| EvScanBluetoothDevices
| EvScanLocalNetwork
| EvRefreshDevices.

(** How a method ends: it returns, it throws, or it waits for a promise
    that is never settled. *)
Inductive Completion (A : Type) :=
| Normal (a : A)
| Throw (reason : jsstring)
| Pending.

Arguments Normal {A} a.
Arguments Throw {A} reason.
Arguments Pending {A}.

Definition M (A : Type) : Type := App -> Completion A * App * list Event.

Definition ret {A : Type} (a : A) : M A := fun s => (Normal a, s, []).

Definition bind {A B : Type} (m : M A) (f : A -> M B) : M B :=
  fun s =>
    match m s with
    | (Normal a, s1, t1) =>
        match f a s1 with (r, s2, t2) => (r, s2, t1 ++ t2) end
    | (Throw e, s1, t1) => (Throw e, s1, t1)
    | (Pending, s1, t1) => (Pending, s1, t1)
    end.

Declare Scope js_scope.
Delimit Scope js_scope with js.
Notation "x <- m ;; k" := (bind m (fun x => k))
  (at level 61, m at next level, right associativity) : js_scope.
Notation "m ;; k" := (bind m (fun _ => k))
  (at level 61, right associativity) : js_scope.
Local Open Scope js_scope.

Definition throw {A : Type} (reason : jsstring) : M A :=
  fun s => (Throw reason, s, []).

Definition pending {A : Type} : M A := fun s => (Pending, s, []).

(** [try { body } catch (error) { handler }] *)
Definition tryCatch {A : Type} (body : M A) (handler : jsstring -> M A) : M A :=
  fun s =>
    match body s with
    | (Throw e, s1, t1) =>
        match handler e s1 with (r, s2, t2) => (r, s2, t1 ++ t2) end
    | other => other
    end.

Definition emit (e : Event) : M unit := fun s => (Normal tt, s, [e]).

Definition getApp : M App := fun s => (Normal s, s, []).

Definition modify (f : App -> App) : M unit := fun s => (Normal tt, f s, []).

(** Visit the entries in insertion order. The callbacks of this program
    delete at most the entry being visited, so the entries seen are those
    present when the iteration starts. *)
Fixpoint forEach {V : Type} (entries : JsMap.t V) (f : V -> jsstring -> M unit)
  : M unit :=
  match entries with
  | [] => ret tt
  | (k, v) :: rest => f v k ;; forEach rest f
  end.

(** Field updates. *)
Definition with_connections (c : JsMap.t ConnData) (s : App) : App :=
  {| peer := peer s; connections := c;
     bluetoothConnections := bluetoothConnections s;
     bluetoothCharacteristic := bluetoothCharacteristic s;
     bluetoothDevice := bluetoothDevice s; deviceName := deviceName s;
     autoConnect := autoConnect s; connectionPriority := connectionPriority s;
     message_input := message_input s; remote_peer_id := remote_peer_id s;
     file_input := file_input s; messages := messages s;
     clock_reads := clock_reads s |}.

Definition with_bluetoothConnections (c : JsMap.t BtConnData) (s : App) : App :=
  {| peer := peer s; connections := connections s;
     bluetoothConnections := c;
     bluetoothCharacteristic := bluetoothCharacteristic s;
     bluetoothDevice := bluetoothDevice s; deviceName := deviceName s;
     autoConnect := autoConnect s; connectionPriority := connectionPriority s;
     message_input := message_input s; remote_peer_id := remote_peer_id s;
     file_input := file_input s; messages := messages s;
     clock_reads := clock_reads s |}.

Definition with_bluetoothCharacteristic (c : option Characteristic) (s : App)
  : App :=
  {| peer := peer s; connections := connections s;
     bluetoothConnections := bluetoothConnections s;
     bluetoothCharacteristic := c;
     bluetoothDevice := bluetoothDevice s; deviceName := deviceName s;
     autoConnect := autoConnect s; connectionPriority := connectionPriority s;
     message_input := message_input s; remote_peer_id := remote_peer_id s;
     file_input := file_input s; messages := messages s;
     clock_reads := clock_reads s |}.

Definition with_bluetoothDevice (d : option BluetoothDevice) (s : App) : App :=
  {| peer := peer s; connections := connections s;
     bluetoothConnections := bluetoothConnections s;
     bluetoothCharacteristic := bluetoothCharacteristic s;
     bluetoothDevice := d; deviceName := deviceName s;
     autoConnect := autoConnect s; connectionPriority := connectionPriority s;
     message_input := message_input s; remote_peer_id := remote_peer_id s;
     file_input := file_input s; messages := messages s;
     clock_reads := clock_reads s |}.

Definition with_message_input (v : jsstring) (s : App) : App :=
  {| peer := peer s; connections := connections s;
     bluetoothConnections := bluetoothConnections s;
     bluetoothCharacteristic := bluetoothCharacteristic s;
     bluetoothDevice := bluetoothDevice s; deviceName := deviceName s;
     autoConnect := autoConnect s; connectionPriority := connectionPriority s;
     message_input := v; remote_peer_id := remote_peer_id s;
     file_input := file_input s; messages := messages s;
     clock_reads := clock_reads s |}.

Definition with_remote_peer_id (v : jsstring) (s : App) : App :=
  {| peer := peer s; connections := connections s;
     bluetoothConnections := bluetoothConnections s;
     bluetoothCharacteristic := bluetoothCharacteristic s;
     bluetoothDevice := bluetoothDevice s; deviceName := deviceName s;
     autoConnect := autoConnect s; connectionPriority := connectionPriority s;
     message_input := message_input s; remote_peer_id := v;
     file_input := file_input s; messages := messages s;
     clock_reads := clock_reads s |}.

Definition with_file_input (f : option File) (s : App) : App :=
  {| peer := peer s; connections := connections s;
     bluetoothConnections := bluetoothConnections s;
     bluetoothCharacteristic := bluetoothCharacteristic s;
     bluetoothDevice := bluetoothDevice s; deviceName := deviceName s;
     autoConnect := autoConnect s; connectionPriority := connectionPriority s;
     message_input := message_input s; remote_peer_id := remote_peer_id s;
     file_input := f; messages := messages s;
     clock_reads := clock_reads s |}.

Definition with_messages (b : list Bubble) (s : App) : App :=
  {| peer := peer s; connections := connections s;
     bluetoothConnections := bluetoothConnections s;
     bluetoothCharacteristic := bluetoothCharacteristic s;
     bluetoothDevice := bluetoothDevice s; deviceName := deviceName s;
     autoConnect := autoConnect s; connectionPriority := connectionPriority s;
     message_input := message_input s; remote_peer_id := remote_peer_id s;
     file_input := file_input s; messages := b;
     clock_reads := clock_reads s |}.

Definition with_clock_reads (n : nat) (s : App) : App :=
  {| peer := peer s; connections := connections s;
     bluetoothConnections := bluetoothConnections s;
     bluetoothCharacteristic := bluetoothCharacteristic s;
     bluetoothDevice := bluetoothDevice s; deviceName := deviceName s;
     autoConnect := autoConnect s; connectionPriority := connectionPriority s;
     message_input := message_input s; remote_peer_id := remote_peer_id s;
     file_input := file_input s; messages := messages s;
     clock_reads := n |}.

(** ** The class [EmergencyMeshChat] *)

(** [a || d] for a possibly missing string: the default also replaces the
    empty string. *)
Definition orDefault (a : option jsstring) (d : jsstring) : jsstring :=
  match a with
  | Some (c :: r) => c :: r
  | _ => d
  end.

(** [conn.metadata?.deviceName] *)
Definition metadata_deviceName (md : option Metadata) : option jsstring :=
  match md with
  | Some m => md_deviceName m
  | None => None
  end.

(** [Array.prototype.slice(i, j)] on a typed array, for [i <= j]. *)
Definition slice {A : Type} (l : list A) (i j : nat) : list A :=
  firstn (j - i) (skipn i l).

(** [reader.result.split(',')]: the segments between commas. *)
Fixpoint split_comma (s : jsstring) (cur : jsstring) : list jsstring :=
  match s with
  | [] => [rev cur]
  | c :: s' =>
      if N.eqb c 44 then rev cur :: split_comma s' []
      else split_comma s' (c :: cur)
  end.

Definition maxChunkSize : nat := 20.

Definition getTotalConnections (s : App) : nat :=
  JsMap.size (connections s) + JsMap.size (bluetoothConnections s).

Definition showToast (message kind : jsstring) : M unit :=
  emit (EvToast message kind).

Definition updateConnectionStatus (message kind : jsstring) : M unit :=
  emit (EvStatus message kind).

Definition console (level : string) (text : string) : M unit :=
  emit (EvConsole (lit level) (lit text)).

Definition updateActiveConnections : M unit :=
  s <- getApp ;; emit (EvActiveConnections (getTotalConnections s)).

Definition displayMessage (messageData : Message) (isSent : bool) : M unit :=
  modify (fun s => with_messages (messages s ++ [MessageBubble messageData isSent]) s).

Definition playAlertSound : M unit := emit EvAlertSound.

Definition displayEmergencyAlert (alertData : Message) (isSent : bool) : M unit :=
  modify (fun s => with_messages (messages s ++ [AlertBubble alertData isSent]) s) ;;
  playAlertSound.

Definition displayFileMessage (fileData : Message) (isSent : bool) : M unit :=
  modify (fun s => with_messages (messages s ++ [FileBubble fileData isSent]) s).

Definition hideFileModal : M unit :=
  emit EvHideFileModal ;; modify (with_file_input None).

(** The calls of the two scans and of [refreshDevices] from the timer
    callbacks. Only the call is recorded, as one event at the time it is
    made; these definitions serve the schedule of the calls and say nothing
    about what the methods go on to do. The body of [scanBluetoothDevices]
    (the browser's device chooser, then [connectBluetoothDevice] on the
    chosen device) is not embedded here: its connect is a [GattConnect] of
    the transport sequences below. The bodies of [scanLocalNetwork] (a
    simulated probe with random answers) and of [refreshDevices] are not
    embedded either. *)
Definition scanBluetoothDevices : M unit := emit EvScanBluetoothDevices.

Definition scanLocalNetwork : M unit := emit EvScanLocalNetwork.

Definition refreshDevices : M unit := emit EvRefreshDevices.

Section Methods.

Variable env : Env.

(** [new TextEncoder().encode(JSON.stringify(m))] for a message object. *)
Variable utf8_json : Message -> list byte.

(** The encoded argument of [writeBluetoothMessage]. [None] is the value
    [undefined]: [JSON.stringify(undefined)] is [undefined], which
    [TextEncoder.encode] turns into the empty array. *)
Definition encodePayload (data : option Message) : list byte :=
  match data with
  | Some m => utf8_json m
  | None => []
  end.

Definition dateNow : M Z :=
  fun s => (Normal (env_now env (clock_reads s)),
            with_clock_reads (S (clock_reads s)) s, []).

Definition generateMessageId : M jsstring :=
  fun s => (Normal (env_messageId env (clock_reads s)),
            with_clock_reads (S (clock_reads s)) s, []).

(** [conn.send(m)] *)
Definition connSend (conn : DataConnection) (m : Message) : M unit :=
  if env_send_throws env (conn_id conn)
  then emit (EvSendThrew (conn_id conn) m) ;; throw (lit "send failed")
  else emit (EvSend (conn_id conn) m).

(** [await characteristic.writeValue(frame)], the frame starting at byte
    [offset] of the encoded message. *)
Definition writeValue (chr : Characteristic) (offset : nat) (frame : list byte)
  : M unit :=
  if env_write_rejects env (chr_id chr) offset
  then emit (EvWriteRejected (chr_id chr) frame) ;; throw (lit "GATT write failed")
  else emit (EvWriteValue (chr_id chr) frame).

(** [await new Promise(resolve => setTimeout(resolve, ms))] *)
Definition sleep (ms : Z) : M unit := emit (EvSleep ms).

(** The [for (let i = 0; i < encodedMessage.length; i += maxChunkSize)]
    loop from index [i] on. Every turn advances [i] by [maxChunkSize], so
    [length encodedMessage] turns of fuel are never used up. *)
Fixpoint chunk_loop (fuel : nat) (chr : Characteristic)
  (encodedMessage : list byte) (i : nat) : M unit :=
  match fuel with
  | O => ret tt
  | S fuel' =>
      if i <? List.length encodedMessage then
        let chunk := slice encodedMessage i (i + maxChunkSize) in
        writeValue chr i chunk ;;
        sleep 50 ;;
        chunk_loop fuel' chr encodedMessage (i + maxChunkSize)
      else ret tt
  end.

Definition writeBluetoothMessage (characteristic : Characteristic)
  (data : option Message) : M unit :=
  tryCatch
    (let encodedMessage := encodePayload data in
     if List.length encodedMessage <=? maxChunkSize then
       writeValue characteristic 0 encodedMessage
     else
       chunk_loop (List.length encodedMessage) characteristic encodedMessage 0)
    (fun error =>
       console "error" "Failed to write Bluetooth message:" ;;
       throw error).

Definition sendBluetoothHandshake (characteristic : Characteristic)
  (device : BluetoothDevice) : M unit :=
  s <- getApp ;;
  now <- dateNow ;;
  let handshake :=
    BluetoothHandshake (deviceName s) now (dev_id device)
      [lit "messaging"; lit "emergency"; lit "file-transfer"] in
  writeBluetoothMessage characteristic (Some handshake).

Definition sendHandshake (conn : DataConnection) : M unit :=
  s <- getApp ;;
  now <- dateNow ;;
  let handshake :=
    Handshake (deviceName s) now
      (match peer s with Some id => id | None => lit "bluetooth-only" end)
      (lit "webrtc") in
  connSend conn handshake.

(** *** [setupConnection]: the handlers it registers on [conn] *)

Definition onConnectionOpen (conn : DataConnection) (isIncoming : bool)
  : M unit :=
  console "log" (if isIncoming then "WebRTC connection accepted with:"
                 else "WebRTC connection established with:") ;;
  modify (fun s =>
    with_connections
      (JsMap.set (connections s) (conn_peer conn)
         {| cd_connection := conn; cd_type := lit "webrtc";
            cd_metadata := conn_metadata conn |}) s) ;;
  updateActiveConnections ;;
  s <- getApp ;;
  updateConnectionStatus
    (lit "Connected to " ++ numberToString (getTotalConnections s)
       ++ lit " device(s)") (lit "success") ;;
  let deviceName :=
    orDefault (metadata_deviceName (conn_metadata conn)) (lit "Unknown Device") in
  showToast (lit "WebRTC connected to " ++ deviceName) (lit "success") ;;
  sendHandshake conn ;;
  modify (with_remote_peer_id []).

Definition onConnectionClose (conn : DataConnection) : M unit :=
  console "log" "WebRTC connection closed:" ;;
  modify (fun s =>
    with_connections (JsMap.delete (connections s) (conn_peer conn)) s) ;;
  updateActiveConnections ;;
  s <- getApp ;;
  let totalConnections := getTotalConnections s in
  (if totalConnections =? 0
   then updateConnectionStatus (lit "No active connections") (lit "warning")
   else updateConnectionStatus
          (lit "Connected to " ++ numberToString totalConnections
             ++ lit " device(s)") (lit "success")) ;;
  showToast (lit "WebRTC device disconnected") (lit "warning").

Definition onConnectionError (conn : DataConnection) : M unit :=
  console "error" "WebRTC connection error:" ;;
  modify (fun s =>
    with_connections (JsMap.delete (connections s) (conn_peer conn)) s) ;;
  updateActiveConnections ;;
  showToast (lit "WebRTC connection error") (lit "error").

(** *** Bluetooth connection *)

Definition startNotifications (chr : Characteristic) : M unit :=
  if env_start_notifications env (chr_id chr) then ret tt
  else throw (lit "startNotifications failed").

(** The inner [for (const char of characteristics)] loop of
    [setupGenericBluetoothConnection]; [true] when it returned from the
    method. *)
Fixpoint generic_characteristics (server service : nat)
  (device : BluetoothDevice) (characteristics : list Characteristic) : M bool :=
  match characteristics with
  | [] => ret false
  | char :: rest =>
      if chr_write char || chr_writeWithoutResponse char then
        console "log" "Found writable characteristic for generic connection" ;;
        modify (fun s =>
          with_bluetoothConnections
            (JsMap.set (bluetoothConnections s) (dev_id device)
               {| bt_device := device; bt_server := server;
                  bt_service := service; bt_characteristic := char;
                  bt_type := lit "bluetooth-generic" |}) s) ;;
        (if chr_notify char then startNotifications char else ret tt) ;;
        updateActiveConnections ;;
        showToast (lit "Generic Bluetooth connection established") (lit "success") ;;
        ret true
      else generic_characteristics server service device rest
  end.

(** The outer [for (const service of services)] loop. *)
Fixpoint generic_services (server : nat) (device : BluetoothDevice)
  (services : list nat) : M bool :=
  match services with
  | [] => ret false
  | service :: rest =>
      match env_characteristics env service with
      | None => throw (lit "getCharacteristics failed")
      | Some characteristics =>
          found <- generic_characteristics server service device characteristics ;;
          if found then ret true else generic_services server device rest
      end
  end.

Definition setupGenericBluetoothConnection (server : nat)
  (device : BluetoothDevice) : M unit :=
  tryCatch
    (match env_primary_services env server with
     | None => throw (lit "getPrimaryServices failed")
     | Some services =>
         found <- generic_services server device services ;;
         if found then ret tt
         else throw (lit "No suitable characteristics found")
     end)
    (fun error =>
       console "error" "Generic Bluetooth setup failed:" ;;
       showToast (lit "Could not establish Bluetooth communication") (lit "error")).

Definition connectBluetoothDevice (device : BluetoothDevice) : M unit :=
  tryCatch
    (showToast
       (lit "Connecting to " ++ orDefault (dev_name device) (lit "Unknown Device")
          ++ lit "...") (lit "info") ;;
     modify (with_bluetoothDevice (Some device)) ;;
     match env_gatt_connect env (dev_id device) with
     | None => throw (lit "gatt.connect failed")
     | Some server =>
         console "log" "Connected to GATT server" ;;
         match env_primary_service env server with
         | None =>
             console "log" "Emergency service not found, attempting generic connection" ;;
             setupGenericBluetoothConnection server device
         | Some service =>
             match env_message_characteristic env service with
             | None => throw (lit "getCharacteristic failed")
             | Some messageChar =>
                 modify (with_bluetoothCharacteristic (Some messageChar)) ;;
                 startNotifications messageChar ;;
                 modify (fun s =>
                   with_bluetoothConnections
                     (JsMap.set (bluetoothConnections s) (dev_id device)
                        {| bt_device := device; bt_server := server;
                           bt_service := service;
                           bt_characteristic := messageChar;
                           bt_type := lit "bluetooth" |}) s) ;;
                 updateActiveConnections ;;
                 showToast
                   (lit "Connected to " ++ orDefault (dev_name device) (lit "Device")
                      ++ lit " via Bluetooth") (lit "success") ;;
                 updateConnectionStatus
                   (lit "Bluetooth connected to "
                      ++ orDefault (dev_name device) (lit "Device")) (lit "success") ;;
                 sendBluetoothHandshake messageChar device
             end
         end
     end)
    (fun error =>
       console "error" "Bluetooth connection failed:" ;;
       showToast (lit "Bluetooth connection failed: " ++ error) (lit "error")).

Definition handleBluetoothDisconnect (device : BluetoothDevice) : M unit :=
  s <- getApp ;;
  match JsMap.get (bluetoothConnections s) (dev_id device) with
  | Some _ =>
      modify (fun s =>
        with_bluetoothConnections
          (JsMap.delete (bluetoothConnections s) (dev_id device)) s) ;;
      updateActiveConnections ;;
      showToast
        (lit "Bluetooth device " ++ orDefault (dev_name device) (lit "Unknown")
           ++ lit " disconnected") (lit "warning")
  | None => ret tt
  end.

(** [disconnectBluetoothDevice(deviceId)], the disconnect button of a
    Bluetooth device; [gattConnected] is what [device.gatt.connected] reads
    for the device of an entry. The [gattserverdisconnected] event that
    [gatt.disconnect()] raises is a [GattDisconnected] of the transport
    sequences. *)
Definition disconnectBluetoothDevice (gattConnected : jsstring -> bool)
  (deviceId : jsstring) : M unit :=
  s <- getApp ;;
  match JsMap.get (bluetoothConnections s) deviceId with
  | Some connection =>
      if gattConnected (dev_id (bt_device connection)) then
        emit (EvGattDisconnect (dev_id (bt_device connection))) ;;
        modify (fun s =>
          with_bluetoothConnections
            (JsMap.delete (bluetoothConnections s) deviceId) s) ;;
        updateActiveConnections
      else ret tt
  | None => ret tt
  end.

(** [disconnectPeer(peerId)], the disconnect button of a direct device.
    Every entry this program files has its [connection]. The [close] event
    PeerJS raises for the closed connection is a [ConnClose] of the
    transport sequences. *)
Definition disconnectPeer (peerId : jsstring) : M unit :=
  s <- getApp ;;
  match JsMap.get (connections s) peerId with
  | Some connData =>
      emit (EvConnClose (conn_id (cd_connection connData))) ;;
      modify (fun s =>
        with_connections (JsMap.delete (connections s) peerId) s) ;;
      updateActiveConnections ;;
      showToast (lit "WebRTC device disconnected") (lit "info")
  | None => ret tt
  end.

(** *** Sending *)

Definition sendMessage : M unit :=
  s <- getApp ;;
  let message := trim (message_input s) in
  if falsy message then ret tt
  else
    let totalConnections := getTotalConnections s in
    if totalConnections =? 0 then
      showToast (lit "No devices connected to send message") (lit "warning")
    else
      now <- dateNow ;;
      id <- generateMessageId ;;
      let messageData := ChatMessage message (deviceName s) now id in
      this <- getApp ;;
      forEach (connections this) (fun connData _ =>
        tryCatch (connSend (cd_connection connData) messageData)
          (fun error => console "error" "Failed to send WebRTC message:")) ;;
      this <- getApp ;;
      forEach (bluetoothConnections this) (fun connData _ =>
        tryCatch
          (writeBluetoothMessage (bt_characteristic connData) (Some messageData))
          (fun error => console "error" "Failed to send Bluetooth message:")) ;;
      displayMessage messageData true ;;
      modify (with_message_input []) ;;
      showToast
        (lit "Message sent to " ++ numberToString totalConnections
           ++ lit " device(s)") (lit "success").

Definition getCurrentLocation : M Location :=
  match env_geolocation env with
  | GeoUnsupported => ret null_location
  | GeoPosition lat lon acc =>
      ret {| latitude := Some lat; longitude := Some lon; accuracy := Some acc |}
  | GeoError _ =>
      console "error" "Location access denied:" ;;
      ret null_location
  | GeoSilent => pending
  end.

Definition sendEmergencyAlert : M unit :=
  s <- getApp ;;
  let totalConnections := getTotalConnections s in
  if totalConnections =? 0 then
    showToast (lit "No devices connected for emergency alert") (lit "warning")
  else
    now <- dateNow ;;
    location <- getCurrentLocation ;;
    id <- generateMessageId ;;
    let emergencyData :=
      Emergency (lit "EMERGENCY ALERT: Assistance needed at this location")
        (deviceName s) now location id in
    this <- getApp ;;
    forEach (connections this) (fun connData _ =>
      tryCatch (connSend (cd_connection connData) emergencyData)
        (fun error => console "error" "Failed to send emergency via WebRTC:")) ;;
    this <- getApp ;;
    forEach (bluetoothConnections this) (fun connData _ =>
      tryCatch
        (writeBluetoothMessage (bt_characteristic connData) (Some emergencyData))
        (fun error => console "error" "Failed to send emergency via Bluetooth:")) ;;
    displayEmergencyAlert emergencyData true ;;
    showToast
      (lit "Emergency alert sent to " ++ numberToString totalConnections
         ++ lit " device(s)") (lit "warning").

(** [reader.onload = () => resolve(reader.result.split(',')[1])],
    [reader.onerror = reject]. *)
Definition fileToBase64 (file : File) : M (option jsstring) :=
  match env_readAsDataURL env file with
  | Some result => ret (nth_error (split_comma result []) 1)
  | None => throw (lit "FileReader error")
  end.

Definition sendFile : M unit :=
  s <- getApp ;;
  match file_input s with
  | None => showToast (lit "No file selected") (lit "error")
  | Some file =>
      let totalConnections := getTotalConnections s in
      if totalConnections =? 0 then
        showToast (lit "No devices connected to send file") (lit "warning")
      else
        tryCatch
          (base64Data <- fileToBase64 file ;;
           now <- dateNow ;;
           id <- generateMessageId ;;
           let fileMessage :=
             FileMessage (file_name file) (file_size file) (file_type file)
               base64Data (deviceName s) now id in
           this <- getApp ;;
           forEach (connections this) (fun connData _ =>
             tryCatch (connSend (cd_connection connData) fileMessage)
               (fun error => console "error" "Failed to send file via WebRTC:")) ;;
           now' <- dateNow ;;
           let fileNotification :=
             FileNotification (file_name file) (file_size file) (file_type file)
               (deviceName s) now' id
               (lit "File " ++ [34%N] ++ file_name file ++ [34%N]
                  ++ lit " shared via WebRTC") in
           this <- getApp ;;
           forEach (bluetoothConnections this) (fun connData _ =>
             tryCatch
               (writeBluetoothMessage (bt_characteristic connData)
                  (Some fileNotification))
               (fun error =>
                  console "error" "Failed to send file notification via Bluetooth:")) ;;
           displayFileMessage fileMessage true ;;
           showToast
             (lit "File sent to " ++ numberToString totalConnections
                ++ lit " device(s)") (lit "success") ;;
           hideFileModal)
          (fun error =>
             console "error" "File sending failed:" ;;
             showToast (lit "Failed to send file") (lit "error"))
  end.

(** *** Discovery and monitoring *)

Definition startAutoDiscovery : M unit :=
  s <- getApp ;;
  if negb (autoConnect s) then ret tt
  else
    console "log" "Starting auto-discovery..." ;;
    emit (EvSetTimeout 1000 StaggeredBluetoothScan) ;;
    emit (EvSetTimeout 3000 StaggeredLocalScan) ;;
    emit (EvSetInterval 30000 PeriodicRediscovery).

Definition monitorConnectionQuality : M unit :=
  emit (EvSetInterval 10000 QualityProbe).

(** The callback [(connData, peerId) => ...] the probe hands to [forEach]. *)
Definition probeConnection (connData : ConnData) (peerId : jsstring) : M unit :=
  if env_conn_open env (conn_id (cd_connection connData)) then
    tryCatch
      (now <- dateNow ;;
       connSend (cd_connection connData) (Ping now))
      (fun error =>
         emit (EvConsole (lit "warn")
                 (lit "Connection quality check failed for " ++ peerId)) ;;
         modify (fun s =>
           with_connections (JsMap.delete (connections s) peerId) s) ;;
         updateActiveConnections)
  else ret tt.

(** The body of the interval callback of [monitorConnectionQuality]. *)
Definition qualityProbe : M unit :=
  s <- getApp ;;
  forEach (connections s) probeConnection.

(** The callbacks registered with the timers. *)
Definition runTask (t : Task) : M unit :=
  match t with
  | BootTask => startAutoDiscovery ;; monitorConnectionQuality
  | StaggeredBluetoothScan =>
      s <- getApp ;;
      if str_eqb (connectionPriority s) (lit "bluetooth")
         || str_eqb (connectionPriority s) (lit "webrtc")
      then scanBluetoothDevices else ret tt
  | StaggeredLocalScan =>
      s <- getApp ;;
      if str_eqb (connectionPriority s) (lit "local")
         || str_eqb (connectionPriority s) (lit "webrtc")
      then scanLocalNetwork else ret tt
  | PeriodicRediscovery =>
      s <- getApp ;;
      if autoConnect s && (getTotalConnections s <? 3)
      then refreshDevices else ret tt
  | QualityProbe => qualityProbe
  end.

(** The [DOMContentLoaded] listener, after [new EmergencyMeshChat()]. *)
Definition domContentLoaded : M unit := emit (EvSetTimeout 2000 BootTask).

End Methods.

(** The state the constructor leaves ([loadSettings] included); [peerId] is
    the identifier [initializePeer] obtained, if any. *)
Definition constructed (peerId : option jsstring) : App :=
  {| peer := peerId;
     connections := JsMap.empty;
     bluetoothConnections := JsMap.empty;
     bluetoothCharacteristic := None;
     bluetoothDevice := None;
     deviceName := lit "Emergency Device";
     autoConnect := true;
     connectionPriority := lit "webrtc";
     message_input := [];
     remote_peer_id := [];
     file_input := None;
     messages := [];
     clock_reads := 0 |}.

(** ** Timers *)

(** A pending timer: when it is due (ms since page load), its period when it
    came from [setInterval], and its callback. *)
Record Timer := {
  due : Z;
  period : option Z;
  task : Task
}.

(** The timers a handler running at time [now] registered. *)
Fixpoint timers_of (now : Z) (evs : list Event) : list Timer :=
  match evs with
  | [] => []
  | EvSetTimeout ms t :: rest =>
      {| due := now + ms; period := None; task := t |} :: timers_of now rest
  | EvSetInterval ms t :: rest =>
      {| due := now + ms; period := Some ms; task := t |} :: timers_of now rest
  | _ :: rest => timers_of now rest
  end.

Fixpoint earliest_due (q : list Timer) (best : Z) : Z :=
  match q with
  | [] => best
  | t :: rest => earliest_due rest (Z.min best (due t))
  end.

(** Take out the first timer that is due at [d]. *)
Fixpoint take_due (d : Z) (q : list Timer) : option (Timer * list Timer) :=
  match q with
  | [] => None
  | t :: rest =>
      if due t =? d then Some (t, rest)
      else match take_due d rest with
           | Some (t', rest') => Some (t', t :: rest')
           | None => None
           end
  end%Z.

Definition next_timer (q : list Timer) : option (Timer * list Timer) :=
  match q with
  | [] => None
  | t :: rest => take_due (earliest_due rest (due t)) q
  end.

Section EventLoop.

Variable env : Env.

(** The browser's timer loop in virtual time: the earliest timer fires at
    the time it is due (a real timer fires no earlier), an interval is armed
    again, and the timers its callback registers join the queue. It stops
    after [fuel] callbacks or past [horizon]. The log pairs each effect with
    the time of the callback that produced it. *)
Fixpoint event_loop (fuel : nat) (horizon : Z) (queue : list Timer) (s : App)
  : list (Z * Event) * App :=
  match fuel with
  | O => ([], s)
  | S fuel' =>
      match next_timer queue with
      | None => ([], s)
      | Some (t, rest) =>
          if (horizon <? due t)%Z then ([], s)
          else
            match runTask env (task t) s with
            | (_, s1, evs) =>
                let again :=
                  match period t with
                  | Some p => [{| due := due t + p; period := Some p; task := task t |}]
                  | None => []
                  end in
                match event_loop fuel' horizon
                        (rest ++ again ++ timers_of (due t) evs) s1 with
                | (log, s2) => (map (fun e => (due t, e)) evs ++ log, s2)
                end
            end
      end
  end.

(** Page load at time 0: the constructor runs, the listener registers the
    boot timer, then the loop runs. *)
Definition page_load (peerId : option jsstring) (fuel : nat) (horizon : Z)
  : list (Z * Event) :=
  match domContentLoaded (constructed peerId) with
  | (_, s, evs) => fst (event_loop fuel horizon (timers_of 0 evs) s)
  end.

End EventLoop.

(** The times at which a given effect occurs in a timed log. *)
Definition is_bluetooth_scan (e : Event) : bool :=
  match e with EvScanBluetoothDevices => true | _ => false end.

Definition is_local_scan (e : Event) : bool :=
  match e with EvScanLocalNetwork => true | _ => false end.

Definition times_of (p : Event -> bool) (log : list (Z * Event)) : list Z :=
  map fst (filter (fun te => p (snd te)) log).

(** ** Transport events and the registries *)

(** What the transports report and what the user asks of them.
    [ConnError] says whether the handle still reports open afterwards;
    [GattConnect] is a run of [connectBluetoothDevice], whose GATT link
    comes up when [device.gatt.connect()] resolves; [PeerDisconnect] and
    [DeviceDisconnect] are the two disconnect buttons, which close the
    transport of the entry they find. *)
Inductive TransportEvent :=
| ConnOpen (conn : DataConnection) (isIncoming : bool)
| ConnClose (conn : DataConnection)
| ConnError (conn : DataConnection) (staysOpen : bool)
| GattConnect (device : BluetoothDevice)
| GattDisconnected (device : BluetoothDevice)
| PeerDisconnect (peerId : jsstring)
| DeviceDisconnect (deviceId : jsstring).

(** The application together with the state of the transports: the
    [conn_id]s of the data connections whose [open] is true and the ids of
    the devices whose [gatt.connected] is true. *)
Record World := {
  app : App;
  open_conns : list nat;
  gatt_connected : list jsstring
}.

Definition without_conn (i : nat) (l : list nat) : list nat :=
  filter (fun j => negb (Nat.eqb j i)) l.

Definition without_device (k : jsstring) (l : list jsstring) : list jsstring :=
  filter (fun j => negb (str_eqb j k)) l.

(** The state a handler leaves, whether it returned or threw. *)
Definition exec (m : M unit) (s : App) : App := snd (fst (m s)).

Definition effects (m : M unit) (s : App) : list Event := snd (m s).

Definition outcome {A : Type} (m : M A) (s : App) : Completion A := fst (fst (m s)).

Section Transports.

Variable env : Env.
Variable utf8_json : Message -> list byte.

Definition step (w : World) (e : TransportEvent) : World :=
  match e with
  | ConnOpen conn isIncoming =>
      {| app := exec (onConnectionOpen env conn isIncoming) (app w);
         open_conns := conn_id conn :: without_conn (conn_id conn) (open_conns w);
         gatt_connected := gatt_connected w |}
  | ConnClose conn =>
      {| app := exec (onConnectionClose conn) (app w);
         open_conns := without_conn (conn_id conn) (open_conns w);
         gatt_connected := gatt_connected w |}
  | ConnError conn staysOpen =>
      {| app := exec (onConnectionError conn) (app w);
         open_conns := if staysOpen then open_conns w
                       else without_conn (conn_id conn) (open_conns w);
         gatt_connected := gatt_connected w |}
  | GattConnect device =>
      {| app := exec (connectBluetoothDevice env utf8_json device) (app w);
         open_conns := open_conns w;
         gatt_connected :=
           match env_gatt_connect env (dev_id device) with
           | Some _ => dev_id device :: without_device (dev_id device) (gatt_connected w)
           | None => gatt_connected w
           end |}
  | GattDisconnected device =>
      {| app := exec (handleBluetoothDisconnect device) (app w);
         open_conns := open_conns w;
         gatt_connected := without_device (dev_id device) (gatt_connected w) |}
  | PeerDisconnect peerId =>
      {| app := exec (disconnectPeer peerId) (app w);
         open_conns :=
           match JsMap.get (connections (app w)) peerId with
           | Some connData =>
               without_conn (conn_id (cd_connection connData)) (open_conns w)
           | None => open_conns w
           end;
         gatt_connected := gatt_connected w |}
  | DeviceDisconnect deviceId =>
      {| app := exec (disconnectBluetoothDevice
                        (fun k => existsb (str_eqb k) (gatt_connected w))
                        deviceId) (app w);
         open_conns := open_conns w;
         gatt_connected :=
           match JsMap.get (bluetoothConnections (app w)) deviceId with
           | Some connection =>
               if existsb (str_eqb (dev_id (bt_device connection)))
                    (gatt_connected w)
               then without_device (dev_id (bt_device connection))
                      (gatt_connected w)
               else gatt_connected w
           | None => gatt_connected w
           end |}
  end.

Definition run_events (w : World) (evs : list TransportEvent) : World :=
  fold_left step evs w.

End Transports.

Definition initial_world (peerId : option jsstring) : World :=
  {| app := constructed peerId; open_conns := []; gatt_connected := [] |}.

(** The data connections a sequence of events is about. *)
Fixpoint handles (evs : list TransportEvent) : list DataConnection :=
  match evs with
  | [] => []
  | ConnOpen c _ :: rest => c :: handles rest
  | ConnClose c :: rest => c :: handles rest
  | ConnError c _ :: rest => c :: handles rest
  | _ :: rest => handles rest
  end.

(** [conn_id] is the identity of the connection object: two handles with
    the same [conn_id] are the same object. *)
Definition coherent (hs : list DataConnection) : Prop :=
  forall c c', In c hs -> In c' hs -> conn_id c = conn_id c' -> c = c'.

Definition handles_coherent (evs : list TransportEvent) : Prop :=
  coherent (handles evs).

(** Every error reported on a connection leaves it closed. *)
Definition errors_close (evs : list TransportEvent) : Prop :=
  forall c b, In (ConnError c b) evs -> b = false.

(** A data connection reports open. *)
Definition reports_open (w : World) (c : DataConnection) : Prop :=
  In (conn_id c) (open_conns w).

(** The direct registry holds an entry for this connection object. *)
Definition registered (w : World) (c : DataConnection) : Prop :=
  exists d, JsMap.get (connections (app w)) (conn_peer c) = Some d
            /\ cd_connection d = c.

(** The invariant of section 3 of the specification on the direct registry:
    an entry exists exactly for the handles that report open. *)
Definition registry_lockstep (w : World) (cs : list DataConnection) : Prop :=
  forall c, In c cs -> (registered w c <-> reports_open w c).

(** No phantom entry: every entry of either registry sits under the key of
    its handle, and that handle reports open (connected). *)
Definition no_phantom (w : World) : Prop :=
  (forall k d, JsMap.get (connections (app w)) k = Some d ->
     conn_peer (cd_connection d) = k /\ reports_open w (cd_connection d))
  /\ (forall k d, JsMap.get (bluetoothConnections (app w)) k = Some d ->
     dev_id (bt_device d) = k /\ In k (gatt_connected w)).

(** [no_phantom] with the handles of the direct entries drawn from [hs]. *)
Definition tracked (hs : list DataConnection) (w : World) : Prop :=
  (forall k d, JsMap.get (connections (app w)) k = Some d ->
     In (cd_connection d) hs
     /\ conn_peer (cd_connection d) = k /\ reports_open w (cd_connection d))
  /\ (forall k d, JsMap.get (bluetoothConnections (app w)) k = Some d ->
     dev_id (bt_device d) = k /\ In k (gatt_connected w)).

(** Every handle of [hs] that reports open has its entry. *)
Definition covered (hs : list DataConnection) (w : World) : Prop :=
  forall c, In c hs -> reports_open w c -> registered w c.

(** The handle a transport event is about, if it is a data connection. *)
Definition handle_of (e : TransportEvent) : list DataConnection :=
  match e with
  | ConnOpen c _ => [c]
  | ConnClose c => [c]
  | ConnError c _ => [c]
  | _ => []
  end.

(** When [e] arrives, no other connection object that reports open leads
    to the peer of the connection [e] is about. *)
Definition alone (hs : list DataConnection) (w : World) (e : TransportEvent)
  : Prop :=
  forall c c', In c (handle_of e) -> In c' hs -> reports_open w c' ->
    conn_peer c' = conn_peer c -> c' = c.

(** Along the run of [evs] from [w], at most one connection object per
    remote peer is open at a time: every event about a connection finds it
    [alone]. A peer may be connected again once its connection is closed. *)
Fixpoint one_open_handle_per_peer (env : Env) (utf8_json : Message -> list byte)
  (hs : list DataConnection) (w : World) (evs : list TransportEvent) : Prop :=
  match evs with
  | [] => True
  | e :: rest =>
      alone hs w e
      /\ one_open_handle_per_peer env utf8_json hs (step env utf8_json w e) rest
  end.

(** Two connection objects to the same peer: the second opens, then the
    first closes. *)
Definition twin_handle_events : list TransportEvent :=
  [ConnOpen {| conn_id := 1; conn_peer := lit "peer-a"; conn_metadata := None |} false;
   ConnOpen {| conn_id := 2; conn_peer := lit "peer-a"; conn_metadata := None |} true;
   ConnClose {| conn_id := 1; conn_peer := lit "peer-a"; conn_metadata := None |}].

(** An error that leaves its connection open. *)
Definition lingering_error_events : list TransportEvent :=
  [ConnOpen {| conn_id := 1; conn_peer := lit "peer-a"; conn_metadata := None |} false;
   ConnError {| conn_id := 1; conn_peer := lit "peer-a"; conn_metadata := None |} true].

(** Two peers: the first is connected again after its connection closed;
    the second is disconnected by the user, connects again and is lost to
    an error. A device connects. *)
Definition orderly_events : list TransportEvent :=
  [ConnOpen {| conn_id := 1; conn_peer := lit "peer-a"; conn_metadata := None |} false;
   ConnOpen {| conn_id := 2; conn_peer := lit "peer-b"; conn_metadata := None |} true;
   ConnClose {| conn_id := 1; conn_peer := lit "peer-a"; conn_metadata := None |};
   ConnOpen {| conn_id := 3; conn_peer := lit "peer-a"; conn_metadata := None |} false;
   PeerDisconnect (lit "peer-b");
   ConnClose {| conn_id := 2; conn_peer := lit "peer-b"; conn_metadata := None |};
   ConnOpen {| conn_id := 4; conn_peer := lit "peer-b"; conn_metadata := None |} true;
   ConnError {| conn_id := 4; conn_peer := lit "peer-b"; conn_metadata := None |} false;
   GattConnect {| dev_id := lit "dev-x"; dev_name := None |}].

(** ** Numbers written as strings *)

(** [StringToNumber] of ECMA-262 (7.1.4.1.1), the conversion the loose
    comparison [==] applies to a string that meets a number. *)

Definition is_digit (c : N) : bool := ((48 <=? c) && (c <=? 57))%N.

(** The longest prefix of decimal digits, and the rest. *)
Fixpoint span_digits (s : jsstring) : jsstring * jsstring :=
  match s with
  | c :: s' =>
      if is_digit c then
        let (ds, rest) := span_digits s' in (c :: ds, rest)
      else ([], s)
  | [] => ([], [])
  end.

(** The decimal numeral a run of digits writes. *)
Fixpoint units_uint (ds : jsstring) : Decimal.uint :=
  match ds with
  | [] => Decimal.Nil
  | c :: ds' =>
      (if (c =? 48)%N then Decimal.D0
       else if (c =? 49)%N then Decimal.D1
       else if (c =? 50)%N then Decimal.D2
       else if (c =? 51)%N then Decimal.D3
       else if (c =? 52)%N then Decimal.D4
       else if (c =? 53)%N then Decimal.D5
       else if (c =? 54)%N then Decimal.D6
       else if (c =? 55)%N then Decimal.D7
       else if (c =? 56)%N then Decimal.D8
       else Decimal.D9) (units_uint ds')
  end.

Definition digits_value (ds : jsstring) : Z := Z.of_N (N.of_uint (units_uint ds)).

(** The value of a digit in a base up to 16, if it is one. *)
Definition digit_in (base : Z) (c : N) : option Z :=
  let v :=
    if ((48 <=? c) && (c <=? 57))%N then (Z.of_N c - 48)%Z
    else if ((97 <=? c) && (c <=? 102))%N then (Z.of_N c - 87)%Z
    else if ((65 <=? c) && (c <=? 70))%N then (Z.of_N c - 55)%Z
    else 16%Z in
  if (v <? base)%Z then Some v else None.

Fixpoint radix_value (base : Z) (acc : Z) (s : jsstring) : option Z :=
  match s with
  | [] => Some acc
  | c :: s' =>
      match digit_in base c with
      | Some v => radix_value base (acc * base + v)%Z s'
      | None => None
      end
  end.

(** [0x], [0o] and [0b] literals: no sign, one digit or more. *)
Definition non_decimal (s : jsstring) : option Z :=
  match s with
  | z :: p :: c :: r =>
      if negb (z =? 48)%N then None
      else if ((p =? 120) || (p =? 88))%N then radix_value 16 0%Z (c :: r)
      else if ((p =? 111) || (p =? 79))%N then radix_value 8 0%Z (c :: r)
      else if ((p =? 98) || (p =? 66))%N then radix_value 2 0%Z (c :: r)
      else None
  | _ => None
  end.

(** The exponent part, which must be all that is left: nothing, or [e] or
    [E], an optional sign and digits. *)
Definition exponent_part (s : jsstring) : option Z :=
  match s with
  | [] => Some 0%Z
  | e :: r =>
      if ((e =? 101) || (e =? 69))%N then
        let (negative, r') :=
          match r with
          | sign :: r' =>
              if (sign =? 43)%N then (false, r')
              else if (sign =? 45)%N then (true, r')
              else (false, r)
          | [] => (false, r)
          end in
        match span_digits r' with
        | (c :: ds, []) =>
            Some (if negative then - digits_value (c :: ds)
                  else digits_value (c :: ds))%Z
        | _ => None
        end
      else None
  end.

(** An unsigned decimal literal other than [Infinity]: its digits as an
    integer [m] and the power of ten [e], for the value [m * 10 ^ e]. *)
Definition unsigned_decimal (s : jsstring) : option (Z * Z) :=
  let (int, r1) := span_digits s in
  let '(frac, r2) :=
    match r1 with
    | dot :: r => if (dot =? 46)%N then span_digits r else ([], r1)
    | [] => ([], r1)
    end in
  match int ++ frac with
  | [] => None
  | _ =>
      match exponent_part r2 with
      | Some e => Some (digits_value (int ++ frac), (e - Z.of_nat (List.length frac))%Z)
      | None => None
      end
  end.

(** The double nearest to the integer [n] (ties to even). *)
Definition double_of_Z (n : Z) : spec_float :=
  binary_normalize prec emax n 0%Z false.

(** Mantissa and exponent of the double of a positive integer below
    [2 ^ 53]: the integer shifted to 53 bits. *)
Definition normal_form (p : positive) : positive * Z :=
  match (Zpos (digits2_pos p) - 53)%Z with
  | Zneg d => (Pos.iter xO p d, Zneg d)
  | _ => (p, 0%Z)
  end.

(** The double nearest to [m * 10 ^ e], for [m >= 0]: an integer when
    [e >= 0], otherwise the quotient of [m] by [10 ^ (- e)], taken with
    the bits and the remainder position the rounding needs. *)
Definition round_decimal (m e : Z) : float :=
  if (m =? 0)%Z then PrimFloat.zero
  else if (0 <=? e)%Z then SF2Prim (double_of_Z (m * 10 ^ e)%Z)
  else
    let '(q, e', l) := SFdiv_core_binary prec emax m 0%Z (10 ^ (- e))%Z 0%Z in
    SF2Prim (binary_round_aux prec emax false q e' l).

(** The string is trimmed of white space and line terminators. Empty, it
    is [+0]; a [0x], [0o] or [0b] literal is its integer; otherwise an
    optional sign is followed by [Infinity] or by a decimal literal
    (digits, an optional fraction, an optional exponent); anything else is
    [NaN]. The value is rounded to the nearest double, ties to even (for
    a literal of more than 20 significant digits ECMA-262 also allows
    rounding from its first 20; engines round the exact value). *)
Definition StringToNumber (s : jsstring) : float :=
  let t := trim s in
  match t with
  | [] => PrimFloat.zero
  | c :: r =>
      match non_decimal t with
      | Some n => SF2Prim (double_of_Z n)
      | None =>
          let (negative, u) :=
            if (c =? 43)%N then (false, r)
            else if (c =? 45)%N then (true, r)
            else (false, t) in
          let magnitude :=
            if str_eqb u (lit "Infinity") then PrimFloat.infinity
            else match unsigned_decimal u with
                 | Some (m, e) => round_decimal m e
                 | None => PrimFloat.nan
                 end in
          if negative then PrimFloat.opp magnitude else magnitude
      end
  end.


(** The decimal digits of a natural number, as [Number::toString] writes a
    non-negative integer below [10 ^ 21]. *)
Definition decimal (n : N) : jsstring := uint_units (N.to_uint n).

(** ** The incident-log server *)

Module Server.

Inductive json :=
| JNull
| JBool (b : bool)
| JNumber (x : float)
| JString (s : jsstring)
| JArray (items : list json)
| JObject (fields : list (jsstring * json)).

(** A stored emergency: a JSON object, read through [JsMap.get]. The list
    keeps the order in which the keys were set; JavaScript lists
    integer-like keys first, a difference in the order of the written text
    that no statement below depends on. *)
Definition record := JsMap.t json.

Inductive Response :=
| Reply (status : nat) (body : json).

(** [Array.prototype.findIndex]; [None] stands for -1. *)
Fixpoint findIndex {A : Type} (p : A -> bool) (l : list A) : option nat :=
  match l with
  | [] => None
  | x :: rest =>
      if p x then Some 0
      else match findIndex p rest with
           | Some i => Some (S i)
           | None => None
           end
  end.

Fixpoint update_at {A : Type} (i : nat) (f : A -> A) (l : list A) : list A :=
  match l, i with
  | [], _ => []
  | x :: rest, O => f x :: rest
  | x :: rest, S i' => x :: update_at i' f rest
  end.

(** A value as [JSON.stringify] writes it and [JSON.parse] reads it back:
    [-0] is written [0] and a number that is not finite is written
    [null]. *)
Fixpoint written (v : json) : json :=
  match v with
  | JNumber x =>
      if PrimFloat.is_nan x || PrimFloat.is_infinity x then JNull
      else if PrimFloat.is_zero x then JNumber PrimFloat.zero
      else JNumber x
  | JArray items => JArray (map written items)
  | JObject fields =>
      JObject (map (fun kv => (fst kv, written (snd kv))) fields)
  | other => other
  end.

(** [e.status = status] as the file and the response show it: both are
    texts of [JSON.stringify], which writes the value as [written] says and
    leaves out a property set to [undefined]. *)
Definition assign_status (status : option json) (e : record) : record :=
  match status with
  | Some v => JsMap.set e (lit "status") (written v)
  | None => JsMap.delete e (lit "status")
  end.

Section LooseEquality.

(** [Number::toString]; it is needed only for a number inside a stored id
    that is an array. *)
Variable number_to_string : float -> jsstring.

(** [ToString] of a stored value; for an array it is
    [Array.prototype.join], which writes [null] as the empty string. *)
Fixpoint ToString (v : json) : jsstring :=
  match v with
  | JNull => lit "null"
  | JBool b => if b then lit "true" else lit "false"
  | JNumber x => number_to_string x
  | JString s => s
  | JArray items =>
      (fix join (l : list json) : jsstring :=
         match l with
         | [] => []
         | item :: rest =>
             match item with JNull => [] | _ => ToString item end
             ++ match rest with [] => [] | _ => 44%N :: join rest end
         end) items
  | JObject _ => lit "[object Object]"
  end.

(** [x == y] (IsLooselyEqual of ECMA-262, 7.2.13) for a stored value [x],
    [None] when the property is missing, and a string [y]: a string is
    compared as a string, a number with the number [y] writes, a boolean as
    the number 1 or 0, an array or object through its [ToString];
    [undefined] and [null] equal no string. *)
Definition IsLooselyEqual (x : option json) (y : jsstring) : bool :=
  match x with
  | None => false
  | Some JNull => false
  | Some (JString s) => str_eqb s y
  | Some (JNumber n) => PrimFloat.eqb n (StringToNumber y)
  | Some (JBool b) =>
      PrimFloat.eqb (if b then PrimFloat.one else PrimFloat.zero)
        (StringToNumber y)
  | Some (JArray items) => str_eqb (ToString (JArray items)) y
  | Some (JObject fields) => str_eqb (ToString (JObject fields)) y
  end.

End LooseEquality.

Section Handlers.

(** The comparison of a stored id ([None] when the record has no [id])
    with the path parameter, a string. The handler's is [==], that is
    [IsLooselyEqual]; what holds of the handler for every comparison is
    stated for every comparison. *)
Variable loose_eq : option json -> jsstring -> bool.

Definition matches (id : jsstring) (e : record) : bool :=
  loose_eq (JsMap.get e (lit "id")) id.

(** [app.put('/api/emergencies/:id')]: the response and the contents of the
    file afterwards. *)
Definition put_emergency (file : list record) (id : jsstring)
  (status : option json) : Response * list record :=
  match findIndex (matches id) file with
  | Some index =>
      let emergencies := update_at index (assign_status status) file in
      (Reply 200 (JObject (nth index emergencies [])), emergencies)
  | None =>
      (Reply 404 (JObject [(lit "error", JString (lit "Emergency not found"))]),
       file)
  end.

(** [app.post('/api/emergencies')]: [now] is [Date.now()], [iso] is
    [new Date().toISOString()]. *)
Definition post_emergency (file : list record) (now : float) (iso : jsstring)
  (body : record) : Response * list record :=
  let emergency :=
    JsMap.set
      (JsMap.set
         (fold_left (fun o kv => JsMap.set o (fst kv) (snd kv)) body
            [(lit "id", JNumber now)])
         (lit "timestamp") (JString iso))
      (lit "status") (JString (lit "pending")) in
  (Reply 201 (JObject emergency), emergency :: file).

(** [app.get('/api/emergencies')] *)
Definition get_emergencies (file : list record) : Response :=
  Reply 200 (JArray (map JObject file)).

End Handlers.

(** The stored id of [e] is the string [s]. *)
Definition string_id (e : record) (s : jsstring) : Prop :=
  JsMap.get e (lit "id") = Some (JString s).

(** The stored id of [e] is the number [n], as [Date.now()] gives it. *)
Definition integer_id (e : record) (n : Z) : Prop :=
  exists x, JsMap.get e (lit "id") = Some (JNumber x)
            /\ Prim2SF x = double_of_Z n.

Definition reply_status (r : Response) : nat :=
  match r with Reply status _ => status end.

Definition reply_body (r : Response) : json :=
  match r with Reply _ body => body end.

End Server.

(** ** Vocabulary of the properties *)

(** The frames handed to [writeValue] and accepted, in order. *)
Fixpoint frames_written (tr : list Event) : list (list byte) :=
  match tr with
  | [] => []
  | EvWriteValue _ frame :: rest => frame :: frames_written rest
  | _ :: rest => frames_written rest
  end.

Definition ceil_div (a b : nat) : nat := (a + b - 1) / b.

(** What [n] turns of the chunk loop leave in the trace from byte [i] on,
    when every write is accepted. *)
Fixpoint loop_trace (n : nat) (chr : Characteristic) (encodedMessage : list byte)
  (i : nat) : list Event :=
  match n with
  | O => []
  | S n' =>
      EvWriteValue (chr_id chr) (slice encodedMessage i (i + maxChunkSize))
        :: EvSleep 50
        :: loop_trace n' chr encodedMessage (i + maxChunkSize)
  end.

(** How long the radio takes over the k-th write and how late the k-th
    timer fires. *)
Record Latency := {
  write_ms : nat -> Z;
  timer_late_ms : nat -> Z
}.

Definition latency_ok (lat : Latency) : Prop :=
  (forall k, 0 <= write_ms lat k)%Z /\ (forall k, 0 <= timer_late_ms lat k)%Z.

(** The times at which the writes of a trace are issued, on a clock that
    starts at [clock]: a write lasts [write_ms], a sleep of [ms] lasts
    [ms + timer_late_ms]; [nw] and [nt] count the writes and timers so far. *)
Fixpoint write_times (lat : Latency) (clock : Z) (nw nt : nat)
  (tr : list Event) : list Z :=
  match tr with
  | [] => []
  | EvWriteValue _ _ :: rest =>
      clock :: write_times lat (clock + write_ms lat nw) (S nw) nt rest
  | EvWriteRejected _ _ :: rest =>
      clock :: write_times lat (clock + write_ms lat nw) (S nw) nt rest
  | EvSleep ms :: rest =>
      write_times lat (clock + ms + timer_late_ms lat nt) nw (S nt) rest
  | _ :: rest => write_times lat clock nw nt rest
  end.

(** Consecutive times are at least [gap] apart. *)
Fixpoint spaced (gap : Z) (times : list Z) : Prop :=
  match times with
  | t1 :: ((t2 :: _) as rest) => (t1 + gap <= t2)%Z /\ spaced gap rest
  | _ => True
  end.

(** The effects of one attempt of a fan-out on a direct connection, and on
    a constrained one: the send inside its own [try]/[catch]. *)
Definition direct_attempt (env : Env) (label : string) (m : Message)
  (connData : ConnData) : list Event :=
  if env_send_throws env (conn_id (cd_connection connData))
  then [EvSendThrew (conn_id (cd_connection connData)) m;
        EvConsole (lit "error") (lit label)]
  else [EvSend (conn_id (cd_connection connData)) m].

Definition bluetooth_attempt (env : Env) (utf8_json : Message -> list byte)
  (label : string) (m : Message) (connData : BtConnData) : list Event :=
  effects
    (tryCatch
       (writeBluetoothMessage env utf8_json (bt_characteristic connData) (Some m))
       (fun _ => console "error" label))
    (constructed None).

(** A characteristic that accepts every write. *)
Definition accepts_all (env : Env) (chr : Characteristic) : Prop :=
  forall offset, env_write_rejects env (chr_id chr) offset = false.

(** What a run of [writeBluetoothMessage] with trace [tr] achieved for the
    encoded [payload]: the frames are at most 20 bytes each, they are the
    payload cut in order, there are [max 1 (ceil (L / 20))] of them, a
    payload of at most 20 bytes is one frame, and on every clock with
    non-negative latencies consecutive writes are 50 ms apart or more. *)
Definition segmented (payload : list byte) (tr : list Event) : Prop :=
  List.length (frames_written tr)
    = Nat.max 1 (ceil_div (List.length payload) 20)
  /\ (1 <= List.length payload ->
      List.length (frames_written tr) = ceil_div (List.length payload) 20)
  /\ Forall (fun f => List.length f <= 20) (frames_written tr)
  /\ List.concat (frames_written tr) = payload
  /\ (List.length payload <= 20 -> frames_written tr = [payload])
  /\ (forall lat clock, latency_ok lat ->
        spaced 50 (write_times lat clock 0 0 tr)).

(** The [capabilities] field of a message, when it has one. *)
Definition capabilities_of (m : Message) : option (list jsstring) :=
  match m with
  | BluetoothHandshake _ _ _ capabilities => Some capabilities
  | _ => None
  end.

Definition is_handshake (m : Message) : bool :=
  match m with
  | Handshake _ _ _ _ => true
  | BluetoothHandshake _ _ _ _ => true
  | _ => false
  end.

(** The messages handed to [conn.send] in a trace, thrown or not. *)
Fixpoint sent_messages (tr : list Event) : list Message :=
  match tr with
  | [] => []
  | EvSend _ m :: rest => m :: sent_messages rest
  | EvSendThrew _ m :: rest => m :: sent_messages rest
  | _ :: rest => sent_messages rest
  end.

(** The toasts of a trace. *)
Fixpoint toasts (tr : list Event) : list (jsstring * jsstring) :=
  match tr with
  | [] => []
  | EvToast text kind :: rest => (text, kind) :: toasts rest
  | _ :: rest => toasts rest
  end.

(** The object [sendMessage] builds in state [s]. *)
Definition chat_message (env : Env) (s : App) : Message :=
  ChatMessage (trim (message_input s)) (deviceName s)
    (env_now env (clock_reads s)) (env_messageId env (S (clock_reads s))).

(** The object [sendEmergencyAlert] builds in state [s] when the position
    fetch yields [location]. *)
Definition emergency_message (env : Env) (s : App) (location : Location)
  : Message :=
  Emergency (lit "EMERGENCY ALERT: Assistance needed at this location")
    (deviceName s) (env_now env (clock_reads s)) location
    (env_messageId env (S (clock_reads s))).

(** The characters of base64 text: letters, digits, [+], [/] and the
    padding [=]. *)
Definition base64_char (c : N) : bool :=
  ((65 <=? c) && (c <=? 90) || (97 <=? c) && (c <=? 122)
   || (48 <=? c) && (c <=? 57) || (c =? 43) || (c =? 47) || (c =? 61))%N.

(** What [FileReader.readAsDataURL] delivers: a header ([data:], the media
    type and [;base64]), a comma, and the base64 text of the contents. *)
Definition data_url (header body : jsstring) : jsstring :=
  header ++ 44%N :: body.

(** The two objects [sendFile] builds for [file], read as [dataURL]. *)
Definition file_message (env : Env) (s : App) (file : File) (dataURL : jsstring)
  : Message :=
  FileMessage (file_name file) (file_size file) (file_type file)
    (nth_error (split_comma dataURL []) 1) (deviceName s)
    (env_now env (clock_reads s)) (env_messageId env (S (clock_reads s))).

Definition file_notification (env : Env) (s : App) (file : File) : Message :=
  FileNotification (file_name file) (file_size file) (file_type file)
    (deviceName s) (env_now env (S (S (clock_reads s))))
    (env_messageId env (S (clock_reads s)))
    (lit "File " ++ [34%N] ++ file_name file ++ [34%N]
       ++ lit " shared via WebRTC").

(** The quality probe loses this connection: it reports open and its
    [send] throws. *)
Definition probe_fails (env : Env) (connData : ConnData) : bool :=
  env_conn_open env (conn_id (cd_connection connData))
  && env_send_throws env (conn_id (cd_connection connData)).

(** The direct registry [m] after the probe visited [entries]. *)
Definition probe_sweep (env : Env) (entries m : JsMap.t ConnData)
  : JsMap.t ConnData :=
  fold_left
    (fun m e => if probe_fails env (snd e) then JsMap.delete m (fst e) else m)
    entries m.

(** [frame] is one of the 20-byte slices of [payload]. *)
Definition chunk_of (payload frame : list byte) : Prop :=
  exists i, frame = slice payload i (i + maxChunkSize).

(** The events a write of [payload] to [chr] can leave: writes of its slices
    to that characteristic, pauses and log lines. *)
Definition radio_event (chr : Characteristic) (payload : list byte) (e : Event)
  : Prop :=
  match e with
  | EvWriteValue c frame => c = chr_id chr /\ chunk_of payload frame
  | EvWriteRejected c frame => c = chr_id chr /\ chunk_of payload frame
  | EvSleep _ => True
  | EvConsole _ _ => True
  | _ => False
  end.

(** What the position fetch logs when it fails. *)
Definition location_log (g : Geolocation) : list Event :=
  match g with
  | GeoError _ => [EvConsole (lit "error") (lit "Location access denied:")]
  | _ => []
  end.

(** The attempt on a connection is part of a trace. *)
Definition contains (tr part : list Event) : Prop :=
  exists before behind, tr = before ++ part ++ behind.

(** A method that did nothing but show one warning toast. *)
Definition warned_noop (m : M unit) (s : App) : Prop :=
  outcome m s = Normal tt /\ exec m s = s
  /\ exists text, effects m s = [EvToast text (lit "warning")].

(** A method that did nothing at all. *)
Definition silent_noop (m : M unit) (s : App) : Prop :=
  outcome m s = Normal tt /\ exec m s = s /\ effects m s = [].

(** A computation that never touches the state and always settles with the
    same completion and the same trace. *)
Definition stateless {A : Type} (m : M A) : Prop :=
  exists r t, r <> Pending /\ forall s, m s = (r, s, t).

(** The result of a computation that ran after the effects [t]. *)
Definition after {A : Type} (t : list Event)
  (x : Completion A * App * list Event) : Completion A * App * list Event :=
  match x with (r, s, t') => (r, s, t ++ t') end.

(** The state a run ended in. *)
Definition state_of {A : Type} (x : Completion A * App * list Event) : App :=
  snd (fst x).

(** A relation between the state before and the state after that every
    run of [m] satisfies. *)
Definition preserves {A : Type} (R : App -> App -> Prop) (m : M A) : Prop :=
  forall s, R s (state_of (m s)).

(** Relations that compose along a method: reflexive, transitive, and blind
    to the count of clock readings. *)
Class Frame (R : App -> App -> Prop) : Prop := {
  frame_refl : forall s, R s s;
  frame_trans : forall s1 s2 s3, R s1 s2 -> R s2 s3 -> R s1 s3;
  frame_clock : forall s n, R s (with_clock_reads n s)
}.

(** Both registries are as they were. *)
Definition same_registries (s s1 : App) : Prop :=
  connections s1 = connections s
  /\ bluetoothConnections s1 = bluetoothConnections s.

(** Only the constrained entry of [device] may have changed, and if it is
    new it is an entry for [device]. *)
Definition bt_touch (device : BluetoothDevice) (s s1 : App) : Prop :=
  connections s1 = connections s
  /\ (forall q, q <> dev_id device ->
        JsMap.get (bluetoothConnections s1) q
        = JsMap.get (bluetoothConnections s) q)
  /\ (forall d, JsMap.get (bluetoothConnections s1) (dev_id device) = Some d ->
        JsMap.get (bluetoothConnections s) (dev_id device) = Some d
        \/ bt_device d = device).

(** ** Sample data for the concrete runs *)

Definition bytes_of (s : jsstring) : list byte :=
  map (fun c => byte_of_ascii (ascii_of_N c)) s.

(** A serializer that keeps only the [type] field. *)
Definition type_only_json (m : Message) : list byte :=
  bytes_of (lit "{" ++ [34%N] ++ lit "type" ++ [34%N] ++ lit ":" ++ [34%N]
              ++ msg_type m ++ [34%N] ++ lit "}").

(** An environment where nothing fails and geolocation is denied; the
    connection with [conn_id] 7 and the characteristic with [chr_id] 9 are
    the faulty ones of [faulty_env]. *)
Definition calm_env : Env :=
  {| env_now := fun k => (1700000000000 + Z.of_nat k)%Z;
     env_messageId := fun k => lit "id" ++ numberToString k;
     env_conn_open := fun _ => true;
     env_send_throws := fun _ => false;
     env_write_rejects := fun _ _ => false;
     env_geolocation := GeoError 1;
     env_readAsDataURL := fun f => Some (lit "data:text/plain;base64,aGk=");
     env_gatt_connect := fun _ => Some 1;
     env_primary_service := fun _ => Some 2;
     env_message_characteristic := fun _ =>
       Some {| chr_id := 3; chr_write := true;
               chr_writeWithoutResponse := false; chr_notify := true |};
     env_start_notifications := fun _ => true;
     env_primary_services := fun _ => Some [2];
     env_characteristics := fun _ => Some [] |}.

Definition faulty_env : Env :=
  {| env_now := env_now calm_env;
     env_messageId := env_messageId calm_env;
     env_conn_open := fun _ => true;
     env_send_throws := fun i => Nat.eqb i 7;
     env_write_rejects := fun c _ => Nat.eqb c 9;
     env_geolocation := GeoUnsupported;
     env_readAsDataURL := env_readAsDataURL calm_env;
     env_gatt_connect := env_gatt_connect calm_env;
     env_primary_service := env_primary_service calm_env;
     env_message_characteristic := env_message_characteristic calm_env;
     env_start_notifications := env_start_notifications calm_env;
     env_primary_services := env_primary_services calm_env;
     env_characteristics := env_characteristics calm_env |}.

Definition sample_characteristic : Characteristic :=
  {| chr_id := 3; chr_write := true; chr_writeWithoutResponse := false;
     chr_notify := true |}.

Definition sample_conn (i : nat) (peerId : string) : DataConnection :=
  {| conn_id := i; conn_peer := lit peerId;
     conn_metadata :=
       Some {| md_deviceName := Some (lit "Field Unit");
               md_timestamp := Some 1700000000000%Z;
               md_connectionType := Some (lit "webrtc") |} |}.

Definition sample_entry (i : nat) (peerId : string) : jsstring * ConnData :=
  (lit peerId,
   {| cd_connection := sample_conn i peerId; cd_type := lit "webrtc";
      cd_metadata := conn_metadata (sample_conn i peerId) |}).

Definition sample_device (deviceId : string) : BluetoothDevice :=
  {| dev_id := lit deviceId; dev_name := Some (lit "Beacon") |}.

Definition sample_bt_entry (c : nat) (deviceId : string) : jsstring * BtConnData :=
  (lit deviceId,
   {| bt_device := sample_device deviceId; bt_server := 1; bt_service := 2;
      bt_characteristic :=
        {| chr_id := c; chr_write := true; chr_writeWithoutResponse := false;
           chr_notify := true |};
      bt_type := lit "bluetooth" |}).

Definition sample_file : File :=
  {| file_name := lit "map.txt"; file_size := 2; file_type := lit "text/plain" |}.

(** Two direct connections (7 is the one that throws in [faulty_env]) and
    two constrained ones (9 is the one that rejects), a typed message and a
    selected file. *)
Definition sample_app : App :=
  with_file_input (Some sample_file)
    (with_message_input (lit "  need water ")
       (with_bluetoothConnections
          [sample_bt_entry 3 "dev-x"; sample_bt_entry 9 "dev-y"]
          (with_connections
             [sample_entry 1 "peer-a"; sample_entry 7 "peer-b"]
             (constructed (Some (lit "emergency-me")))))).

Definition zero_latency : Latency :=
  {| write_ms := fun _ => 0%Z; timer_late_ms := fun _ => 0%Z |}.

(** ** Receiving *)

(** [data.deviceName] and [data.connectionType] of a received object,
    [None] when the object has no such field. *)
Definition msg_deviceName (m : Message) : option jsstring :=
  match m with
  | Handshake deviceName _ _ _ => Some deviceName
  | BluetoothHandshake deviceName _ _ _ => Some deviceName
  | _ => None
  end.

Definition msg_connectionType (m : Message) : option jsstring :=
  match m with
  | Handshake _ _ _ connectionType => Some connectionType
  | _ => None
  end.

(** A possibly missing field interpolated into a template literal. *)
Definition interpolate (a : option jsstring) : jsstring :=
  match a with
  | Some s => s
  | None => lit "undefined"
  end.

(** The received objects are taken to be objects this program builds; the
    dispatch is on their [type] string, as in the source. *)
Definition handleFileMessage (data : Message) : M unit :=
  if str_eqb (msg_type data) (lit "file") then
    displayFileMessage data false
  else if str_eqb (msg_type data) (lit "file-notification") then
    match data with
    | FileNotification _ _ _ sender timestamp id message =>
        displayMessage (ChatMessage message sender timestamp id) false
    | _ => ret tt
    end
  else ret tt.

Definition handleIncomingMessage (data : Message) : M unit :=
  console "log" "Received message:" ;;
  if str_eqb (msg_type data) (lit "handshake")
     || str_eqb (msg_type data) (lit "bluetooth-handshake") then
    emit (EvConsole (lit "log")
            (lit "Handshake from " ++ interpolate (msg_deviceName data)
               ++ lit " via "
               ++ orDefault (msg_connectionType data) (lit "unknown")))
  else if str_eqb (msg_type data) (lit "message") then
    displayMessage data false
  else if str_eqb (msg_type data) (lit "emergency") then
    displayEmergencyAlert data false
  else if str_eqb (msg_type data) (lit "file") then
    handleFileMessage data
  else console "log" "Unknown message type:".

(** What [JSON.parse(decoder.decode(value))] makes of the value of a
    characteristic: an object this program builds, [null] (whose [type]
    cannot be read), some other JSON value (its [type] is none of the
    handled ones), or a syntax error. *)
Inductive Decoded :=
| DecodedMessage (m : Message)
| DecodedNull
| DecodedOther
| DecodeFailure.

Section Receiving.

Variable decode : list byte -> Decoded.

(** [handleBluetoothMessage(event)], [value] being [event.target.value]. *)
Definition handleBluetoothMessage (value : list byte) : M unit :=
  tryCatch
    (match decode value with
     | DecodeFailure => throw (lit "SyntaxError")
     | DecodedNull =>
         console "log" "Received Bluetooth message:" ;;
         throw (lit "TypeError")
     | DecodedOther =>
         console "log" "Received Bluetooth message:" ;;
         console "log" "Unknown Bluetooth message type:"
     | DecodedMessage data =>
         console "log" "Received Bluetooth message:" ;;
         if str_eqb (msg_type data) (lit "bluetooth-handshake") then
           emit (EvConsole (lit "log")
                   (lit "Bluetooth handshake from "
                      ++ interpolate (msg_deviceName data))) ;;
           showToast
             (lit "Bluetooth device " ++ interpolate (msg_deviceName data)
                ++ lit " connected") (lit "success")
         else if str_eqb (msg_type data) (lit "message") then
           displayMessage data false
         else if str_eqb (msg_type data) (lit "emergency") then
           displayEmergencyAlert data false
         else console "log" "Unknown Bluetooth message type:"
     end)
    (fun error => console "error" "Failed to parse Bluetooth message:").

(** The notifications of a characteristic, one [characteristicvaluechanged]
    event per frame, in order. *)
Fixpoint receive_frames (frames : list (list byte)) : M unit :=
  match frames with
  | [] => ret tt
  | frame :: rest => handleBluetoothMessage frame ;; receive_frames rest
  end.

End Receiving.

(** What one received frame adds to the message list. *)
Definition frame_bubbles (d : Decoded) : list Bubble :=
  match d with
  | DecodedMessage (ChatMessage content sender timestamp id) =>
      [MessageBubble (ChatMessage content sender timestamp id) false]
  | DecodedMessage (Emergency content sender timestamp location id) =>
      [AlertBubble (Emergency content sender timestamp location id) false]
  | _ => []
  end.

(** ** Local network scan *)

Definition baseIPs : list jsstring :=
  [lit "192.168.1."; lit "192.168.0."; lit "10.0.0."; lit "172.16.0."].

(** [generateLocalIPRange()]: for every base, the suffixes 1 to 254. *)
Definition generateLocalIPRange : list jsstring :=
  flat_map (fun base => map (fun i => base ++ numberToString i) (seq 1 254))
    baseIPs.

(** The addresses the loop of [scanLocalNetwork] visits:
    [localIPs.slice(0, 10)]. *)
Definition scan_targets : list jsstring := slice generateLocalIPRange 0 10.

(** ** Further vocabulary *)

(** The connections [conn.send] was called on, in order. *)
Fixpoint sent_to (tr : list Event) : list nat :=
  match tr with
  | [] => []
  | EvSend c _ :: rest => c :: sent_to rest
  | EvSendThrew c _ :: rest => c :: sent_to rest
  | _ :: rest => sent_to rest
  end.

(** A characteristic the generic fallback may use. *)
Definition writable (c : Characteristic) : bool :=
  chr_write c || chr_writeWithoutResponse c.

(** The entry the generic fallback files for [device]. *)
Definition generic_entry (server service : nat) (device : BluetoothDevice)
  (c : Characteristic) : BtConnData :=
  {| bt_device := device; bt_server := server; bt_service := service;
     bt_characteristic := c; bt_type := lit "bluetooth-generic" |}.

(** Environments that differ from another in one answer. *)
Definition with_env_conn_open (x : nat -> bool) (env : Env) : Env :=
  {| env_now := env_now env;
     env_messageId := env_messageId env;
     env_conn_open := x;
     env_send_throws := env_send_throws env;
     env_write_rejects := env_write_rejects env;
     env_geolocation := env_geolocation env;
     env_readAsDataURL := env_readAsDataURL env;
     env_gatt_connect := env_gatt_connect env;
     env_primary_service := env_primary_service env;
     env_message_characteristic := env_message_characteristic env;
     env_start_notifications := env_start_notifications env;
     env_primary_services := env_primary_services env;
     env_characteristics := env_characteristics env |}.

Definition with_env_write_rejects (x : nat -> nat -> bool) (env : Env) : Env :=
  {| env_now := env_now env;
     env_messageId := env_messageId env;
     env_conn_open := env_conn_open env;
     env_send_throws := env_send_throws env;
     env_write_rejects := x;
     env_geolocation := env_geolocation env;
     env_readAsDataURL := env_readAsDataURL env;
     env_gatt_connect := env_gatt_connect env;
     env_primary_service := env_primary_service env;
     env_message_characteristic := env_message_characteristic env;
     env_start_notifications := env_start_notifications env;
     env_primary_services := env_primary_services env;
     env_characteristics := env_characteristics env |}.

Definition with_env_readAsDataURL (x : File -> option jsstring) (env : Env) : Env :=
  {| env_now := env_now env;
     env_messageId := env_messageId env;
     env_conn_open := env_conn_open env;
     env_send_throws := env_send_throws env;
     env_write_rejects := env_write_rejects env;
     env_geolocation := env_geolocation env;
     env_readAsDataURL := x;
     env_gatt_connect := env_gatt_connect env;
     env_primary_service := env_primary_service env;
     env_message_characteristic := env_message_characteristic env;
     env_start_notifications := env_start_notifications env;
     env_primary_services := env_primary_services env;
     env_characteristics := env_characteristics env |}.

Definition with_env_gatt_connect (x : jsstring -> option nat) (env : Env) : Env :=
  {| env_now := env_now env;
     env_messageId := env_messageId env;
     env_conn_open := env_conn_open env;
     env_send_throws := env_send_throws env;
     env_write_rejects := env_write_rejects env;
     env_geolocation := env_geolocation env;
     env_readAsDataURL := env_readAsDataURL env;
     env_gatt_connect := x;
     env_primary_service := env_primary_service env;
     env_message_characteristic := env_message_characteristic env;
     env_start_notifications := env_start_notifications env;
     env_primary_services := env_primary_services env;
     env_characteristics := env_characteristics env |}.

Definition with_env_primary_service (x : nat -> option nat) (env : Env) : Env :=
  {| env_now := env_now env;
     env_messageId := env_messageId env;
     env_conn_open := env_conn_open env;
     env_send_throws := env_send_throws env;
     env_write_rejects := env_write_rejects env;
     env_geolocation := env_geolocation env;
     env_readAsDataURL := env_readAsDataURL env;
     env_gatt_connect := env_gatt_connect env;
     env_primary_service := x;
     env_message_characteristic := env_message_characteristic env;
     env_start_notifications := env_start_notifications env;
     env_primary_services := env_primary_services env;
     env_characteristics := env_characteristics env |}.

Definition with_env_message_characteristic (x : nat -> option Characteristic) (env : Env) : Env :=
  {| env_now := env_now env;
     env_messageId := env_messageId env;
     env_conn_open := env_conn_open env;
     env_send_throws := env_send_throws env;
     env_write_rejects := env_write_rejects env;
     env_geolocation := env_geolocation env;
     env_readAsDataURL := env_readAsDataURL env;
     env_gatt_connect := env_gatt_connect env;
     env_primary_service := env_primary_service env;
     env_message_characteristic := x;
     env_start_notifications := env_start_notifications env;
     env_primary_services := env_primary_services env;
     env_characteristics := env_characteristics env |}.

Definition with_env_start_notifications (x : nat -> bool) (env : Env) : Env :=
  {| env_now := env_now env;
     env_messageId := env_messageId env;
     env_conn_open := env_conn_open env;
     env_send_throws := env_send_throws env;
     env_write_rejects := env_write_rejects env;
     env_geolocation := env_geolocation env;
     env_readAsDataURL := env_readAsDataURL env;
     env_gatt_connect := env_gatt_connect env;
     env_primary_service := env_primary_service env;
     env_message_characteristic := env_message_characteristic env;
     env_start_notifications := x;
     env_primary_services := env_primary_services env;
     env_characteristics := env_characteristics env |}.

Definition with_env_primary_services (x : nat -> option (list nat)) (env : Env) : Env :=
  {| env_now := env_now env;
     env_messageId := env_messageId env;
     env_conn_open := env_conn_open env;
     env_send_throws := env_send_throws env;
     env_write_rejects := env_write_rejects env;
     env_geolocation := env_geolocation env;
     env_readAsDataURL := env_readAsDataURL env;
     env_gatt_connect := env_gatt_connect env;
     env_primary_service := env_primary_service env;
     env_message_characteristic := env_message_characteristic env;
     env_start_notifications := env_start_notifications env;
     env_primary_services := x;
     env_characteristics := env_characteristics env |}.

Definition with_env_characteristics (x : nat -> option (list Characteristic)) (env : Env) : Env :=
  {| env_now := env_now env;
     env_messageId := env_messageId env;
     env_conn_open := env_conn_open env;
     env_send_throws := env_send_throws env;
     env_write_rejects := env_write_rejects env;
     env_geolocation := env_geolocation env;
     env_readAsDataURL := env_readAsDataURL env;
     env_gatt_connect := env_gatt_connect env;
     env_primary_service := env_primary_service env;
     env_message_characteristic := env_message_characteristic env;
     env_start_notifications := env_start_notifications env;
     env_primary_services := env_primary_services env;
     env_characteristics := x |}.

(** A decoder for the concrete runs: it knows the encodings
    [type_only_json] gives a chat message and a file notification. *)
Definition sample_chat : Message :=
  ChatMessage (lit "need water") (lit "Field Unit") 1700000000000 (lit "id1").

Definition sample_notification : Message :=
  FileNotification (lit "map.txt") 2 (lit "text/plain") (lit "Field Unit")
    1700000000000 (lit "id1") (lit "File shared").

Definition bytes_eqb (a b : list byte) : bool :=
  if list_eq_dec Byte.byte_eq_dec a b then true else false.

Definition sample_decode (value : list byte) : Decoded :=
  if bytes_eqb value (type_only_json sample_chat)
  then DecodedMessage sample_chat
  else if bytes_eqb value (type_only_json sample_notification)
  then DecodedMessage sample_notification
  else DecodeFailure.

(** A write handed to the radio, accepted or not. *)
Definition is_write (e : Event) : bool :=
  match e with
  | EvWriteValue _ _ | EvWriteRejected _ _ => true
  | _ => false
  end.

(** A service whose characteristics can be listed and of which none is
    writable. *)
Definition barren (env : Env) (service : nat) : Prop :=
  exists characteristics,
    env_characteristics env service = Some characteristics
    /\ existsb writable characteristics = false.

(** The direct connection of an entry reports open. *)
Definition entry_open (env : Env) (e : jsstring * ConnData) : bool :=
  env_conn_open env (conn_id (cd_connection (snd e))).

(** The suffixes [generateLocalIPRange] appends to every base. *)
Definition suffixes : list nat := seq 1 254.

(* ===================================================================== *)
(** * Part II. Properties                                                 *)
(* ===================================================================== *)

Local Open Scope js_scope.

(** ** Arithmetic of the chunk count *)

Lemma ceil_div_20_zero : ceil_div 0 20 = 0.
Proof. reflexivity. Qed.

Lemma ceil_div_20_step (a : nat) :
  0 < a -> ceil_div a 20 = S (ceil_div (a - 20) 20).
Proof.
  intros Ha. unfold ceil_div.
  destruct (le_lt_dec 20 a) as [Hge | Hlt].
  - replace (a + 20 - 1) with ((a - 20 + 20 - 1) + 1 * 20) by lia.
    rewrite Nat.div_add by lia. lia.
  - replace (a - 20) with 0 by lia. simpl (0 + 20 - 1).
    rewrite (Nat.div_small 19 20) by lia.
    assert (H1 : (a + 20 - 1) / 20 < 2) by (apply Nat.Div0.div_lt_upper_bound; lia).
    assert (H2 : 1 <= (a + 20 - 1) / 20) by (apply Nat.div_le_lower_bound; lia).
    lia.
Qed.

Lemma ceil_div_20_le (a : nat) : ceil_div a 20 <= a.
Proof.
  induction a as [a IH] using lt_wf_ind.
  destruct a as [|a']; [reflexivity|].
  rewrite ceil_div_20_step by lia.
  destruct (le_lt_dec 20 (S a')) as [Hge | Hlt].
  - specialize (IH (S a' - 20)). lia.
  - replace (S a' - 20) with 0 by lia. rewrite ceil_div_20_zero. lia.
Qed.

Lemma ceil_div_20_small (a : nat) : 0 < a -> a <= 20 -> ceil_div a 20 = 1.
Proof.
  intros H0 H20. rewrite ceil_div_20_step by lia.
  replace (a - 20) with 0 by lia. reflexivity.
Qed.

(** ** Segmentation ([writeBluetoothMessage]) *)

Lemma ceil_div_20_pos_inv (a : nat) : ceil_div a 20 = 0 -> a = 0.
Proof.
  destruct a as [|a']; [reflexivity|].
  rewrite ceil_div_20_step by lia. discriminate.
Qed.

Lemma slice_chunk {A : Type} (l : list A) (i : nat) :
  slice l i (i + maxChunkSize) = firstn maxChunkSize (skipn i l).
Proof. unfold slice. f_equal. lia. Qed.

Lemma skipn_add {A : Type} (l : list A) (i j : nat) :
  skipn (i + j) l = skipn j (skipn i l).
Proof.
  revert l. induction i as [|i IH]; intros l; [reflexivity|].
  destruct l as [|x l']; simpl.
  - now rewrite skipn_nil.
  - apply IH.
Qed.

Lemma frames_loop_trace_length n chr msg i :
  List.length (frames_written (loop_trace n chr msg i)) = n.
Proof.
  revert i. induction n as [|n IH]; intros i; simpl; [reflexivity|].
  now rewrite IH.
Qed.

Lemma frames_loop_trace_bounded n chr msg i :
  Forall (fun f => List.length f <= maxChunkSize)
    (frames_written (loop_trace n chr msg i)).
Proof.
  revert i. induction n as [|n IH]; intros i; simpl; constructor.
  - rewrite slice_chunk. apply firstn_le_length.
  - apply IH.
Qed.

Lemma frames_loop_trace_concat n chr msg : forall i,
  ceil_div (List.length msg - i) 20 = n ->
  List.concat (frames_written (loop_trace n chr msg i)) = skipn i msg.
Proof.
  induction n as [|n IH]; intros i Hn; simpl.
  - apply ceil_div_20_pos_inv in Hn.
    symmetry. apply skipn_all2. lia.
  - assert (Hlt : 0 < List.length msg - i).
    { destruct (List.length msg - i); [discriminate Hn | lia]. }
    rewrite ceil_div_20_step in Hn by exact Hlt.
    apply eq_add_S in Hn.
    rewrite IH.
    + rewrite slice_chunk, skipn_add. apply firstn_skipn.
    + rewrite <- Hn. f_equal. unfold maxChunkSize. lia.
Qed.

Lemma write_times_loop_trace lat n chr msg :
  latency_ok lat ->
  forall i clock nw nt,
    spaced 50 (write_times lat clock nw nt (loop_trace n chr msg i)).
Proof.
  intros [Hw Ht]. induction n as [|n IH]; intros i clock nw nt.
  - exact I.
  - destruct n as [|n'].
    + simpl. exact I.
    + specialize (IH (i + maxChunkSize)
        (clock + write_ms lat nw + 50 + timer_late_ms lat nt)%Z (S nw) (S nt)).
      change (loop_trace (S (S n')) chr msg i) with
        (EvWriteValue (chr_id chr) (slice msg i (i + maxChunkSize))
           :: EvSleep 50 :: loop_trace (S n') chr msg (i + maxChunkSize)).
      cbn [write_times].
      change (loop_trace (S n') chr msg (i + maxChunkSize)) with
        (EvWriteValue (chr_id chr)
           (slice msg (i + maxChunkSize) (i + maxChunkSize + maxChunkSize))
           :: EvSleep 50
           :: loop_trace n' chr msg (i + maxChunkSize + maxChunkSize)) in *.
      cbn [write_times] in *. cbn [spaced] in *.
      split; [|exact IH].
      specialize (Hw nw). specialize (Ht nt). lia.
Qed.

Section Segmentation.

Variable env : Env.
Variable utf8_json : Message -> list byte.

Lemma writeValue_accepted chr offset frame s :
  env_write_rejects env (chr_id chr) offset = false ->
  writeValue env chr offset frame s = (Normal tt, s, [EvWriteValue (chr_id chr) frame]).
Proof. intros H. unfold writeValue. now rewrite H. Qed.

Lemma chunk_loop_accepted chr msg :
  accepts_all env chr ->
  forall fuel i s,
    ceil_div (List.length msg - i) 20 <= fuel ->
    chunk_loop env fuel chr msg i s
    = (Normal tt, s, loop_trace (ceil_div (List.length msg - i) 20) chr msg i).
Proof.
  intros Hacc. induction fuel as [|fuel IH]; intros i s Hfuel.
  - replace (ceil_div (List.length msg - i) 20) with 0 by lia. reflexivity.
  - cbn [chunk_loop]. destruct (i <? List.length msg) eqn:Hi.
    + apply Nat.ltb_lt in Hi.
      rewrite ceil_div_20_step in * by lia.
      cbn [loop_trace]. unfold bind at 1.
      rewrite (writeValue_accepted _ _ _ _ (Hacc i)).
      unfold bind at 1. unfold sleep, emit.
      replace (List.length msg - i - 20)
        with (List.length msg - (i + maxChunkSize)) in * by (unfold maxChunkSize; lia).
      rewrite IH by lia. reflexivity.
    + apply Nat.ltb_ge in Hi.
      replace (List.length msg - i) with 0 by lia. reflexivity.
Qed.

(** With an accepting characteristic the method returns, leaves the state
    alone and leaves one of two traces. *)
Lemma writeBluetoothMessage_accepted chr data s :
  accepts_all env chr ->
  writeBluetoothMessage env utf8_json chr data s
  = (Normal tt, s,
     if List.length (encodePayload utf8_json data) <=? maxChunkSize
     then [EvWriteValue (chr_id chr) (encodePayload utf8_json data)]
     else loop_trace (ceil_div (List.length (encodePayload utf8_json data)) 20)
            chr (encodePayload utf8_json data) 0).
Proof.
  intros Hacc. unfold writeBluetoothMessage, tryCatch.
  destruct (List.length (encodePayload utf8_json data) <=? maxChunkSize) eqn:Hlen.
  - now rewrite (writeValue_accepted _ _ _ _ (Hacc 0)).
  - rewrite (chunk_loop_accepted chr _ Hacc).
    + now rewrite Nat.sub_0_r.
    + rewrite Nat.sub_0_r. apply ceil_div_20_le.
Qed.

End Segmentation.

(** The trace of an accepted message is a correct segmentation. *)
Lemma accepted_trace_segmented (chr : Characteristic) (payload : list byte) :
  segmented payload
    (if List.length payload <=? maxChunkSize
     then [EvWriteValue (chr_id chr) payload]
     else loop_trace (ceil_div (List.length payload) 20) chr payload 0).
Proof.
  unfold segmented.
  destruct (List.length payload <=? maxChunkSize) eqn:Hlen.
  - apply Nat.leb_le in Hlen. unfold maxChunkSize in Hlen.
    cbn [frames_written List.length List.concat].
    repeat split.
    + destruct (List.length payload) as [|l'] eqn:HL; [reflexivity|].
      rewrite ceil_div_20_small by lia. reflexivity.
    + intros H1. rewrite ceil_div_20_small by lia. reflexivity.
    + constructor; [exact Hlen | constructor].
    + apply app_nil_r.
  - apply Nat.leb_gt in Hlen. unfold maxChunkSize in Hlen.
    assert (Hpos : 1 <= ceil_div (List.length payload) 20).
    { rewrite ceil_div_20_step by lia. lia. }
    repeat split.
    + rewrite frames_loop_trace_length. lia.
    + intros _. apply frames_loop_trace_length.
    + apply frames_loop_trace_bounded.
    + rewrite frames_loop_trace_concat; [reflexivity|].
      now rewrite Nat.sub_0_r.
    + intros H20. lia.
    + intros lat clock Hlat. now apply write_times_loop_trace.
Qed.

(** The one call outside the claim: [writeBluetoothMessage] called with
    [undefined] encodes to zero bytes; [0 <= maxChunkSize] holds, so the
    whole (empty) array goes out in one [writeValue]. No caller does this:
    the handshake, chat, emergency and file-notification callers all pass an
    object, whose JSON text has two bytes or more. *)
Example undefined_payload_is_one_empty_frame :
  frames_written
    (effects
       (writeBluetoothMessage calm_env type_only_json sample_characteristic None)
       (constructed None))
  = [[]].
Proof. vm_compute. reflexivity. Qed.

(** C1. For every payload whose encoding has [L] bytes, written to the
    characteristic, [writeBluetoothMessage] returns and sends
    [ceil (L / 20)] frames (for every [L >= 1], which is every message the
    program writes; the count is written [max 1 (ceil (L / 20))] to cover
    the empty array too); each frame has at most 20 bytes, the frames are
    the payload in its original order, consecutive frames are at least
    50 ms apart, and a payload of at most 20 bytes is exactly one frame,
    never segmented. The writes are those of a characteristic that takes
    them; a rejected write ends the message where it is rejected. *)
Theorem writeBluetoothMessage_segments
  (env : Env) (utf8_json : Message -> list byte) (chr : Characteristic)
  (data : option Message) (s : App) :
  accepts_all env chr ->
  outcome (writeBluetoothMessage env utf8_json chr data) s = Normal tt
  /\ segmented (encodePayload utf8_json data)
       (effects (writeBluetoothMessage env utf8_json chr data) s).
Proof.
  intros Hacc. unfold outcome, effects.
  rewrite (writeBluetoothMessage_accepted env utf8_json chr data s Hacc).
  cbn [fst snd]. split; [reflexivity|].
  apply accepted_trace_segmented.
Qed.

Lemma writeBluetoothMessage_segments_witness :
  accepts_all calm_env sample_characteristic
  /\ outcome
       (writeBluetoothMessage calm_env type_only_json sample_characteristic
          (Some (BluetoothHandshake (lit "Emergency Device") 0 (lit "dev")
                   [lit "messaging"]))) (constructed None) = Normal tt
  /\ segmented
       (encodePayload type_only_json
          (Some (BluetoothHandshake (lit "Emergency Device") 0 (lit "dev")
                   [lit "messaging"])))
       (effects
          (writeBluetoothMessage calm_env type_only_json sample_characteristic
             (Some (BluetoothHandshake (lit "Emergency Device") 0 (lit "dev")
                      [lit "messaging"]))) (constructed None)).
Proof.
  split.
  - intros offset. reflexivity.
  - apply (writeBluetoothMessage_segments calm_env type_only_json
             sample_characteristic
             (Some (BluetoothHandshake (lit "Emergency Device") 0 (lit "dev")
                      [lit "messaging"])) (constructed None)).
    intros offset. reflexivity.
Defined.

(** A concrete run: 30 bytes go out as a frame of 20 and a frame of
    10, a sleep of 50 ms after each. *)
Example segmentation_run :
  map (@List.length byte)
    (frames_written
       (effects
          (writeBluetoothMessage calm_env type_only_json sample_characteristic
             (Some (BluetoothHandshake (lit "Emergency Device") 0 (lit "dev")
                      [lit "messaging"]))) (constructed None)))
  = [20; 10]
  /\ write_times zero_latency 0 0 0
       (effects
          (writeBluetoothMessage calm_env type_only_json sample_characteristic
             (Some (BluetoothHandshake (lit "Emergency Device") 0 (lit "dev")
                      [lit "messaging"]))) (constructed None))
     = [0; 50]%Z.
Proof. split; vm_compute; reflexivity. Qed.

(** ** Running computations *)

Lemma bind_normal {A B : Type} (m : M A) (f : A -> M B) s a s1 t1 r s2 t2 :
  m s = (Normal a, s1, t1) ->
  f a s1 = (r, s2, t2) ->
  bind m f s = (r, s2, t1 ++ t2).
Proof. intros Hm Hf. unfold bind. now rewrite Hm, Hf. Qed.

Lemma bind_getApp {B : Type} (f : App -> M B) s :
  bind getApp f s = f s s.
Proof. unfold bind, getApp. now destruct (f s s) as [[r s2] t2]. Qed.

Lemma bind_modify {B : Type} (g : App -> App) (f : unit -> M B) s :
  bind (modify g) f s = f tt (g s).
Proof. unfold bind, modify. now destruct (f tt (g s)) as [[r s2] t2]. Qed.

Lemma bind_emit {B : Type} (e : Event) (f : unit -> M B) s :
  bind (emit e) f s = after [e] (f tt s).
Proof. reflexivity. Qed.

Lemma bind_ret {A B : Type} (a : A) (f : A -> M B) s :
  bind (ret a) f s = f a s.
Proof. unfold bind, ret. now destruct (f a s) as [[r s2] t2]. Qed.

Lemma bind_bind {A B C : Type} (m : M A) (f : A -> M B) (g : B -> M C) s :
  bind (bind m f) g s = bind m (fun a => bind (f a) g) s.
Proof.
  unfold bind. destruct (m s) as [[[a | e |] s1] t1]; try reflexivity.
  destruct (f a s1) as [[[b | e |] s2] t2]; try reflexivity.
  destruct (g b s2) as [[r s3] t3]. now rewrite app_assoc.
Qed.

Lemma bind_console {B : Type} (level text : string) (f : unit -> M B) s :
  bind (console level text) f s
  = after [EvConsole (lit level) (lit text)] (f tt s).
Proof. reflexivity. Qed.

Lemma tryCatch_normal {A : Type} (body : M A) (handler : jsstring -> M A)
  s a s1 t1 :
  body s = (Normal a, s1, t1) ->
  tryCatch body handler s = (Normal a, s1, t1).
Proof. intros H. unfold tryCatch. now rewrite H. Qed.

Lemma after_after {A : Type} (t1 t2 : list Event)
  (x : Completion A * App * list Event) :
  after t1 (after t2 x) = after (t1 ++ t2) x.
Proof. destruct x as [[r s] t]. cbn [after]. now rewrite app_assoc. Qed.

Lemma stateless_ret {A : Type} (a : A) : stateless (ret a).
Proof. exists (Normal a), []. split; [discriminate | reflexivity]. Qed.

Lemma stateless_emit (e : Event) : stateless (emit e).
Proof. exists (Normal tt), [e]. split; [discriminate | reflexivity]. Qed.

Lemma stateless_throw {A : Type} (reason : jsstring) : stateless (@throw A reason).
Proof. exists (Throw reason), []. split; [discriminate | reflexivity]. Qed.

Lemma stateless_bind {A B : Type} (m : M A) (f : A -> M B) :
  stateless m -> (forall a, stateless (f a)) -> stateless (bind m f).
Proof.
  intros (r & t & Hr & Hm) Hf.
  destruct r as [a | e |]; [| | congruence].
  - destruct (Hf a) as (r' & t' & Hr' & Hfa).
    exists r', (t ++ t'). split; [exact Hr'|].
    intros s. unfold bind. now rewrite Hm, Hfa.
  - exists (Throw e), t. split; [discriminate|].
    intros s. unfold bind. now rewrite Hm.
Qed.

Lemma stateless_tryCatch {A : Type} (body : M A) (handler : jsstring -> M A) :
  stateless body -> (forall e, stateless (handler e)) ->
  stateless (tryCatch body handler).
Proof.
  intros (r & t & Hr & Hm) Hh.
  destruct r as [a | e |]; [| | congruence].
  - exists (Normal a), t. split; [discriminate|].
    intros s. unfold tryCatch. now rewrite Hm.
  - destruct (Hh e) as (r' & t' & Hr' & Hhe).
    exists r', (t ++ t'). split; [exact Hr'|].
    intros s. unfold tryCatch. now rewrite Hm, Hhe.
Qed.

Lemma stateless_console level text : stateless (console level text).
Proof. apply stateless_emit. Qed.

(** A stateless body inside [try]/[catch] with a logging handler returns,
    and its trace is the one it has in any state. *)
Lemma guarded_attempt (body : M unit) (label : string) (s s0 : App) :
  stateless body ->
  tryCatch body (fun _ => console "error" label) s
  = (Normal tt, s, effects (tryCatch body (fun _ => console "error" label)) s0).
Proof.
  intros (r & t & Hr & Hm). unfold effects, tryCatch.
  rewrite (Hm s), (Hm s0).
  destruct r as [[] | e |]; [reflexivity | reflexivity | congruence].
Qed.

(** Iterating a body that returns and keeps the state visits every entry;
    the trace is the concatenation of the traces of the visits. *)
Lemma forEach_all {V : Type} (entries : JsMap.t V)
  (f : V -> jsstring -> M unit) (tr : V -> list Event) (s : App) :
  (forall v k s', f v k s' = (Normal tt, s', tr v)) ->
  forEach entries f s = (Normal tt, s, flat_map (fun e => tr (snd e)) entries).
Proof.
  intros Hf. induction entries as [|[k v] rest IH]; [reflexivity|].
  cbn [forEach flat_map snd].
  now apply bind_normal with (a := tt) (s1 := s).
Qed.

Section Fanout.

Variable env : Env.
Variable utf8_json : Message -> list byte.

Lemma stateless_connSend conn m : stateless (connSend env conn m).
Proof.
  unfold connSend. destruct (env_send_throws env (conn_id conn)).
  - apply stateless_bind; [apply stateless_emit | intros; apply stateless_throw].
  - apply stateless_emit.
Qed.

Lemma stateless_writeValue chr offset frame :
  stateless (writeValue env chr offset frame).
Proof.
  unfold writeValue. destruct (env_write_rejects env (chr_id chr) offset).
  - apply stateless_bind; [apply stateless_emit | intros; apply stateless_throw].
  - apply stateless_emit.
Qed.

Lemma stateless_chunk_loop chr msg fuel :
  forall i, stateless (chunk_loop env fuel chr msg i).
Proof.
  induction fuel as [|fuel IH]; intros i; cbn [chunk_loop].
  - apply stateless_ret.
  - destruct (i <? List.length msg); [|apply stateless_ret].
    apply stateless_bind; [apply stateless_writeValue | intros _].
    apply stateless_bind; [apply stateless_emit | intros _]. apply IH.
Qed.

Lemma stateless_writeBluetoothMessage chr data :
  stateless (writeBluetoothMessage env utf8_json chr data).
Proof.
  unfold writeBluetoothMessage. apply stateless_tryCatch.
  - destruct (List.length (encodePayload utf8_json data) <=? maxChunkSize).
    + apply stateless_writeValue.
    + apply stateless_chunk_loop.
  - intros e. apply stateless_bind; [apply stateless_console | intros _].
    apply stateless_throw.
Qed.

Lemma direct_attempt_run label m connData s :
  tryCatch (connSend env (cd_connection connData) m)
    (fun _ => console "error" label) s
  = (Normal tt, s, direct_attempt env label m connData).
Proof.
  unfold tryCatch, connSend, direct_attempt.
  destruct (env_send_throws env (conn_id (cd_connection connData))); reflexivity.
Qed.

Lemma bluetooth_attempt_run label m connData s :
  tryCatch
    (writeBluetoothMessage env utf8_json (bt_characteristic connData) (Some m))
    (fun _ => console "error" label) s
  = (Normal tt, s, bluetooth_attempt env utf8_json label m connData).
Proof.
  unfold bluetooth_attempt.
  apply guarded_attempt, stateless_writeBluetoothMessage.
Qed.

(** The loop over the direct registry, whatever fails on the way, then the
    rest of the method [k]. *)
Lemma direct_fanout_run {B : Type} (m : Message) (label : string)
  (k : M B) (s : App) :
  (s1 <- getApp ;;
   forEach (connections s1) (fun connData _ =>
     tryCatch (connSend env (cd_connection connData) m)
       (fun _ => console "error" label)) ;;
   k) s
  = after
      (flat_map (fun e => direct_attempt env label m (snd e)) (connections s))
      (k s).
Proof.
  rewrite bind_getApp. unfold bind at 1.
  rewrite (forEach_all (connections s) _ (direct_attempt env label m) s)
    by (intros v k' s'; apply direct_attempt_run).
  reflexivity.
Qed.

(** The loop over the constrained registry. *)
Lemma bluetooth_fanout_run {B : Type} (m : Message) (label : string)
  (k : M B) (s : App) :
  (s1 <- getApp ;;
   forEach (bluetoothConnections s1) (fun connData _ =>
     tryCatch
       (writeBluetoothMessage env utf8_json (bt_characteristic connData) (Some m))
       (fun _ => console "error" label)) ;;
   k) s
  = after
      (flat_map (fun e => bluetooth_attempt env utf8_json label m (snd e))
         (bluetoothConnections s))
      (k s).
Proof.
  rewrite bind_getApp. unfold bind at 1.
  rewrite (forEach_all (bluetoothConnections s) _
             (bluetooth_attempt env utf8_json label m) s)
    by (intros v k' s'; apply bluetooth_attempt_run).
  reflexivity.
Qed.

Lemma bind_dateNow {B : Type} (f : Z -> M B) s :
  bind (dateNow env) f s
  = f (env_now env (clock_reads s)) (with_clock_reads (S (clock_reads s)) s).
Proof.
  unfold bind, dateNow.
  now destruct (f _ (with_clock_reads (S (clock_reads s)) s)) as [[r s2] t2].
Qed.

Lemma bind_generateMessageId {B : Type} (f : jsstring -> M B) s :
  bind (generateMessageId env) f s
  = f (env_messageId env (clock_reads s))
      (with_clock_reads (S (clock_reads s)) s).
Proof.
  unfold bind, generateMessageId.
  now destruct (f _ (with_clock_reads (S (clock_reads s)) s)) as [[r s2] t2].
Qed.

End Fanout.

(** ** Fan-out: [sendMessage], [sendEmergencyAlert], [sendFile] *)

Lemma flat_map_contains {A : Type} (f : A -> list Event) (l : list A) (x : A) :
  In x l -> contains (flat_map f l) (f x).
Proof.
  intros Hin. apply in_split in Hin. destruct Hin as (l1 & l2 & ->).
  exists (flat_map f l1), (flat_map f l2).
  rewrite flat_map_app. reflexivity.
Qed.

Lemma contains_app_l tr1 tr2 part :
  contains tr1 part -> contains (tr1 ++ tr2) part.
Proof.
  intros (b & a & ->). exists b, (a ++ tr2). now rewrite <- !app_assoc.
Qed.

Lemma contains_app_r tr1 tr2 part :
  contains tr2 part -> contains (tr1 ++ tr2) part.
Proof.
  intros (b & a & ->). exists (tr1 ++ b), a. now rewrite <- !app_assoc.
Qed.

Lemma contains_In tr part e : contains tr part -> In e part -> In e tr.
Proof.
  intros (b & a & ->) Hin. apply in_or_app. right. apply in_or_app. now left.
Qed.

Lemma direct_attempt_head env label m connData :
  In (if env_send_throws env (conn_id (cd_connection connData))
      then EvSendThrew (conn_id (cd_connection connData)) m
      else EvSend (conn_id (cd_connection connData)) m)
     (direct_attempt env label m connData).
Proof.
  unfold direct_attempt.
  destruct (env_send_throws env (conn_id (cd_connection connData))); now left.
Qed.

(** On an accepting characteristic the attempt is the whole message,
    correctly segmented. *)
Lemma bluetooth_attempt_accepted env utf8_json label m connData :
  accepts_all env (bt_characteristic connData) ->
  segmented (utf8_json m) (bluetooth_attempt env utf8_json label m connData).
Proof.
  intros Hacc. unfold bluetooth_attempt, effects, tryCatch.
  rewrite (writeBluetoothMessage_accepted env utf8_json _ (Some m) _ Hacc).
  cbn [fst snd encodePayload]. apply accepted_trace_segmented.
Qed.

Section Senders.

Variable env : Env.
Variable utf8_json : Message -> list byte.

Lemma sendMessage_run s :
  falsy (trim (message_input s)) = false ->
  (getTotalConnections s =? 0) = false ->
  sendMessage env utf8_json s
  = (Normal tt,
     with_message_input []
       (with_messages (messages s ++ [MessageBubble (chat_message env s) true])
          (with_clock_reads (S (S (clock_reads s))) s)),
     flat_map
       (fun e => direct_attempt env "Failed to send WebRTC message:"
                   (chat_message env s) (snd e)) (connections s)
     ++ flat_map
          (fun e => bluetooth_attempt env utf8_json
                      "Failed to send Bluetooth message:"
                      (chat_message env s) (snd e)) (bluetoothConnections s)
     ++ [EvToast
           (lit "Message sent to " ++ numberToString (getTotalConnections s)
              ++ lit " device(s)") (lit "success")]).
Proof.
  intros Hmsg Htotal. unfold sendMessage.
  rewrite bind_getApp. cbv zeta. rewrite Hmsg, Htotal.
  rewrite bind_dateNow, bind_generateMessageId.
  rewrite direct_fanout_run, bluetooth_fanout_run, after_after.
  unfold after, chat_message. cbn. rewrite <- app_assoc. reflexivity.
Qed.

Lemma sendMessage_blank s :
  falsy (trim (message_input s)) = true ->
  sendMessage env utf8_json s = (Normal tt, s, []).
Proof.
  intros Hmsg. unfold sendMessage. rewrite bind_getApp. cbv zeta.
  now rewrite Hmsg.
Qed.

Lemma sendMessage_unconnected s :
  falsy (trim (message_input s)) = false ->
  getTotalConnections s = 0 ->
  sendMessage env utf8_json s
  = (Normal tt, s,
     [EvToast (lit "No devices connected to send message") (lit "warning")]).
Proof.
  intros Hmsg Htotal. unfold sendMessage. rewrite bind_getApp. cbv zeta.
  now rewrite Hmsg, Htotal.
Qed.

Lemma sendEmergencyAlert_unconnected s :
  getTotalConnections s = 0 ->
  sendEmergencyAlert env utf8_json s
  = (Normal tt, s,
     [EvToast (lit "No devices connected for emergency alert") (lit "warning")]).
Proof.
  intros Htotal. unfold sendEmergencyAlert. rewrite bind_getApp. cbv zeta.
  now rewrite Htotal.
Qed.

Lemma sendEmergencyAlert_run s :
  (getTotalConnections s =? 0) = false ->
  (env_geolocation env = GeoUnsupported
   \/ exists code, env_geolocation env = GeoError code) ->
  sendEmergencyAlert env utf8_json s
  = (Normal tt,
     with_messages
       (messages s ++ [AlertBubble (emergency_message env s null_location) true])
       (with_clock_reads (S (S (clock_reads s))) s),
     location_log (env_geolocation env)
     ++ flat_map
          (fun e => direct_attempt env "Failed to send emergency via WebRTC:"
                      (emergency_message env s null_location) (snd e))
          (connections s)
     ++ flat_map
          (fun e => bluetooth_attempt env utf8_json
                      "Failed to send emergency via Bluetooth:"
                      (emergency_message env s null_location) (snd e))
          (bluetoothConnections s)
     ++ [EvAlertSound;
         EvToast
           (lit "Emergency alert sent to "
              ++ numberToString (getTotalConnections s) ++ lit " device(s)")
           (lit "warning")]).
Proof.
  intros Htotal Hgeo. unfold sendEmergencyAlert.
  rewrite bind_getApp. cbv zeta. rewrite Htotal.
  rewrite bind_dateNow. unfold getCurrentLocation.
  destruct Hgeo as [Hgeo | [code Hgeo]]; rewrite Hgeo; cbn [location_log].
  - rewrite bind_ret, bind_generateMessageId.
    rewrite direct_fanout_run, bluetooth_fanout_run, after_after.
    unfold after, emergency_message. cbn. rewrite <- app_assoc. reflexivity.
  - rewrite bind_bind, bind_console, bind_ret.
    rewrite bind_generateMessageId.
    rewrite direct_fanout_run, bluetooth_fanout_run, !after_after.
    unfold after, emergency_message. cbn. rewrite <- app_assoc. reflexivity.
Qed.

Lemma sendFile_run s file dataURL :
  file_input s = Some file ->
  (getTotalConnections s =? 0) = false ->
  env_readAsDataURL env file = Some dataURL ->
  sendFile env utf8_json s
  = (Normal tt,
     with_file_input None
       (with_messages
          (messages s ++ [FileBubble (file_message env s file dataURL) true])
          (with_clock_reads (S (S (S (clock_reads s)))) s)),
     flat_map
       (fun e => direct_attempt env "Failed to send file via WebRTC:"
                   (file_message env s file dataURL) (snd e)) (connections s)
     ++ flat_map
          (fun e => bluetooth_attempt env utf8_json
                      "Failed to send file notification via Bluetooth:"
                      (file_notification env s file) (snd e))
          (bluetoothConnections s)
     ++ [EvToast
           (lit "File sent to " ++ numberToString (getTotalConnections s)
              ++ lit " device(s)") (lit "success");
         EvHideFileModal]).
Proof.
  intros Hfile Htotal Hread. unfold sendFile.
  rewrite bind_getApp. rewrite Hfile. cbv zeta. rewrite Htotal.
  apply tryCatch_normal. unfold fileToBase64. rewrite Hread.
  rewrite bind_ret, bind_dateNow, bind_generateMessageId. cbv beta zeta.
  rewrite direct_fanout_run, bind_dateNow, bluetooth_fanout_run, after_after.
  unfold after, file_message, file_notification. cbn.
  rewrite <- app_assoc. reflexivity.
Qed.

End Senders.

(** Every constrained attempt starts with a write of the first 20 bytes to
    the connection's own characteristic, accepted or rejected. *)
Lemma bluetooth_attempt_head env utf8_json label m connData :
  exists rest,
    bluetooth_attempt env utf8_json label m connData
    = (if env_write_rejects env (chr_id (bt_characteristic connData)) 0
       then EvWriteRejected (chr_id (bt_characteristic connData))
              (firstn 20 (utf8_json m))
       else EvWriteValue (chr_id (bt_characteristic connData))
              (firstn 20 (utf8_json m))) :: rest.
Proof.
  unfold bluetooth_attempt, effects, writeBluetoothMessage.
  cbn [encodePayload].
  set (payload := utf8_json m). set (chr := bt_characteristic connData).
  destruct (List.length payload <=? maxChunkSize) eqn:Hlen.
  - apply Nat.leb_le in Hlen. unfold maxChunkSize in Hlen.
    rewrite (firstn_all2 payload) by exact Hlen.
    unfold tryCatch, writeValue.
    destruct (env_write_rejects env (chr_id chr) 0); eexists; reflexivity.
  - apply Nat.leb_gt in Hlen. unfold maxChunkSize in Hlen.
    destruct (List.length payload) as [|l'] eqn:HL; [lia|].
    cbn [chunk_loop]. rewrite HL. cbn [Nat.ltb Nat.leb].
    change (slice payload 0 (0 + maxChunkSize)) with (firstn 20 payload).
    generalize (firstn 20 payload). intros frame.
    change (0 + maxChunkSize) with 20.
    unfold tryCatch, bind, writeValue, sleep, emit, throw.
    destruct (env_write_rejects env (chr_id chr) 0).
    + eexists. reflexivity.
    + destruct (chunk_loop env l' chr payload 20 (constructed None))
        as [[[[] | e |] s'] t]; eexists; reflexivity.
Qed.

(** Whatever a fan-out trace is wrapped in, every registered connection has
    its attempt in it: a direct one its [send], returned or thrown, a
    constrained one its writes, which carry the whole message when the
    characteristic accepts them. *)
Lemma fanout_covers env utf8_json l1 l2 m1 m2
  (cs : JsMap.t ConnData) (bs : JsMap.t BtConnData) pre post tr :
  tr = pre
       ++ (flat_map (fun e => direct_attempt env l1 m1 (snd e)) cs
           ++ flat_map (fun e => bluetooth_attempt env utf8_json l2 m2 (snd e)) bs
           ++ post) ->
  (forall k d, In (k, d) cs ->
     In (if env_send_throws env (conn_id (cd_connection d))
         then EvSendThrew (conn_id (cd_connection d)) m1
         else EvSend (conn_id (cd_connection d)) m1) tr)
  /\ (forall k d, In (k, d) bs ->
       contains tr (bluetooth_attempt env utf8_json l2 m2 d)
       /\ (accepts_all env (bt_characteristic d) ->
           segmented (utf8_json m2) (bluetooth_attempt env utf8_json l2 m2 d))).
Proof.
  intros ->. split.
  - intros k d Hin.
    apply contains_In with (part := direct_attempt env l1 m1 d);
      [|apply direct_attempt_head].
    apply contains_app_r, contains_app_l.
    apply (flat_map_contains (fun e => direct_attempt env l1 m1 (snd e)) cs (k, d) Hin).
  - intros k d Hin. split; [|apply bluetooth_attempt_accepted].
    apply contains_app_r, contains_app_r, contains_app_l.
    apply (flat_map_contains
             (fun e => bluetooth_attempt env utf8_json l2 m2 (snd e)) bs (k, d) Hin).
Qed.

(** *** What travels on which transport *)

Lemma whole_payload_is_chunk (payload : list byte) :
  List.length payload <= maxChunkSize -> chunk_of payload payload.
Proof.
  intros Hlen. exists 0. rewrite slice_chunk. cbn [skipn].
  symmetry. now apply firstn_all2.
Qed.

Lemma radio_chunk_loop env chr payload fuel : forall i s,
  Forall (radio_event chr payload) (snd (chunk_loop env fuel chr payload i s)).
Proof.
  induction fuel as [|fuel IH]; intros i s; cbn [chunk_loop].
  - constructor.
  - destruct (i <? List.length payload); [|constructor].
    unfold bind at 1, writeValue.
    destruct (env_write_rejects env (chr_id chr) i).
    + cbn. constructor; [|constructor]. split; [reflexivity | now exists i].
    + unfold emit at 1. unfold bind at 1, sleep, emit.
      specialize (IH (i + maxChunkSize) s).
      destruct (chunk_loop env fuel chr payload (i + maxChunkSize) s)
        as [[r s'] t].
      cbn in *. constructor; [split; [reflexivity | now exists i]|].
      constructor; [exact I | exact IH].
Qed.

Lemma radio_writeBluetoothMessage env utf8_json chr m s :
  Forall (radio_event chr (utf8_json m))
    (snd (writeBluetoothMessage env utf8_json chr (Some m) s)).
Proof.
  unfold writeBluetoothMessage. cbn [encodePayload].
  set (payload := utf8_json m).
  assert (Hbody : forall body : M unit,
            Forall (radio_event chr payload) (snd (body s)) ->
            Forall (radio_event chr payload)
              (snd (tryCatch body
                      (fun error =>
                         console "error" "Failed to write Bluetooth message:" ;;
                         throw error) s))).
  { intros body Hb. unfold tryCatch.
    destruct (body s) as [[[[] | e |] s'] t]; cbn in *; try exact Hb.
    apply Forall_app. split; [exact Hb|]. constructor; [exact I | constructor]. }
  apply Hbody.
  destruct (List.length payload <=? maxChunkSize) eqn:Hlen.
  - apply Nat.leb_le in Hlen. unfold writeValue.
    destruct (env_write_rejects env (chr_id chr) 0); cbn;
      (constructor; [|constructor]);
      (split; [reflexivity | now apply whole_payload_is_chunk]).
  - apply radio_chunk_loop.
Qed.

Lemma radio_bluetooth_attempt env utf8_json label m connData :
  Forall (radio_event (bt_characteristic connData) (utf8_json m))
    (bluetooth_attempt env utf8_json label m connData).
Proof.
  unfold bluetooth_attempt, effects, tryCatch.
  pose proof (radio_writeBluetoothMessage env utf8_json
                (bt_characteristic connData) m (constructed None)) as H.
  destruct (writeBluetoothMessage env utf8_json (bt_characteristic connData)
              (Some m) (constructed None)) as [[[[] | e |] s'] t];
    cbn in *; try exact H.
  apply Forall_app. split; [exact H|]. constructor; [exact I | constructor].
Qed.

(** In a fan-out trace the messages handed to [conn.send] are the direct
    message, and the frames written to characteristics are slices of the
    encoding of the constrained message. *)
Lemma fanout_separates env utf8_json l1 l2 m1 m2
  (cs : JsMap.t ConnData) (bs : JsMap.t BtConnData) e :
  In e (flat_map (fun x => direct_attempt env l1 m1 (snd x)) cs
        ++ flat_map (fun x => bluetooth_attempt env utf8_json l2 m2 (snd x)) bs) ->
  match e with
  | EvSend _ m => m = m1
  | EvSendThrew _ m => m = m1
  | EvWriteValue _ frame => chunk_of (utf8_json m2) frame
  | EvWriteRejected _ frame => chunk_of (utf8_json m2) frame
  | _ => True
  end.
Proof.
  intros Hin. apply in_app_or in Hin. destruct Hin as [Hin | Hin].
  - apply in_flat_map in Hin. destruct Hin as ([k d] & _ & Hin).
    unfold direct_attempt in Hin. cbn [snd] in Hin.
    destruct (env_send_throws env (conn_id (cd_connection d)));
      cbn in Hin; intuition (subst; auto).
  - apply in_flat_map in Hin. destruct Hin as ([k d] & _ & Hin).
    cbn [snd] in Hin.
    pose proof (radio_bluetooth_attempt env utf8_json l2 m2 d) as Hall.
    rewrite Forall_forall in Hall. specialize (Hall e Hin).
    destruct e; cbn in Hall; try exact I; try contradiction; tauto.
Qed.

(** C2. A chat message broadcast over the [N] registered connections
    (direct plus constrained), whichever of them fail: the method returns,
    every send sits in its own [try]/[catch], so every connection gets its
    attempt (a non-failing direct connection receives the message, an
    accepting characteristic receives all its frames), and the toast
    reports [N], the size of the two registries. *)
Theorem sendMessage_isolates_failures
  (env : Env) (utf8_json : Message -> list byte) (s : App) :
  falsy (trim (message_input s)) = false ->
  (getTotalConnections s =? 0) = false ->
  outcome (sendMessage env utf8_json) s = Normal tt
  /\ effects (sendMessage env utf8_json) s
     = flat_map
         (fun e => direct_attempt env "Failed to send WebRTC message:"
                     (chat_message env s) (snd e)) (connections s)
       ++ flat_map
            (fun e => bluetooth_attempt env utf8_json
                        "Failed to send Bluetooth message:"
                        (chat_message env s) (snd e)) (bluetoothConnections s)
       ++ [EvToast
             (lit "Message sent to "
                ++ numberToString
                     (JsMap.size (connections s)
                      + JsMap.size (bluetoothConnections s))
                ++ lit " device(s)") (lit "success")]
  /\ (forall k d, In (k, d) (connections s) ->
        In (if env_send_throws env (conn_id (cd_connection d))
            then EvSendThrew (conn_id (cd_connection d)) (chat_message env s)
            else EvSend (conn_id (cd_connection d)) (chat_message env s))
           (effects (sendMessage env utf8_json) s))
  /\ (forall k d, In (k, d) (bluetoothConnections s) ->
        contains (effects (sendMessage env utf8_json) s)
          (bluetooth_attempt env utf8_json "Failed to send Bluetooth message:"
             (chat_message env s) d)
        /\ (accepts_all env (bt_characteristic d) ->
            segmented (utf8_json (chat_message env s))
              (bluetooth_attempt env utf8_json
                 "Failed to send Bluetooth message:" (chat_message env s) d))).
Proof.
  intros Hmsg Htotal. unfold outcome, effects.
  rewrite (sendMessage_run env utf8_json s Hmsg Htotal). cbn [fst snd].
  split; [reflexivity|]. split; [reflexivity|].
  apply (fanout_covers env utf8_json _ _ _ _ _ _ [] _ _ eq_refl).
Qed.

Lemma sendMessage_isolates_failures_witness :
  falsy (trim (message_input sample_app)) = false
  /\ (getTotalConnections sample_app =? 0) = false
  /\ outcome (sendMessage faulty_env type_only_json) sample_app = Normal tt
  /\ toasts (effects (sendMessage faulty_env type_only_json) sample_app)
     = [(lit "Message sent to 4 device(s)", lit "success")].
Proof.
  split; [reflexivity|]. split; [reflexivity|].
  split.
  - apply (sendMessage_isolates_failures faulty_env type_only_json sample_app);
      reflexivity.
  - vm_compute. reflexivity.
Defined.

(** A concrete run: connection 7 throws and characteristic 9
    rejects, the other two receive the message, and four are reported. *)
Example sendMessage_partial_failure_run :
  map (fun e => match e with
                | EvSend c _ => (c, true)
                | EvSendThrew c _ => (c, false)
                | EvWriteValue c _ => (c, true)
                | EvWriteRejected c _ => (c, false)
                | _ => (0, true)
                end)
    (filter (fun e => match e with
                      | EvSend _ _ | EvSendThrew _ _
                      | EvWriteValue _ _ | EvWriteRejected _ _ => true
                      | _ => false
                      end)
       (effects (sendMessage faulty_env type_only_json) sample_app))
  = [(1, true); (7, false); (3, true); (9, false)].
Proof. vm_compute. reflexivity. Qed.

(** C5, as stated, fails for [sendMessage]: the test of the typed text
    comes before the test of the connection count, so with no connection
    and a blank input the method returns without any toast. *)
Lemma unconnected_blank_send_gives_no_warning :
  ~ (forall s : App,
       getTotalConnections s = 0 ->
       warned_noop (sendMessage calm_env type_only_json) s).
Proof.
  intros H.
  destruct (H (constructed None) eq_refl) as (_ & _ & text & Htoast).
  vm_compute in Htoast. discriminate Htoast.
Qed.

(** C5 (amended). With no connection in either registry,
    [sendEmergencyAlert], and [sendMessage] on a non-blank input, return
    after one warning toast: nothing is built or sent and the state
    (registries, message list, clock readings) is unchanged. [sendMessage]
    on a blank input returns silently, equally without any effect. *)
Theorem unconnected_send_is_noop
  (env : Env) (utf8_json : Message -> list byte) (s : App) :
  getTotalConnections s = 0 ->
  warned_noop (sendEmergencyAlert env utf8_json) s
  /\ (falsy (trim (message_input s)) = false ->
      warned_noop (sendMessage env utf8_json) s)
  /\ (falsy (trim (message_input s)) = true ->
      silent_noop (sendMessage env utf8_json) s).
Proof.
  intros Htotal. unfold warned_noop, silent_noop, outcome, exec, effects.
  split; [|split].
  - rewrite (sendEmergencyAlert_unconnected env utf8_json s Htotal).
    cbn [fst snd]. repeat split. eexists. reflexivity.
  - intros Hmsg.
    rewrite (sendMessage_unconnected env utf8_json s Hmsg Htotal).
    cbn [fst snd]. repeat split. eexists. reflexivity.
  - intros Hmsg. rewrite (sendMessage_blank env utf8_json s Hmsg).
    cbn [fst snd]. repeat split.
Qed.

Lemma unconnected_send_is_noop_witness :
  getTotalConnections (with_message_input (lit "help") (constructed None)) = 0
  /\ warned_noop (sendEmergencyAlert calm_env type_only_json)
       (with_message_input (lit "help") (constructed None))
  /\ (falsy (trim (message_input
                     (with_message_input (lit "help") (constructed None))))
      = false ->
      warned_noop (sendMessage calm_env type_only_json)
        (with_message_input (lit "help") (constructed None)))
  /\ (falsy (trim (message_input
                     (with_message_input (lit "help") (constructed None))))
      = true ->
      silent_noop (sendMessage calm_env type_only_json)
        (with_message_input (lit "help") (constructed None))).
Proof.
  split; [reflexivity|].
  apply (unconnected_send_is_noop calm_env type_only_json
           (with_message_input (lit "help") (constructed None))).
  reflexivity.
Defined.

(** C6. An emergency alert sent while geolocation is unsupported or its
    fetch fails: the position resolves to the null location, the message
    carries it, the method returns, and every registered connection gets
    its attempt, exactly as in a chat broadcast. The alert is also shown
    locally. *)
Theorem emergency_alert_without_location
  (env : Env) (utf8_json : Message -> list byte) (s : App) :
  (getTotalConnections s =? 0) = false ->
  (env_geolocation env = GeoUnsupported
   \/ exists code, env_geolocation env = GeoError code) ->
  (forall s', outcome (getCurrentLocation env) s'
              = Normal {| latitude := None; longitude := None; accuracy := None |})
  /\ outcome (sendEmergencyAlert env utf8_json) s = Normal tt
  /\ effects (sendEmergencyAlert env utf8_json) s
     = location_log (env_geolocation env)
       ++ flat_map
            (fun e => direct_attempt env "Failed to send emergency via WebRTC:"
                        (emergency_message env s null_location) (snd e))
            (connections s)
       ++ flat_map
            (fun e => bluetooth_attempt env utf8_json
                        "Failed to send emergency via Bluetooth:"
                        (emergency_message env s null_location) (snd e))
            (bluetoothConnections s)
       ++ [EvAlertSound;
           EvToast
             (lit "Emergency alert sent to "
                ++ numberToString (getTotalConnections s) ++ lit " device(s)")
             (lit "warning")]
  /\ (forall k d, In (k, d) (connections s) ->
        In (if env_send_throws env (conn_id (cd_connection d))
            then EvSendThrew (conn_id (cd_connection d))
                   (emergency_message env s null_location)
            else EvSend (conn_id (cd_connection d))
                   (emergency_message env s null_location))
           (effects (sendEmergencyAlert env utf8_json) s))
  /\ (forall k d, In (k, d) (bluetoothConnections s) ->
        contains (effects (sendEmergencyAlert env utf8_json) s)
          (bluetooth_attempt env utf8_json
             "Failed to send emergency via Bluetooth:"
             (emergency_message env s null_location) d)
        /\ (accepts_all env (bt_characteristic d) ->
            segmented (utf8_json (emergency_message env s null_location))
              (bluetooth_attempt env utf8_json
                 "Failed to send emergency via Bluetooth:"
                 (emergency_message env s null_location) d)))
  /\ messages (exec (sendEmergencyAlert env utf8_json) s)
     = messages s ++ [AlertBubble (emergency_message env s null_location) true].
Proof.
  intros Htotal Hgeo. split.
  { intros s'. unfold outcome, getCurrentLocation.
    destruct Hgeo as [Hgeo | [code Hgeo]]; rewrite Hgeo; reflexivity. }
  unfold outcome, effects, exec.
  rewrite (sendEmergencyAlert_run env utf8_json s Htotal Hgeo). cbn [fst snd].
  split; [reflexivity|]. split; [reflexivity|].
  epose proof (fanout_covers env utf8_json
                "Failed to send emergency via WebRTC:"
                "Failed to send emergency via Bluetooth:"
                (emergency_message env s null_location)
                (emergency_message env s null_location)
                (connections s) (bluetoothConnections s)
                (location_log (env_geolocation env)) _ _ eq_refl) as [Hd Hb].
  split; [exact Hd|]. split; [exact Hb|]. reflexivity.
Qed.

Lemma emergency_alert_without_location_witness :
  (getTotalConnections sample_app =? 0) = false
  /\ (env_geolocation calm_env = GeoUnsupported
      \/ exists code, env_geolocation calm_env = GeoError code)
  /\ outcome (sendEmergencyAlert calm_env type_only_json) sample_app = Normal tt
  /\ messages (exec (sendEmergencyAlert calm_env type_only_json) sample_app)
     = [AlertBubble (emergency_message calm_env sample_app null_location) true].
Proof.
  assert (Hgeo : env_geolocation calm_env = GeoUnsupported
                 \/ exists code, env_geolocation calm_env = GeoError code).
  { right. exists 1%N. reflexivity. }
  split; [reflexivity|]. split; [exact Hgeo|].
  pose proof (emergency_alert_without_location calm_env type_only_json
                sample_app eq_refl Hgeo) as (_ & Hout & _ & _ & _ & Hshown).
  split; [exact Hout | exact Hshown].
Defined.

(** When the browser never calls either callback the alert waits for
    ever: the hypothesis on the geolocation service is needed. *)
Example emergency_alert_waits_on_silent_geolocation :
  outcome
    (sendEmergencyAlert
       {| env_now := env_now calm_env;
          env_messageId := env_messageId calm_env;
          env_conn_open := env_conn_open calm_env;
          env_send_throws := env_send_throws calm_env;
          env_write_rejects := env_write_rejects calm_env;
          env_geolocation := GeoSilent;
          env_readAsDataURL := env_readAsDataURL calm_env;
          env_gatt_connect := env_gatt_connect calm_env;
          env_primary_service := env_primary_service calm_env;
          env_message_characteristic := env_message_characteristic calm_env;
          env_start_notifications := env_start_notifications calm_env;
          env_primary_services := env_primary_services calm_env;
          env_characteristics := env_characteristics calm_env |}
       type_only_json) sample_app
  = Pending.
Proof. vm_compute. reflexivity. Qed.

Lemma split_comma_segment (seg rest : jsstring) : forall cur,
  ~ In 44%N seg ->
  split_comma (seg ++ 44%N :: rest) cur
  = (rev cur ++ seg) :: split_comma rest [].
Proof.
  induction seg as [|c seg IH]; intros cur Hno.
  - cbn. now rewrite app_nil_r.
  - cbn [List.app split_comma].
    destruct (N.eqb c 44) eqn:Hc.
    + apply N.eqb_eq in Hc. exfalso. apply Hno. now left.
    + rewrite IH by (intros Hin; apply Hno; now right).
      cbn [rev]. now rewrite <- app_assoc.
Qed.

Lemma split_comma_last (seg : jsstring) : forall cur,
  ~ In 44%N seg -> split_comma seg cur = [rev cur ++ seg].
Proof.
  induction seg as [|c seg IH]; intros cur Hno.
  - cbn. now rewrite app_nil_r.
  - cbn [split_comma].
    destruct (N.eqb c 44) eqn:Hc.
    + apply N.eqb_eq in Hc. exfalso. apply Hno. now left.
    + rewrite IH by (intros Hin; apply Hno; now right).
      cbn [rev]. now rewrite <- app_assoc.
Qed.

Lemma base64_has_no_comma (body : jsstring) :
  forallb base64_char body = true -> ~ In 44%N body.
Proof.
  intros Hbody Hin.
  apply (proj1 (forallb_forall _ _) Hbody) in Hin.
  vm_compute in Hin. discriminate Hin.
Qed.

(** The [data] of the file message built from a well-formed data URL is
    its base64 text. *)
Lemma file_message_data_url env s file header body :
  ~ In 44%N header ->
  forallb base64_char body = true ->
  file_message env s file (data_url header body)
  = FileMessage (file_name file) (file_size file) (file_type file) (Some body)
      (deviceName s) (env_now env (clock_reads s))
      (env_messageId env (S (clock_reads s))).
Proof.
  intros Hheader Hbody. unfold file_message, data_url.
  rewrite split_comma_segment by exact Hheader.
  rewrite split_comma_last by (now apply base64_has_no_comma).
  reflexivity.
Qed.

(** What [sendFile] hands to whom, for a file read as [dataURL]. *)
Lemma sendFile_fanout env utf8_json s file dataURL :
  file_input s = Some file ->
  (getTotalConnections s =? 0) = false ->
  env_readAsDataURL env file = Some dataURL ->
  outcome (sendFile env utf8_json) s = Normal tt
  /\ (forall k d, In (k, d) (connections s) ->
        In (if env_send_throws env (conn_id (cd_connection d))
            then EvSendThrew (conn_id (cd_connection d))
                   (file_message env s file dataURL)
            else EvSend (conn_id (cd_connection d))
                   (file_message env s file dataURL))
           (effects (sendFile env utf8_json) s))
  /\ (forall k d, In (k, d) (bluetoothConnections s) ->
        contains (effects (sendFile env utf8_json) s)
          (bluetooth_attempt env utf8_json
             "Failed to send file notification via Bluetooth:"
             (file_notification env s file) d)
        /\ (accepts_all env (bt_characteristic d) ->
            segmented (utf8_json (file_notification env s file))
              (bluetooth_attempt env utf8_json
                 "Failed to send file notification via Bluetooth:"
                 (file_notification env s file) d)))
  /\ (forall e, In e (effects (sendFile env utf8_json) s) ->
        match e with
        | EvSend _ m => m = file_message env s file dataURL
        | EvSendThrew _ m => m = file_message env s file dataURL
        | EvWriteValue _ frame =>
            chunk_of (utf8_json (file_notification env s file)) frame
        | EvWriteRejected _ frame =>
            chunk_of (utf8_json (file_notification env s file)) frame
        | _ => True
        end).
Proof.
  intros Hfile Htotal Hread. unfold outcome, effects.
  rewrite (sendFile_run env utf8_json s file dataURL Hfile Htotal Hread).
  cbn [fst snd]. split; [reflexivity|].
  epose proof (fanout_covers env utf8_json
                "Failed to send file via WebRTC:"
                "Failed to send file notification via Bluetooth:"
                (file_message env s file dataURL)
                (file_notification env s file)
                (connections s) (bluetoothConnections s) [] _ _ eq_refl)
    as [Hd Hb].
  split; [exact Hd|]. split; [exact Hb|].
  intros e Hin. rewrite app_assoc in Hin. apply in_app_or in Hin.
  destruct Hin as [Hin | Hin].
  - apply (fanout_separates env utf8_json _ _ _ _ _ _ e Hin).
  - cbn in Hin. destruct Hin as [<- | [<- | []]]; exact I.
Qed.

(** C10, as stated, fails when the file cannot be read: [sendFile] awaits
    [fileToBase64] inside its [try], so a [FileReader] error leads to the
    [catch], and with connections registered nothing is handed to any of
    them. *)
Lemma unreadable_file_is_sent_to_nobody :
  ~ (forall (env : Env) (s : App) (file : File),
       file_input s = Some file ->
       (getTotalConnections s =? 0) = false ->
       forall k d, In (k, d) (connections s) ->
         In (conn_id (cd_connection d))
            (sent_to (effects (sendFile env type_only_json) s))).
Proof.
  intros H.
  specialize (H (with_env_readAsDataURL (fun _ => None) calm_env) sample_app
                sample_file eq_refl eq_refl
                (fst (sample_entry 1 "peer-a")) (snd (sample_entry 1 "peer-a"))
                (or_introl eq_refl)).
  vm_compute in H. exact H.
Qed.

(** C10 (amended). A file sent with at least one registered connection,
    once [FileReader] has delivered it as a data URL (header, comma, base64
    text): every direct connection is handed the file message, whose [data]
    is that base64 text, every constrained connection is written the file
    notification (name, size, type and the text note, no [data] field), and
    nothing else travels: what [conn.send] gets is the file message, what
    the characteristics get are slices of the encoded notification. *)
Theorem sendFile_splits_by_transport
  (env : Env) (utf8_json : Message -> list byte) (s : App) (file : File)
  (header body : jsstring) :
  file_input s = Some file ->
  (getTotalConnections s =? 0) = false ->
  env_readAsDataURL env file = Some (data_url header body) ->
  ~ In 44%N header ->
  forallb base64_char body = true ->
  outcome (sendFile env utf8_json) s = Normal tt
  /\ (forall k d, In (k, d) (connections s) ->
        In (if env_send_throws env (conn_id (cd_connection d))
            then EvSendThrew (conn_id (cd_connection d))
                   (FileMessage (file_name file) (file_size file)
                      (file_type file) (Some body) (deviceName s)
                      (env_now env (clock_reads s))
                      (env_messageId env (S (clock_reads s))))
            else EvSend (conn_id (cd_connection d))
                   (FileMessage (file_name file) (file_size file)
                      (file_type file) (Some body) (deviceName s)
                      (env_now env (clock_reads s))
                      (env_messageId env (S (clock_reads s)))))
           (effects (sendFile env utf8_json) s))
  /\ (forall k d, In (k, d) (bluetoothConnections s) ->
        contains (effects (sendFile env utf8_json) s)
          (bluetooth_attempt env utf8_json
             "Failed to send file notification via Bluetooth:"
             (file_notification env s file) d)
        /\ (accepts_all env (bt_characteristic d) ->
            segmented (utf8_json (file_notification env s file))
              (bluetooth_attempt env utf8_json
                 "Failed to send file notification via Bluetooth:"
                 (file_notification env s file) d)))
  /\ (forall e, In e (effects (sendFile env utf8_json) s) ->
        match e with
        | EvSend _ m =>
            m = FileMessage (file_name file) (file_size file) (file_type file)
                  (Some body) (deviceName s) (env_now env (clock_reads s))
                  (env_messageId env (S (clock_reads s)))
        | EvSendThrew _ m =>
            m = FileMessage (file_name file) (file_size file) (file_type file)
                  (Some body) (deviceName s) (env_now env (clock_reads s))
                  (env_messageId env (S (clock_reads s)))
        | EvWriteValue _ frame =>
            chunk_of (utf8_json (file_notification env s file)) frame
        | EvWriteRejected _ frame =>
            chunk_of (utf8_json (file_notification env s file)) frame
        | _ => True
        end).
Proof.
  intros Hfile Htotal Hread Hheader Hbody.
  pose proof (sendFile_fanout env utf8_json s file (data_url header body)
                Hfile Htotal Hread) as Hrun.
  rewrite (file_message_data_url env s file header body Hheader Hbody) in Hrun.
  exact Hrun.
Qed.

Lemma sendFile_splits_by_transport_witness :
  file_input sample_app = Some sample_file
  /\ (getTotalConnections sample_app =? 0) = false
  /\ env_readAsDataURL faulty_env sample_file
     = Some (data_url (lit "data:text/plain;base64") (lit "aGk="))
  /\ ~ In 44%N (lit "data:text/plain;base64")
  /\ forallb base64_char (lit "aGk=") = true
  /\ outcome (sendFile faulty_env type_only_json) sample_app = Normal tt
  /\ sent_messages (effects (sendFile faulty_env type_only_json) sample_app)
     = [FileMessage (file_name sample_file) (file_size sample_file)
          (file_type sample_file) (Some (lit "aGk=")) (deviceName sample_app)
          (env_now faulty_env (clock_reads sample_app))
          (env_messageId faulty_env (S (clock_reads sample_app)));
        FileMessage (file_name sample_file) (file_size sample_file)
          (file_type sample_file) (Some (lit "aGk=")) (deviceName sample_app)
          (env_now faulty_env (clock_reads sample_app))
          (env_messageId faulty_env (S (clock_reads sample_app)))].
Proof.
  assert (Hheader : ~ In 44%N (lit "data:text/plain;base64")).
  { intros Hin. vm_compute in Hin.
    repeat (destruct Hin as [Hin | Hin]; [discriminate Hin|]). exact Hin. }
  split; [reflexivity|]. split; [reflexivity|]. split; [reflexivity|].
  split; [exact Hheader|]. split; [reflexivity|].
  split.
  - apply (sendFile_splits_by_transport faulty_env type_only_json sample_app
             sample_file (lit "data:text/plain;base64") (lit "aGk="));
      [reflexivity | reflexivity | reflexivity | exact Hheader | reflexivity].
  - vm_compute. reflexivity.
Defined.

(** The [data] of the sample file message is the text after the comma. *)
Example file_message_data :
  match file_message faulty_env sample_app sample_file
          (lit "data:text/plain;base64,aGk=") with
  | FileMessage _ _ _ data _ _ _ => data = Some (lit "aGk=")
  | _ => False
  end.
Proof. vm_compute. reflexivity. Qed.

(** ** The registries *)

Lemma str_eqb_eq (a b : jsstring) : str_eqb a b = true <-> a = b.
Proof.
  revert b. induction a as [|x a IH]; intros [|y b]; cbn; split;
    try discriminate; try reflexivity.
  - intros H. apply andb_true_iff in H. destruct H as [Hx Ha].
    apply N.eqb_eq in Hx. apply IH in Ha. now subst.
  - intros H. injection H as -> ->. rewrite N.eqb_refl. now apply IH.
Qed.

Lemma str_eqb_refl (a : jsstring) : str_eqb a a = true.
Proof. now apply str_eqb_eq. Qed.

Lemma str_eqb_neq (a b : jsstring) : a <> b -> str_eqb a b = false.
Proof.
  intros H. destruct (str_eqb a b) eqn:E; [|reflexivity].
  apply str_eqb_eq in E. contradiction.
Qed.

Lemma JsMap_get_delete_same {V : Type} (m : JsMap.t V) k :
  JsMap.get (JsMap.delete m k) k = None.
Proof.
  induction m as [|[k' v] m IH]; [reflexivity|].
  unfold JsMap.delete in *. cbn [filter fst].
  destruct (str_eqb k' k) eqn:E; cbn [negb]; [exact IH|].
  cbn [JsMap.get]. now rewrite E.
Qed.

Lemma JsMap_get_delete_other {V : Type} (m : JsMap.t V) k q :
  q <> k -> JsMap.get (JsMap.delete m k) q = JsMap.get m q.
Proof.
  intros Hq. induction m as [|[k' v] m IH]; [reflexivity|].
  unfold JsMap.delete in *. cbn [filter fst].
  destruct (str_eqb k' k) eqn:E; cbn [negb JsMap.get].
  - apply str_eqb_eq in E. subst k'.
    rewrite (str_eqb_neq k q) by congruence. exact IH.
  - destruct (str_eqb k' q); [reflexivity | exact IH].
Qed.

Lemma JsMap_delete_idem {V : Type} (m : JsMap.t V) k :
  JsMap.delete (JsMap.delete m k) k = JsMap.delete m k.
Proof.
  unfold JsMap.delete. induction m as [|[k' v] m IH]; [reflexivity|].
  cbn [filter fst]. destruct (str_eqb k' k) eqn:E; cbn [negb]; [exact IH|].
  cbn [filter fst]. rewrite E. cbn [negb]. now rewrite IH.
Qed.

Lemma JsMap_get_set_same {V : Type} (m : JsMap.t V) k v :
  JsMap.get (JsMap.set m k v) k = Some v.
Proof.
  induction m as [|[k' v'] m IH]; cbn [JsMap.set JsMap.get].
  - now rewrite str_eqb_refl.
  - destruct (str_eqb k' k) eqn:E; cbn [JsMap.get]; rewrite E;
      [reflexivity | exact IH].
Qed.

Lemma JsMap_get_set_other {V : Type} (m : JsMap.t V) k q v :
  q <> k -> JsMap.get (JsMap.set m k v) q = JsMap.get m q.
Proof.
  intros Hq. induction m as [|[k' v'] m IH]; cbn [JsMap.set JsMap.get].
  - now rewrite (str_eqb_neq k q) by congruence.
  - destruct (str_eqb k' k) eqn:E; cbn [JsMap.get].
    + apply str_eqb_eq in E. subst k'.
      now rewrite (str_eqb_neq k q) by congruence.
    + destruct (str_eqb k' q); [reflexivity | exact IH].
Qed.

(** *** The quality probe *)

(** One visit of the probe: the entry is deleted exactly when its ping
    fails; the constrained registry is not touched. *)
Lemma probe_visit env connData peerId s :
  exists s1 tr,
    probeConnection env connData peerId s = (Normal tt, s1, tr)
    /\ connections s1
       = (if probe_fails env connData
          then JsMap.delete (connections s) peerId else connections s)
    /\ bluetoothConnections s1 = bluetoothConnections s.
Proof.
  unfold probeConnection, probe_fails.
  destruct (env_conn_open env (conn_id (cd_connection connData))); cbn [andb].
  - unfold tryCatch. rewrite bind_dateNow. unfold connSend.
    destruct (env_send_throws env (conn_id (cd_connection connData)));
      cbn; eexists; eexists; (split; [reflexivity|]); split; reflexivity.
  - eexists; eexists. split; [reflexivity|]. split; reflexivity.
Qed.

Lemma probe_loop env (entries : JsMap.t ConnData) : forall s,
  exists s1 tr,
    forEach entries (probeConnection env) s = (Normal tt, s1, tr)
    /\ connections s1 = probe_sweep env entries (connections s)
    /\ bluetoothConnections s1 = bluetoothConnections s.
Proof.
  induction entries as [|[k d] rest IH]; intros s.
  - exists s, []. repeat split.
  - destruct (probe_visit env d k s) as (s1 & t1 & Hrun & Hc & Hb).
    destruct (IH s1) as (s2 & t2 & Hrest & Hc2 & Hb2).
    exists s2, (t1 ++ t2). split.
    + cbn [forEach]. now apply bind_normal with (a := tt) (s1 := s1).
    + split; [|congruence].
      rewrite Hc2, Hc. reflexivity.
Qed.

Lemma probe_sweep_single env p (entries : JsMap.t ConnData) : forall m,
  (forall q d, In (q, d) entries -> probe_fails env d = true -> q = p) ->
  probe_sweep env entries m
  = if existsb (fun e => probe_fails env (snd e)) entries
    then JsMap.delete m p else m.
Proof.
  unfold probe_sweep.
  induction entries as [|[k d] rest IH]; intros m Honly; [reflexivity|].
  cbn [fold_left existsb fst snd].
  assert (Hrest : forall q d', In (q, d') rest ->
                    probe_fails env d' = true -> q = p).
  { intros q d' Hin. apply Honly. now right. }
  destruct (probe_fails env d) eqn:Hf; cbn [orb].
  - assert (k = p) by (apply (Honly k d); [now left | exact Hf]). subst k.
    rewrite IH by exact Hrest.
    destruct (existsb _ rest); [apply JsMap_delete_idem | reflexivity].
  - now apply IH.
Qed.

(** C4. When the ping of the periodic probe fails on one direct connection
    (and on no other), the callback returns with exactly that entry deleted
    from the direct registry: the key is gone, every other key maps to what
    it mapped to, the remaining entries keep their order, and the
    constrained registry is unchanged. *)
Theorem probe_removes_exactly_the_failing_connection
  (env : Env) (s : App) (p : jsstring) (d : ConnData) :
  In (p, d) (connections s) ->
  probe_fails env d = true ->
  (forall q d', In (q, d') (connections s) ->
     probe_fails env d' = true -> q = p) ->
  outcome (qualityProbe env) s = Normal tt
  /\ connections (exec (qualityProbe env) s) = JsMap.delete (connections s) p
  /\ JsMap.get (connections (exec (qualityProbe env) s)) p = None
  /\ (forall q, q <> p ->
        JsMap.get (connections (exec (qualityProbe env) s)) q
        = JsMap.get (connections s) q)
  /\ bluetoothConnections (exec (qualityProbe env) s) = bluetoothConnections s.
Proof.
  intros Hin Hfail Honly.
  destruct (probe_loop env (connections s) s) as (s1 & tr & Hrun & Hc & Hb).
  assert (Hprobe : qualityProbe env s = (Normal tt, s1, tr)).
  { unfold qualityProbe. rewrite bind_getApp. exact Hrun. }
  assert (Hdel : connections s1 = JsMap.delete (connections s) p).
  { rewrite Hc, (probe_sweep_single env p _ _ Honly).
    replace (existsb (fun e => probe_fails env (snd e)) (connections s))
      with true; [reflexivity|].
    symmetry. apply existsb_exists. exists (p, d). now split. }
  unfold outcome, exec. rewrite Hprobe. cbn [fst snd].
  split; [reflexivity|]. split; [exact Hdel|].
  rewrite Hdel. split; [apply JsMap_get_delete_same|].
  split; [|exact Hb].
  intros q Hq. now apply JsMap_get_delete_other.
Qed.

Lemma probe_removes_exactly_the_failing_connection_witness :
  In (sample_entry 7 "peer-b") (connections sample_app)
  /\ probe_fails faulty_env (snd (sample_entry 7 "peer-b")) = true
  /\ (forall q d', In (q, d') (connections sample_app) ->
        probe_fails faulty_env d' = true -> q = lit "peer-b")
  /\ connections (exec (qualityProbe faulty_env) sample_app)
     = JsMap.delete (connections sample_app) (lit "peer-b").
Proof.
  assert (Honly : forall q d', In (q, d') (connections sample_app) ->
                    probe_fails faulty_env d' = true -> q = lit "peer-b").
  { intros q d' [H | [H | []]] Hf; injection H as <- <-;
      [discriminate Hf | reflexivity]. }
  split; [right; left; reflexivity|]. split; [reflexivity|].
  split; [exact Honly|].
  apply (probe_removes_exactly_the_failing_connection faulty_env sample_app
           (lit "peer-b") (snd (sample_entry 7 "peer-b")));
    [right; left; reflexivity | reflexivity | exact Honly].
Defined.

(** A concrete run: of the two direct and two constrained entries
    only the direct entry of connection 7 goes. *)
Example probe_run :
  JsMap.keys (connections (exec (qualityProbe faulty_env) sample_app))
  = [lit "peer-a"]
  /\ JsMap.keys (bluetoothConnections (exec (qualityProbe faulty_env) sample_app))
     = [lit "dev-x"; lit "dev-y"].
Proof. split; vm_compute; reflexivity. Qed.

(** ** What a handler leaves of the registries *)

Lemma state_of_after {A : Type} (t : list Event)
  (x : Completion A * App * list Event) :
  state_of (after t x) = state_of x.
Proof. now destruct x as [[r s] t']. Qed.

#[local] Instance same_registries_frame : Frame same_registries.
Proof.
  split.
  - intros s. split; reflexivity.
  - intros s1 s2 s3 [H1 H2] [H3 H4]. split; congruence.
  - intros s n. split; reflexivity.
Qed.

#[local] Instance bt_touch_frame (device : BluetoothDevice) :
  Frame (bt_touch device).
Proof.
  split.
  - intros s. split; [reflexivity|]. split; [reflexivity | now left].
  - intros s1 s2 s3 (Hc & Ho & Hk) (Hc' & Ho' & Hk').
    split; [congruence|]. split.
    + intros q Hq. rewrite Ho' by exact Hq. now apply Ho.
    + intros d Hd. destruct (Hk' d Hd) as [H | H]; [now apply Hk | now right].
  - intros s n. split; [reflexivity|]. split; [reflexivity | now left].
Qed.

Lemma same_registries_bt_touch device s s1 :
  same_registries s s1 -> bt_touch device s s1.
Proof.
  intros [Hc Hb]. split; [exact Hc|]. rewrite Hb.
  split; [reflexivity | now left].
Qed.

Section Preservation.

Context (R : App -> App -> Prop) `{Frame R}.

Lemma preserves_ret {A : Type} (a : A) : preserves R (ret a).
Proof. intros s. apply frame_refl. Qed.

Lemma preserves_emit (e : Event) : preserves R (emit e).
Proof. intros s. apply frame_refl. Qed.

Lemma preserves_throw {A : Type} (reason : jsstring) : preserves R (@throw A reason).
Proof. intros s. apply frame_refl. Qed.

Lemma preserves_getApp : preserves R getApp.
Proof. intros s. apply frame_refl. Qed.

Lemma preserves_modify (g : App -> App) :
  (forall s, R s (g s)) -> preserves R (modify g).
Proof. intros Hg s. apply Hg. Qed.

Lemma preserves_dateNow env : preserves R (dateNow env).
Proof. intros s. apply frame_clock. Qed.

Lemma preserves_stateless {A : Type} (m : M A) : stateless m -> preserves R m.
Proof.
  intros (r & t & _ & Hm) s. rewrite Hm. apply frame_refl.
Qed.

Lemma preserves_bind {A B : Type} (m : M A) (f : A -> M B) :
  preserves R m -> (forall a, preserves R (f a)) -> preserves R (bind m f).
Proof.
  intros Hm Hf s. unfold bind. specialize (Hm s).
  destruct (m s) as [[[a | e |] s1] t1]; cbn in *; try exact Hm.
  specialize (Hf a s1). destruct (f a s1) as [[r s2] t2]. cbn in *.
  now apply frame_trans with s1.
Qed.

Lemma preserves_tryCatch {A : Type} (body : M A) (handler : jsstring -> M A) :
  preserves R body -> (forall e, preserves R (handler e)) ->
  preserves R (tryCatch body handler).
Proof.
  intros Hm Hh s. unfold tryCatch. specialize (Hm s).
  destruct (body s) as [[[a | e |] s1] t1]; cbn in *; try exact Hm.
  specialize (Hh e s1). destruct (handler e s1) as [[r s2] t2]. cbn in *.
  now apply frame_trans with s1.
Qed.

End Preservation.

(** Decompose a method into its steps; what is left are the updates of
    the state. *)
Ltac frame_steps :=
  repeat match goal with
    | |- preserves ?R (bind _ _) => apply (preserves_bind R); [|intros ?]
    | |- preserves ?R (tryCatch _ _) => apply (preserves_tryCatch R); [|intros ?]
    | |- preserves ?R (ret _) => apply (preserves_ret R)
    | |- preserves ?R (emit _) => apply (preserves_emit R)
    | |- preserves ?R (console _ _) => apply (preserves_emit R)
    | |- preserves ?R (showToast _ _) => apply (preserves_emit R)
    | |- preserves ?R (updateConnectionStatus _ _) => apply (preserves_emit R)
    | |- preserves ?R (throw _) => apply (preserves_throw R)
    | |- preserves ?R getApp => apply (preserves_getApp R)
    | |- preserves ?R (dateNow _) => apply (preserves_dateNow R)
    | |- preserves ?R (writeBluetoothMessage _ _ _ _) =>
        apply (preserves_stateless R), stateless_writeBluetoothMessage
    | |- preserves ?R (modify _) => apply (preserves_modify R); intros ?
    | |- preserves _ updateActiveConnections => unfold updateActiveConnections
    | |- preserves _ (if ?b then _ else _) => destruct b
    | |- preserves _ (match ?x with _ => _ end) => destruct x
    end.

Lemma sendHandshake_keeps env conn :
  preserves same_registries (sendHandshake env conn).
Proof. unfold sendHandshake, connSend. frame_steps. Qed.

Lemma onConnectionOpen_registries env conn isIncoming s :
  connections (exec (onConnectionOpen env conn isIncoming) s)
  = JsMap.set (connections s) (conn_peer conn)
      {| cd_connection := conn; cd_type := lit "webrtc";
         cd_metadata := conn_metadata conn |}
  /\ bluetoothConnections (exec (onConnectionOpen env conn isIncoming) s)
     = bluetoothConnections s.
Proof.
  unfold exec, onConnectionOpen.
  rewrite bind_console, bind_modify.
  change (snd (fst ?x)) with (state_of x). rewrite state_of_after.
  match goal with
  | |- context [state_of (?m ?s0)] =>
      assert (Hk : preserves same_registries m);
        [|destruct (Hk s0) as [Hc Hb]; split; [exact Hc | exact Hb]]
  end.
  frame_steps; [apply sendHandshake_keeps | split; reflexivity].
Qed.

Lemma onConnectionClose_registries conn s :
  connections (exec (onConnectionClose conn) s)
  = JsMap.delete (connections s) (conn_peer conn)
  /\ bluetoothConnections (exec (onConnectionClose conn) s)
     = bluetoothConnections s.
Proof.
  unfold exec, onConnectionClose.
  rewrite bind_console, bind_modify.
  change (snd (fst ?x)) with (state_of x). rewrite state_of_after.
  match goal with
  | |- context [state_of (?m ?s0)] =>
      assert (Hk : preserves same_registries m);
        [|destruct (Hk s0) as [Hc Hb]; split; [exact Hc | exact Hb]]
  end.
  frame_steps.
Qed.

Lemma onConnectionError_registries conn s :
  connections (exec (onConnectionError conn) s)
  = JsMap.delete (connections s) (conn_peer conn)
  /\ bluetoothConnections (exec (onConnectionError conn) s)
     = bluetoothConnections s.
Proof.
  unfold exec, onConnectionError.
  rewrite bind_console, bind_modify.
  change (snd (fst ?x)) with (state_of x). rewrite state_of_after.
  match goal with
  | |- context [state_of (?m ?s0)] =>
      assert (Hk : preserves same_registries m);
        [|destruct (Hk s0) as [Hc Hb]; split; [exact Hc | exact Hb]]
  end.
  frame_steps.
Qed.

Lemma handleBluetoothDisconnect_registries device s :
  connections (exec (handleBluetoothDisconnect device) s) = connections s
  /\ JsMap.get (bluetoothConnections (exec (handleBluetoothDisconnect device) s))
       (dev_id device) = None
  /\ (forall q, q <> dev_id device ->
        JsMap.get (bluetoothConnections (exec (handleBluetoothDisconnect device) s)) q
        = JsMap.get (bluetoothConnections s) q).
Proof.
  unfold exec, handleBluetoothDisconnect. rewrite bind_getApp.
  destruct (JsMap.get (bluetoothConnections s) (dev_id device)) eqn:Hget.
  - rewrite bind_modify.
    change (snd (fst ?x)) with (state_of x).
    match goal with
    | |- context [state_of (?m ?s0)] =>
        assert (Hk : preserves same_registries m) by frame_steps;
          destruct (Hk s0) as [Hc Hb]
    end.
    rewrite Hc, Hb. cbn [connections bluetoothConnections with_bluetoothConnections].
    split; [reflexivity|]. split; [apply JsMap_get_delete_same|].
    intros q Hq. now apply JsMap_get_delete_other.
  - cbn. split; [reflexivity|]. split; [exact Hget | reflexivity].
Qed.

Lemma set_entry_touches device d s :
  bt_device d = device ->
  bt_touch device s
    (with_bluetoothConnections
       (JsMap.set (bluetoothConnections s) (dev_id device) d) s).
Proof.
  intros Hd. split; [reflexivity|].
  cbn [bluetoothConnections with_bluetoothConnections]. split.
  - intros q Hq. now apply JsMap_get_set_other.
  - intros d' Hget. rewrite JsMap_get_set_same in Hget.
    injection Hget as <-. now right.
Qed.

Lemma startNotifications_keeps R `{Frame R} env chr :
  preserves R (startNotifications env chr).
Proof. unfold startNotifications. frame_steps. Qed.

Lemma generic_characteristics_touches env server service device chars :
  preserves (bt_touch device)
    (generic_characteristics env server service device chars).
Proof.
  induction chars as [|char rest IH]; cbn [generic_characteristics].
  - frame_steps.
  - destruct (chr_write char || chr_writeWithoutResponse char); [|exact IH].
    frame_steps; try apply startNotifications_keeps; try exact _.
    now apply set_entry_touches.
Qed.

Lemma generic_services_touches env server device services :
  preserves (bt_touch device) (generic_services env server device services).
Proof.
  induction services as [|service rest IH]; cbn [generic_services].
  - frame_steps.
  - destruct (env_characteristics env service); [|frame_steps].
    apply (preserves_bind (bt_touch device));
      [apply generic_characteristics_touches|].
    intros [|]; [frame_steps | exact IH].
Qed.

Lemma setupGenericBluetoothConnection_touches env server device :
  preserves (bt_touch device) (setupGenericBluetoothConnection env server device).
Proof.
  unfold setupGenericBluetoothConnection.
  apply (preserves_tryCatch (bt_touch device)); [|intros e; frame_steps].
  destruct (env_primary_services env server); [|frame_steps].
  apply (preserves_bind (bt_touch device)); [apply generic_services_touches|].
  intros [|]; frame_steps.
Qed.

Lemma connectBluetoothDevice_touches env utf8_json device :
  preserves (bt_touch device) (connectBluetoothDevice env utf8_json device).
Proof.
  unfold connectBluetoothDevice.
  apply (preserves_tryCatch (bt_touch device)); [|intros e; frame_steps].
  apply (preserves_bind (bt_touch device)); [frame_steps|]. intros _.
  apply (preserves_bind (bt_touch device)).
  { frame_steps. apply same_registries_bt_touch. split; reflexivity. }
  intros _.
  destruct (env_gatt_connect env (dev_id device)) as [server|]; [|frame_steps].
  apply (preserves_bind (bt_touch device)); [frame_steps|]. intros _.
  destruct (env_primary_service env server) as [service|].
  - destruct (env_message_characteristic env service) as [messageChar|];
      [|frame_steps].
    unfold sendBluetoothHandshake.
    frame_steps; try apply startNotifications_keeps; try exact _.
    + apply same_registries_bt_touch. split; reflexivity.
    + now apply set_entry_touches.
  - apply (preserves_bind (bt_touch device)); [frame_steps|]. intros _.
    apply setupGenericBluetoothConnection_touches.
Qed.

Lemma connectBluetoothDevice_unreachable env utf8_json device s :
  env_gatt_connect env (dev_id device) = None ->
  same_registries s (exec (connectBluetoothDevice env utf8_json device) s).
Proof.
  intros Hnone.
  assert (Hk : preserves same_registries
                 (connectBluetoothDevice env utf8_json device)).
  { unfold connectBluetoothDevice. rewrite Hnone.
    frame_steps. split; reflexivity. }
  apply Hk.
Qed.

(** ** Registries and transport state in step *)

Lemma In_without_conn i j l : In j (without_conn i l) <-> In j l /\ j <> i.
Proof.
  unfold without_conn. rewrite filter_In, negb_true_iff, Nat.eqb_neq. tauto.
Qed.

Lemma In_without_device k q l : In q (without_device k l) <-> In q l /\ q <> k.
Proof.
  unfold without_device. rewrite filter_In, negb_true_iff. split.
  - intros [Hin Hne]. split; [exact Hin|]. intros ->.
    now rewrite str_eqb_refl in Hne.
  - intros [Hin Hne]. split; [exact Hin | now apply str_eqb_neq].
Qed.

Lemma In_reopened i j l :
  In j l -> In j (i :: without_conn i l).
Proof.
  intros Hin. destruct (Nat.eq_dec j i) as [-> | Hne]; [now left|].
  right. now apply In_without_conn.
Qed.

Lemma jsstring_eq_dec (a b : jsstring) : {a = b} + {a <> b}.
Proof. apply list_eq_dec, N.eq_dec. Qed.

(** The connect routine through the emergency service, up to the
    handshake. *)
Lemma connectBluetoothDevice_named env utf8_json device s server service chr :
  env_gatt_connect env (dev_id device) = Some server ->
  env_primary_service env server = Some service ->
  env_message_characteristic env service = Some chr ->
  env_start_notifications env (chr_id chr) = true ->
  connectBluetoothDevice env utf8_json device s
  = tryCatch
      (fun s0 =>
         after
           [EvToast
              (lit "Connecting to "
                 ++ orDefault (dev_name device) (lit "Unknown Device") ++ lit "...")
              (lit "info");
            EvConsole (lit "log") (lit "Connected to GATT server");
            EvActiveConnections
              (JsMap.size (connections s0)
               + JsMap.size
                   (JsMap.set (bluetoothConnections s0) (dev_id device)
                      {| bt_device := device; bt_server := server;
                         bt_service := service; bt_characteristic := chr;
                         bt_type := lit "bluetooth" |}));
            EvToast
              (lit "Connected to " ++ orDefault (dev_name device) (lit "Device")
                 ++ lit " via Bluetooth") (lit "success");
            EvStatus
              (lit "Bluetooth connected to "
                 ++ orDefault (dev_name device) (lit "Device")) (lit "success")]
           (writeBluetoothMessage env utf8_json chr
              (Some (BluetoothHandshake (deviceName s0)
                       (env_now env (clock_reads s0)) (dev_id device)
                       [lit "messaging"; lit "emergency"; lit "file-transfer"]))
              (with_clock_reads (S (clock_reads s0))
                 (with_bluetoothConnections
                    (JsMap.set (bluetoothConnections s0) (dev_id device)
                       {| bt_device := device; bt_server := server;
                          bt_service := service; bt_characteristic := chr;
                          bt_type := lit "bluetooth" |})
                    (with_bluetoothCharacteristic (Some chr)
                       (with_bluetoothDevice (Some device) s0))))))
      (fun error =>
         console "error" "Bluetooth connection failed:" ;;
         showToast (lit "Bluetooth connection failed: " ++ error) (lit "error"))
      s.
Proof.
  intros Hgatt Hservice Hchar Hnotify.
  unfold connectBluetoothDevice. rewrite Hgatt, Hservice, Hchar.
  unfold tryCatch.
  unfold showToast at 1. rewrite bind_emit, bind_modify, bind_console, bind_modify.
  unfold startNotifications. rewrite Hnotify, bind_ret, bind_modify.
  unfold updateActiveConnections. rewrite bind_bind, bind_getApp, bind_emit.
  unfold showToast at 1, updateConnectionStatus. rewrite !bind_emit.
  unfold sendBluetoothHandshake. rewrite bind_getApp, bind_dateNow.
  rewrite !after_after. reflexivity.
Qed.

Lemma In_existsb_key (k : jsstring) (l : list jsstring) :
  existsb (str_eqb k) l = true <-> In k l.
Proof.
  rewrite existsb_exists. split.
  - intros (q & Hin & Heq). apply str_eqb_eq in Heq. now subst q.
  - intros Hin. exists k. split; [exact Hin | apply str_eqb_refl].
Qed.

Lemma disconnectPeer_registries peerId s :
  connections (exec (disconnectPeer peerId) s)
  = match JsMap.get (connections s) peerId with
    | Some _ => JsMap.delete (connections s) peerId
    | None => connections s
    end
  /\ bluetoothConnections (exec (disconnectPeer peerId) s)
     = bluetoothConnections s.
Proof.
  unfold exec, disconnectPeer. rewrite bind_getApp.
  destruct (JsMap.get (connections s) peerId); split; reflexivity.
Qed.

Lemma disconnectBluetoothDevice_registries gattConnected deviceId s :
  connections (exec (disconnectBluetoothDevice gattConnected deviceId) s)
  = connections s
  /\ bluetoothConnections
       (exec (disconnectBluetoothDevice gattConnected deviceId) s)
     = match JsMap.get (bluetoothConnections s) deviceId with
       | Some connection =>
           if gattConnected (dev_id (bt_device connection))
           then JsMap.delete (bluetoothConnections s) deviceId
           else bluetoothConnections s
       | None => bluetoothConnections s
       end.
Proof.
  unfold exec, disconnectBluetoothDevice. rewrite bind_getApp.
  destruct (JsMap.get (bluetoothConnections s) deviceId) as [connection|];
    [|split; reflexivity].
  destruct (gattConnected (dev_id (bt_device connection))); split; reflexivity.
Qed.

(** Once the emergency service, its characteristic and the notifications
    are there, the entry of the device is filed, whatever becomes of the
    handshake. *)
Lemma connectBluetoothDevice_registers env utf8_json device s server service chr :
  env_gatt_connect env (dev_id device) = Some server ->
  env_primary_service env server = Some service ->
  env_message_characteristic env service = Some chr ->
  env_start_notifications env (chr_id chr) = true ->
  bluetoothConnections (exec (connectBluetoothDevice env utf8_json device) s)
  = JsMap.set (bluetoothConnections s) (dev_id device)
      {| bt_device := device; bt_server := server; bt_service := service;
         bt_characteristic := chr; bt_type := lit "bluetooth" |}.
Proof.
  intros Hgatt Hservice Hchar Hnotify. unfold exec.
  rewrite (connectBluetoothDevice_named env utf8_json device s server service chr
             Hgatt Hservice Hchar Hnotify).
  unfold tryCatch.
  match goal with
  | |- context [writeBluetoothMessage env utf8_json chr ?data ?s0] =>
      destruct (stateless_writeBluetoothMessage env utf8_json chr data)
        as (r & t & _ & Hrun);
      rewrite (Hrun s0)
  end.
  destruct r; reflexivity.
Qed.

(** A failing entry is gone after the sweep of the probe. *)
Lemma probe_sweep_stays_deleted env p (entries : JsMap.t ConnData) : forall m,
  JsMap.get m p = None -> JsMap.get (probe_sweep env entries m) p = None.
Proof.
  unfold probe_sweep.
  induction entries as [|[k d] rest IH]; intros m Hm; [exact Hm|].
  cbn [fold_left fst snd]. apply IH.
  destruct (probe_fails env d); [|exact Hm].
  destruct (jsstring_eq_dec p k) as [-> | Hne].
  - apply JsMap_get_delete_same.
  - now rewrite JsMap_get_delete_other.
Qed.

Lemma probe_sweep_deletes env p d (entries : JsMap.t ConnData) : forall m,
  In (p, d) entries -> probe_fails env d = true ->
  JsMap.get (probe_sweep env entries m) p = None.
Proof.
  induction entries as [|[k d'] rest IH]; intros m Hin Hfail; [destruct Hin|].
  destruct Hin as [Heq | Hin].
  - injection Heq as -> ->. unfold probe_sweep. cbn [fold_left fst snd].
    rewrite Hfail. apply (probe_sweep_stays_deleted env p rest).
    apply JsMap_get_delete_same.
  - unfold probe_sweep. cbn [fold_left fst snd]. now apply IH.
Qed.

Section Lockstep.

Variable env : Env.
Variable utf8_json : Message -> list byte.
Variable hs : list DataConnection.
Hypothesis Hcoherent : coherent hs.

(** A handle under another key than [conn]'s is another object. *)
Lemma other_key_other_id conn h :
  In conn hs -> In h hs -> conn_peer h <> conn_peer conn ->
  conn_id h <> conn_id conn.
Proof.
  intros Hc Hh Hpeer Hid. apply Hpeer. now rewrite (Hcoherent h conn Hh Hc Hid).
Qed.

Lemma step_tracked w e :
  incl (handle_of e) hs -> tracked hs w -> tracked hs (step env utf8_json w e).
Proof.
  intros Hin [Hd Hb].
  destruct e as [conn b | conn | conn b | device | device | peerId | deviceId];
    cbn [step handle_of] in *.
  - assert (Hconn : In conn hs) by (apply Hin; now left).
    destruct (onConnectionOpen_registries env conn b (app w)) as [Hc Hbt].
    split; cbn [app open_conns gatt_connected]; unfold reports_open;
      cbn [open_conns].
    + intros k d. rewrite Hc.
      destruct (jsstring_eq_dec k (conn_peer conn)) as [-> | Hne].
      * rewrite JsMap_get_set_same. intros Hget. injection Hget as <-.
        cbn [cd_connection]. repeat split; [exact Hconn | now left].
      * rewrite JsMap_get_set_other by exact Hne. intros Hget.
        destruct (Hd k d Hget) as (H1 & H2 & H3).
        repeat split; [exact H1 | exact H2 | now apply In_reopened].
    + intros k d. rewrite Hbt. apply Hb.
  - assert (Hconn : In conn hs) by (apply Hin; now left).
    destruct (onConnectionClose_registries conn (app w)) as [Hc Hbt].
    split; cbn [app open_conns gatt_connected]; unfold reports_open;
      cbn [open_conns].
    + intros k d. rewrite Hc.
      destruct (jsstring_eq_dec k (conn_peer conn)) as [-> | Hne].
      * now rewrite JsMap_get_delete_same.
      * rewrite JsMap_get_delete_other by exact Hne. intros Hget.
        destruct (Hd k d Hget) as (H1 & H2 & H3).
        repeat split; [exact H1 | exact H2|].
        apply In_without_conn. split; [exact H3|].
        apply other_key_other_id; [exact Hconn | exact H1 | congruence].
    + intros k d. rewrite Hbt. apply Hb.
  - assert (Hconn : In conn hs) by (apply Hin; now left).
    destruct (onConnectionError_registries conn (app w)) as [Hc Hbt].
    split; cbn [app open_conns gatt_connected]; unfold reports_open;
      cbn [open_conns].
    + intros k d. rewrite Hc.
      destruct (jsstring_eq_dec k (conn_peer conn)) as [-> | Hne].
      * now rewrite JsMap_get_delete_same.
      * rewrite JsMap_get_delete_other by exact Hne. intros Hget.
        destruct (Hd k d Hget) as (H1 & H2 & H3).
        repeat split; [exact H1 | exact H2|].
        destruct b; [exact H3|].
        apply In_without_conn. split; [exact H3|].
        apply other_key_other_id; [exact Hconn | exact H1 | congruence].
    + intros k d. rewrite Hbt. apply Hb.
  - pose proof (connectBluetoothDevice_touches env utf8_json device (app w))
      as (Hc & Hother & Hkey).
    unfold state_of in *. unfold exec in *.
    split; cbn [app open_conns gatt_connected]; unfold reports_open;
      cbn [open_conns].
    + intros k d. rewrite Hc. apply Hd.
    + intros k d Hget.
      destruct (jsstring_eq_dec k (dev_id device)) as [-> | Hne].
      * destruct (env_gatt_connect env (dev_id device)) as [server|] eqn:Hgatt.
        -- split; [|now left].
           destruct (Hkey d Hget) as [Hold | Hnew];
             [now apply (Hb _ _ Hold) | now rewrite Hnew].
        -- destruct (connectBluetoothDevice_unreachable env utf8_json device
                       (app w) Hgatt) as [_ Hsame].
           unfold exec in Hsame. rewrite Hsame in Hget. now apply Hb.
      * rewrite Hother in Hget by exact Hne.
        destruct (Hb k d Hget) as [H1 H2]. split; [exact H1|].
        destruct (env_gatt_connect env (dev_id device)); [|exact H2].
        right. now apply In_without_device.
  - destruct (handleBluetoothDisconnect_registries device (app w))
      as (Hc & Hgone & Hother).
    split; cbn [app open_conns gatt_connected]; unfold reports_open;
      cbn [open_conns].
    + intros k d. rewrite Hc. apply Hd.
    + intros k d Hget.
      destruct (jsstring_eq_dec k (dev_id device)) as [-> | Hne].
      * congruence.
      * rewrite Hother in Hget by exact Hne.
        destruct (Hb k d Hget) as [H1 H2]. split; [exact H1|].
        now apply In_without_device.
  - destruct (disconnectPeer_registries peerId (app w)) as [Hc Hbt].
    split; cbn [app open_conns gatt_connected]; unfold reports_open;
      cbn [open_conns].
    + intros k d. rewrite Hc.
      destruct (JsMap.get (connections (app w)) peerId) as [gone|] eqn:Hgone;
        [|apply Hd].
      destruct (jsstring_eq_dec k peerId) as [-> | Hne].
      * now rewrite JsMap_get_delete_same.
      * rewrite JsMap_get_delete_other by exact Hne. intros Hget.
        destruct (Hd k d Hget) as (H1 & H2 & H3).
        destruct (Hd peerId gone Hgone) as (G1 & G2 & _).
        repeat split; [exact H1 | exact H2|].
        apply In_without_conn. split; [exact H3|].
        apply other_key_other_id; [exact G1 | exact H1 | congruence].
    + intros k d. rewrite Hbt. apply Hb.
  - destruct (disconnectBluetoothDevice_registries
                (fun k => existsb (str_eqb k) (gatt_connected w)) deviceId (app w))
      as [Hc Hbt].
    split; cbn [app open_conns gatt_connected]; unfold reports_open;
      cbn [open_conns].
    + intros k d. rewrite Hc. apply Hd.
    + intros k d. rewrite Hbt.
      destruct (JsMap.get (bluetoothConnections (app w)) deviceId)
        as [gone|] eqn:Hgone; [|apply Hb].
      destruct (Hb deviceId gone Hgone) as [G1 _].
      destruct (existsb (str_eqb (dev_id (bt_device gone))) (gatt_connected w));
        [|apply Hb].
      destruct (jsstring_eq_dec k deviceId) as [-> | Hne].
      * now rewrite JsMap_get_delete_same.
      * rewrite JsMap_get_delete_other by exact Hne. intros Hget.
        destruct (Hb k d Hget) as [H1 H2]. split; [exact H1|].
        apply In_without_device. split; [exact H2 | congruence].
Qed.

Lemma run_events_tracked evs : forall w,
  incl (handles evs) hs -> tracked hs w ->
  tracked hs (run_events env utf8_json w evs).
Proof.
  induction evs as [|e rest IH]; intros w Hin Hw; [exact Hw|].
  cbn [run_events fold_left]. apply IH.
  - intros c Hc. apply Hin. destruct e; cbn [handles]; auto using in_cons.
  - apply step_tracked; [|exact Hw].
    intros c Hc. apply Hin.
    destruct e; cbn [handles handle_of] in *;
      try (destruct Hc as [<- | []]; now left); contradiction.
Qed.

(** An open handle other than the one of the event keeps its entry: it
    leads to another peer. *)
Lemma step_covered w e :
  incl (handle_of e) hs ->
  (forall c b, e = ConnError c b -> b = false) ->
  alone hs w e ->
  covered hs w -> covered hs (step env utf8_json w e).
Proof.
  intros Hin Herr Halone Hw.
  destruct e as [conn b | conn | conn b | device | device | peerId | deviceId];
    cbn [step handle_of] in *; intros c Hc; unfold reports_open, registered;
    cbn [app open_conns gatt_connected].
  - assert (Hconn : In conn hs) by (apply Hin; now left).
    destruct (onConnectionOpen_registries env conn b (app w)) as [Hreg _].
    rewrite Hreg. intros Hopen.
    destruct (Nat.eq_dec (conn_id c) (conn_id conn)) as [Hid | Hid].
    + rewrite (Hcoherent c conn Hc Hconn Hid), JsMap_get_set_same.
      eexists. split; reflexivity.
    + destruct Hopen as [Hopen | Hopen]; [congruence|].
      apply In_without_conn in Hopen. destruct Hopen as [Hopen _].
      rewrite JsMap_get_set_other; [now apply Hw|].
      intros Hpeer. apply Hid.
      now rewrite (Halone conn c (or_introl eq_refl) Hc Hopen Hpeer).
  - destruct (onConnectionClose_registries conn (app w)) as [Hreg _].
    rewrite Hreg. intros Hopen.
    apply In_without_conn in Hopen. destruct Hopen as [Hopen Hid].
    rewrite JsMap_get_delete_other; [now apply Hw|].
    intros Hpeer. apply Hid.
    now rewrite (Halone conn c (or_introl eq_refl) Hc Hopen Hpeer).
  - destruct (onConnectionError_registries conn (app w)) as [Hreg _].
    rewrite Hreg. rewrite (Herr conn b eq_refl). intros Hopen.
    apply In_without_conn in Hopen. destruct Hopen as [Hopen Hid].
    rewrite JsMap_get_delete_other; [now apply Hw|].
    intros Hpeer. apply Hid.
    now rewrite (Halone conn c (or_introl eq_refl) Hc Hopen Hpeer).
  - pose proof (connectBluetoothDevice_touches env utf8_json device (app w))
      as (Hreg & _).
    unfold state_of in *. unfold exec in *.
    rewrite Hreg. now apply Hw.
  - destruct (handleBluetoothDisconnect_registries device (app w)) as (Hreg & _).
    rewrite Hreg. now apply Hw.
  - destruct (disconnectPeer_registries peerId (app w)) as [Hreg _].
    rewrite Hreg.
    destruct (JsMap.get (connections (app w)) peerId) as [gone|] eqn:Hgone;
      [|now apply Hw].
    intros Hopen. apply In_without_conn in Hopen. destruct Hopen as [Hopen Hid].
    destruct (Hw c Hc Hopen) as (d & Hget & Hd).
    rewrite JsMap_get_delete_other; [now exists d|].
    intros Hpeer. apply Hid. rewrite Hpeer, Hgone in Hget.
    injection Hget as <-. now rewrite Hd.
  - destruct (disconnectBluetoothDevice_registries
                (fun k => existsb (str_eqb k) (gatt_connected w)) deviceId (app w))
      as [Hreg _].
    rewrite Hreg. now apply Hw.
Qed.

Lemma run_events_covered evs : forall w,
  incl (handles evs) hs -> errors_close evs ->
  one_open_handle_per_peer env utf8_json hs w evs ->
  covered hs w ->
  covered hs (run_events env utf8_json w evs).
Proof.
  induction evs as [|e rest IH]; intros w Hin Herr Hone Hw; [exact Hw|].
  cbn [one_open_handle_per_peer] in Hone. destruct Hone as [Halone Hone].
  cbn [run_events fold_left]. apply IH.
  - intros c Hc. apply Hin. destruct e; cbn [handles]; auto using in_cons.
  - intros c b Hcb. apply (Herr c b). now right.
  - exact Hone.
  - apply step_covered; [| |exact Halone|exact Hw].
    + intros c Hc. apply Hin.
      destruct e; cbn [handles handle_of] in *;
        try (destruct Hc as [<- | []]; now left); contradiction.
    + intros c b ->. apply (Herr c b). now left.
Qed.

End Lockstep.

Lemma initial_world_tracked hs peerId : tracked hs (initial_world peerId).
Proof. split; intros k d Hget; discriminate Hget. Qed.

Lemma initial_world_covered hs peerId : covered hs (initial_world peerId).
Proof. intros c _ []. Qed.

Lemma twin_handle_events_coherent : handles_coherent twin_handle_events.
Proof.
  intros c c' Hc Hc' Hid. cbn in Hc, Hc'.
  destruct Hc as [<- | [<- | [<- | []]]];
    destruct Hc' as [<- | [<- | [<- | []]]];
    try reflexivity; discriminate Hid.
Qed.




(** A concrete run: a peer reconnected after its first connection closed,
    another disconnected by the user, connected again and lost to an
    error; the device is connected and registered. *)
Example orderly_run :
  open_conns
    (run_events calm_env type_only_json (initial_world None) orderly_events)
  = [3]
  /\ JsMap.keys
       (connections
          (app (run_events calm_env type_only_json (initial_world None)
                  orderly_events))) = [lit "peer-a"]
  /\ gatt_connected
       (run_events calm_env type_only_json (initial_world None) orderly_events)
     = [lit "dev-x"]
  /\ JsMap.keys
       (bluetoothConnections
          (app (run_events calm_env type_only_json (initial_world None)
                  orderly_events))) = [lit "dev-x"].
Proof. repeat split; vm_compute; reflexivity. Qed.

(** ** Discovery timing *)

(** What [startAutoDiscovery] registers when called at time [t0]. *)
Lemma startAutoDiscovery_schedule s t0 :
  timers_of t0 (effects startAutoDiscovery s)
  = if autoConnect s
    then [{| due := t0 + 1000; period := None; task := StaggeredBluetoothScan |};
          {| due := t0 + 3000; period := None; task := StaggeredLocalScan |};
          {| due := t0 + 30000; period := Some 30000%Z; task := PeriodicRediscovery |}]
    else [].
Proof.
  unfold effects, startAutoDiscovery. rewrite bind_getApp.
  destruct (autoConnect s); reflexivity.
Qed.

(** C7, as stated, fails. The listener of [DOMContentLoaded] calls
    [startAutoDiscovery] from a timer of 2 s, so on the clock that starts
    at page load nothing is scanned at 1 s or at 3 s before the Bluetooth
    scan of 3 s: the two scans fire at 3 s and at 5 s. *)
Lemma scans_do_not_fire_at_one_and_three_seconds :
  ~ (In 1000%Z (times_of is_bluetooth_scan (page_load calm_env None 8 6000))
     /\ In 3000%Z (times_of is_local_scan (page_load calm_env None 8 6000))).
Proof.
  intros [Hbt _]. vm_compute in Hbt.
  destruct Hbt as [Hbt | []]. discriminate Hbt.
Qed.

(** C7 (amended). With the settings the constructor leaves, on the clock
    that starts at page load: [startAutoDiscovery] runs at 2 s, the
    Bluetooth scan fires at 3 s and the local-subnet probe at 5 s, neither
    of them earlier; counted from the call of [startAutoDiscovery] the two
    timers are due after 1 s and after 3 s. *)
Theorem discovery_scans_are_staggered
  (env : Env) (peerId : option jsstring) (s : App) (t0 : Z) :
  times_of is_bluetooth_scan (page_load env peerId 8 6000) = [3000%Z]
  /\ times_of is_local_scan (page_load env peerId 8 6000) = [5000%Z]
  /\ timers_of 0 (effects domContentLoaded (constructed peerId))
     = [{| due := 2000; period := None; task := BootTask |}]
  /\ timers_of t0 (effects startAutoDiscovery s)
     = if autoConnect s
       then [{| due := t0 + 1000; period := None; task := StaggeredBluetoothScan |};
             {| due := t0 + 3000; period := None; task := StaggeredLocalScan |};
             {| due := t0 + 30000; period := Some 30000%Z;
                task := PeriodicRediscovery |}]
       else [].
Proof.
  split; [reflexivity|]. split; [reflexivity|]. split; [reflexivity|].
  apply startAutoDiscovery_schedule.
Qed.

(** The first seconds after page load. *)
Example page_load_timeline :
  map (fun te => (fst te,
                  match snd te with
                  | EvSetTimeout ms t => Some (ms, t)
                  | EvSetInterval ms t => Some (ms, t)
                  | _ => None
                  end))
    (filter (fun te => match snd te with
                       | EvConsole _ _ => false
                       | _ => true
                       end)
       (page_load calm_env None 8 6000))
  = [(2000, Some (1000, StaggeredBluetoothScan));
     (2000, Some (3000, StaggeredLocalScan));
     (2000, Some (30000, PeriodicRediscovery));
     (2000, Some (10000, QualityProbe));
     (3000, None); (5000, None)]%Z.
Proof. vm_compute. reflexivity. Qed.

(** ** The incident-log server *)

Module ServerFacts.

Import Server.

Lemma findIndex_none {A : Type} (p : A -> bool) (l : list A) :
  findIndex p l = None <-> forall x, In x l -> p x = false.
Proof.
  induction l as [|x rest IH]; cbn [findIndex].
  - split; [intros _ x [] | reflexivity].
  - destruct (p x) eqn:Hp.
    + split; [discriminate|]. intros H.
      specialize (H x (or_introl eq_refl)). congruence.
    + destruct (findIndex p rest) as [i|].
      * split; [discriminate|]. intros H.
        assert (Hnone : Some i = None); [|discriminate Hnone].
        apply IH. intros y Hy. apply H. now right.
      * split; [|reflexivity]. intros _ y [<- | Hy]; [exact Hp|].
        now apply (proj1 IH eq_refl).
Qed.

Lemma findIndex_some {A : Type} (p : A -> bool) (l : list A) (i : nat) :
  findIndex p l = Some i ->
  exists x, nth_error l i = Some x /\ p x = true
            /\ forall j y, j < i -> nth_error l j = Some y -> p y = false.
Proof.
  revert i. induction l as [|x rest IH]; intros i; cbn [findIndex];
    [discriminate|].
  destruct (p x) eqn:Hp.
  - intros H. injection H as <-. exists x. repeat split; [exact Hp|].
    intros j y Hj. lia.
  - destruct (findIndex p rest) as [i'|]; [|discriminate].
    intros H. injection H as <-.
    destruct (IH i' eq_refl) as (y & Hy & Hpy & Hfirst).
    exists y. repeat split; [exact Hy | exact Hpy|].
    intros [|j] z Hj Hz; cbn in Hz.
    + injection Hz as <-. exact Hp.
    + apply (Hfirst j z); [lia | exact Hz].
Qed.

Lemma update_at_length {A : Type} (f : A -> A) (l : list A) : forall i,
  List.length (update_at i f l) = List.length l.
Proof.
  induction l as [|x rest IH]; intros [|i]; cbn; try reflexivity.
  now rewrite IH.
Qed.

Lemma update_at_same {A : Type} (f : A -> A) (l : list A) : forall i x,
  nth_error l i = Some x -> nth_error (update_at i f l) i = Some (f x).
Proof.
  induction l as [|y rest IH]; intros [|i] x; cbn; try discriminate.
  - intros H. now injection H as <-.
  - apply IH.
Qed.

Lemma update_at_other {A : Type} (f : A -> A) (l : list A) : forall i j,
  j <> i -> nth_error (update_at i f l) j = nth_error l j.
Proof.
  induction l as [|y rest IH]; intros [|i] [|j] Hne; cbn; try reflexivity.
  - congruence.
  - apply IH. congruence.
Qed.

Lemma nth_update_at (f : record -> record) (l : list record) i x :
  nth_error l i = Some x -> nth i (update_at i f l) [] = f x.
Proof.
  intros H. apply (update_at_same f) in H.
  now apply nth_error_nth.
Qed.

Lemma assign_status_other status (e : record) key :
  key <> lit "status" ->
  JsMap.get (assign_status status e) key = JsMap.get e key.
Proof.
  intros Hkey. destruct status as [v|]; cbn [assign_status].
  - now apply JsMap_get_set_other.
  - now apply JsMap_get_delete_other.
Qed.

Lemma assign_status_status status (e : record) :
  JsMap.get (assign_status status e) (lit "status") = option_map written status.
Proof.
  destruct status as [v|]; cbn [assign_status option_map].
  - apply JsMap_get_set_same.
  - apply JsMap_get_delete_same.
Qed.

(** ** Doubles of integers *)

Lemma digits2_pos_size (p : positive) : digits2_pos p = Pos.size p.
Proof. induction p; cbn; now rewrite ?IHp. Qed.

Lemma digits2_pos_shift (p d : positive) :
  digits2_pos (Pos.iter xO p d) = (digits2_pos p + d)%positive.
Proof.
  induction d as [|d IH] using Pos.peano_ind.
  - cbn. now rewrite Pos.add_1_r.
  - rewrite Pos.iter_succ. cbn [digits2_pos]. rewrite IH. lia.
Qed.

Lemma shift_inj (p q d : positive) :
  Pos.iter xO p d = Pos.iter xO q d -> p = q.
Proof.
  induction d as [|d IH] using Pos.peano_ind.
  - cbn. congruence.
  - rewrite !Pos.iter_succ. intros H. injection H as H. now apply IH.
Qed.

Lemma digits2_pos_bound (p : positive) :
  (Zpos p < 2 ^ 53)%Z -> (Zpos (digits2_pos p) <= 53)%Z.
Proof.
  intros Hp. rewrite digits2_pos_size.
  destruct (Z.le_gt_cases (Zpos (Pos.size p)) 53) as [H | H]; [exact H|].
  exfalso.
  pose proof (Pos.size_le p) as Hle.
  assert (H54 : (2 ^ 54 <= 2 ^ Zpos (Pos.size p))%Z)
    by (apply Z.pow_le_mono_r; lia).
  assert (Hpow : (Zpos (2 ^ Pos.size p) = 2 ^ Zpos (Pos.size p))%Z)
    by (now rewrite Pos2Z.inj_pow).
  assert (Hle' : (Zpos (2 ^ Pos.size p) <= Zpos p~0)%Z) by exact Hle.
  rewrite Hpow in Hle'. change (2 ^ 54)%Z with (2 * 2 ^ 53)%Z in H54.
  rewrite Pos2Z.inj_xO in Hle'. lia.
Qed.

(** A mantissa of 53 bits with an exponent in range is returned as it is. *)
Lemma binary_round_aux_exact (m : positive) (e : Z) :
  Zpos (digits2_pos m) = 53%Z -> (-52 <= e <= 0)%Z ->
  binary_round_aux prec emax false (Zpos m) e loc_Exact = S754_finite false m e.
Proof.
  intros Hm He.
  assert (Hshift : (fexp prec emax (Zdigits2 (Zpos m) + e) - e = 0)%Z).
  { unfold fexp, SpecFloat.emin, Zdigits2, prec, emax. rewrite Hm. lia. }
  unfold binary_round_aux, shr_fexp. rewrite Hshift.
  cbn [shr shr_record_of_loc shr_m loc_of_shr_record round_nearest_even].
  rewrite Hshift. cbn [shr shr_record_of_loc shr_m].
  replace (e <=? emax - prec)%Z with true; [reflexivity|].
  symmetry. apply Z.leb_le. unfold emax, prec. lia.
Qed.

(** The double of a positive integer below [2 ^ 53] is the integer itself,
    shifted to 53 bits. *)
Lemma double_of_pos (p : positive) :
  (Zpos p < 2 ^ 53)%Z ->
  double_of_Z (Zpos p)
  = S754_finite false (fst (normal_form p)) (snd (normal_form p)).
Proof.
  intros Hp. pose proof (digits2_pos_bound p Hp) as Hd.
  unfold double_of_Z, binary_normalize, binary_round, shl_align, normal_form.
  assert (Hf : (fexp prec emax (Zpos (digits2_pos p) + 0) - 0
                = Zpos (digits2_pos p) - 53)%Z).
  { unfold fexp, SpecFloat.emin, prec, emax. lia. }
  replace (fexp prec emax (Zpos (digits2_pos p) + 0))
    with (Zpos (digits2_pos p) - 53)%Z
    by (unfold fexp, SpecFloat.emin, prec, emax; lia).
  rewrite Z.sub_0_r.
  destruct (Zpos (digits2_pos p) - 53)%Z as [|d|d] eqn:Hdiff; cbn [fst snd].
  - apply binary_round_aux_exact; lia.
  - lia.
  - rewrite <- Hdiff at 2.
    replace (Zpos (digits2_pos p) - 53)%Z with (Zneg d).
    apply binary_round_aux_exact.
    + rewrite digits2_pos_shift. lia.
    + lia.
Qed.

Lemma normal_form_inj (p q : positive) :
  normal_form p = normal_form q -> p = q.
Proof.
  unfold normal_form.
  destruct (Zpos (digits2_pos p) - 53)%Z as [|d|d] eqn:Hp;
    destruct (Zpos (digits2_pos q) - 53)%Z as [|d'|d'] eqn:Hq;
    intros H; pose proof (f_equal fst H) as H1; pose proof (f_equal snd H) as H2;
    cbn [fst snd] in H1, H2; try discriminate H2; try congruence; try lia.
  injection H2 as <-. now apply shift_inj in H1.
Qed.

Lemma SFeqb_finite (m1 m2 : positive) (e1 e2 : Z) :
  SFeqb (S754_finite false m1 e1) (S754_finite false m2 e2)
  = (Z.eqb e1 e2 && Pos.eqb m1 m2).
Proof.
  unfold SFeqb, SFcompare.
  destruct (Z.compare_spec e1 e2) as [-> | H | H].
  - rewrite Z.eqb_refl. cbn [andb].
    change (Pos.compare_cont Eq m1 m2) with (Pos.compare m1 m2).
    destruct (Pos.compare_spec m1 m2) as [-> | H | H].
    + now rewrite Pos.eqb_refl.
    + symmetry. apply Pos.eqb_neq. lia.
    + symmetry. apply Pos.eqb_neq. lia.
  - replace (e1 =? e2)%Z with false; [reflexivity|].
    symmetry. apply Z.eqb_neq. lia.
  - replace (e1 =? e2)%Z with false; [reflexivity|].
    symmetry. apply Z.eqb_neq. lia.
Qed.

(** Two integers from 0 to [2 ^ 53 - 1] have equal doubles exactly when
    they are equal. *)
Lemma double_of_Z_eqb (n m : Z) :
  (0 <= n < 2 ^ 53)%Z -> (0 <= m < 2 ^ 53)%Z ->
  SFeqb (double_of_Z n) (double_of_Z m) = Z.eqb n m.
Proof.
  intros Hn Hm.
  destruct n as [|p|p]; [| |lia]; destruct m as [|q|q]; try lia.
  - reflexivity.
  - rewrite (double_of_pos q) by lia. reflexivity.
  - rewrite (double_of_pos p) by lia. reflexivity.
  - rewrite (double_of_pos p), (double_of_pos q) by lia.
    rewrite SFeqb_finite.
    destruct (Z.eqb_spec (Zpos p) (Zpos q)) as [H | H].
    + injection H as ->. now rewrite Z.eqb_refl, Pos.eqb_refl.
    + destruct (Z.eqb_spec (snd (normal_form p)) (snd (normal_form q)))
        as [He | He]; [|reflexivity].
      destruct (Pos.eqb_spec (fst (normal_form p)) (fst (normal_form q)))
        as [Hf | Hf]; [|reflexivity].
      exfalso. apply H. f_equal. apply normal_form_inj.
      now apply injective_projections.
Qed.

(** The primitive float of an integer below [2 ^ 63]. *)
Lemma double_of_Z_prim (n : Z) :
  (0 <= n < 2 ^ 63)%Z ->
  double_of_Z n = Prim2SF (of_uint63 (Uint63.of_Z n)).
Proof.
  intros Hn. rewrite of_uint63_spec. unfold double_of_Z. f_equal.
  rewrite Uint63.of_Z_spec. symmetry. apply Z.mod_small.
  change Uint63.wB with (2 ^ 63)%Z. lia.
Qed.

Lemma double_of_Z_valid (n : Z) :
  (0 <= n < 2 ^ 63)%Z -> valid_binary (double_of_Z n) = true.
Proof.
  intros Hn. rewrite double_of_Z_prim by exact Hn. apply Prim2SF_valid.
Qed.

(** ** Reading the decimal digits of an integer *)

Lemma units_uint_units (d : Decimal.uint) : units_uint (uint_units d) = d.
Proof. induction d; cbn; now rewrite ?IHd. Qed.

Lemma uint_units_digits (d : Decimal.uint) :
  Forall (fun c => is_digit c = true) (uint_units d).
Proof. induction d; cbn [uint_units]; constructor; auto. Qed.

Lemma digit_not_white (c : N) : is_digit c = true -> is_white c = false.
Proof.
  unfold is_digit. intros H. apply andb_true_iff in H as [H1 H2].
  apply N.leb_le in H1, H2.
  unfold is_white. cbn [existsb].
  repeat match goal with
  | |- context [N.eqb c ?k] =>
      replace (N.eqb c k) with false by (symmetry; apply N.eqb_neq; lia)
  end.
  reflexivity.
Qed.

Lemma trimStart_digits (s : jsstring) :
  match s with [] => True | c :: _ => is_digit c = true end -> trimStart s = s.
Proof.
  destruct s as [|c s]; [reflexivity|]. intros Hc. cbn [trimStart].
  now rewrite digit_not_white.
Qed.

Lemma trim_digits (s : jsstring) :
  Forall (fun c => is_digit c = true) s -> trim s = s.
Proof.
  intros Hs. unfold trim. rewrite (trimStart_digits s).
  - rewrite trimStart_digits; [apply rev_involutive|].
    apply Forall_rev in Hs. destruct (rev s); [exact I|].
    now inversion Hs.
  - destruct s; [exact I | now inversion Hs].
Qed.

Lemma span_digits_all (s : jsstring) :
  Forall (fun c => is_digit c = true) s -> span_digits s = (s, []).
Proof.
  induction 1 as [|c s Hc _ IH]; [reflexivity|].
  cbn [span_digits]. now rewrite Hc, IH.
Qed.

Lemma non_decimal_digits (s : jsstring) :
  Forall (fun c => is_digit c = true) s -> non_decimal s = None.
Proof.
  intros Hs. destruct s as [|z [|p [|c r]]]; try reflexivity.
  apply Forall_cons_iff in Hs as [_ Hs]. apply Forall_cons_iff in Hs as [Hp _].
  unfold is_digit in Hp. apply andb_true_iff in Hp as [H1 H2].
  apply N.leb_le in H1, H2.
  unfold non_decimal.
  replace (p =? 120)%N with false by (symmetry; apply N.eqb_neq; lia).
  replace (p =? 88)%N with false by (symmetry; apply N.eqb_neq; lia).
  replace (p =? 111)%N with false by (symmetry; apply N.eqb_neq; lia).
  replace (p =? 79)%N with false by (symmetry; apply N.eqb_neq; lia).
  replace (p =? 98)%N with false by (symmetry; apply N.eqb_neq; lia).
  replace (p =? 66)%N with false by (symmetry; apply N.eqb_neq; lia).
  cbn [orb]. now destruct (negb (z =? 48)%N).
Qed.

(** The decimal digits of [n] are read as the double of [n]. *)
Lemma StringToNumber_decimal (n : N) :
  StringToNumber (decimal n) = SF2Prim (double_of_Z (Z.of_N n)).
Proof.
  unfold decimal.
  pose proof (uint_units_digits (N.to_uint n)) as Hdigits.
  assert (Hvalue : digits_value (uint_units (N.to_uint n)) = Z.of_N n).
  { unfold digits_value. rewrite units_uint_units.
    now rewrite DecimalN.Unsigned.of_to. }
  unfold StringToNumber. rewrite trim_digits by exact Hdigits.
  rewrite non_decimal_digits by exact Hdigits.
  destruct (uint_units (N.to_uint n)) as [|c r] eqn:Hunits.
  { cbn in Hvalue. now rewrite <- Hvalue. }
  pose proof (proj1 (proj1 (Forall_cons_iff _ _ _) Hdigits)) as Hc.
  unfold is_digit in Hc. apply andb_true_iff in Hc as [H1 H2].
  apply N.leb_le in H1, H2.
  replace (c =? 43)%N with false by (symmetry; apply N.eqb_neq; lia).
  replace (c =? 45)%N with false by (symmetry; apply N.eqb_neq; lia).
  replace (str_eqb (c :: r) (lit "Infinity")) with false.
  2:{ cbn [lit list_ascii_of_string map str_eqb].
      replace (c =? N_of_ascii "I")%N with false; [reflexivity|].
      symmetry. apply N.eqb_neq. cbn. lia. }
  unfold unsigned_decimal. rewrite span_digits_all by exact Hdigits.
  rewrite app_nil_r. cbn [exponent_part List.length Z.of_nat].
  rewrite Hvalue, Z.sub_0_r. unfold round_decimal.
  destruct (Z.eqb_spec (Z.of_N n) 0) as [-> | Hne]; [reflexivity|].
  cbn [Z.leb Z.compare]. now rewrite Z.pow_0_r, Z.mul_1_r.
Qed.

(** Readings of [StringToNumber]. *)
Example StringToNumber_runs :
  StringToNumber (lit "1700000000000") = 1700000000000%float
  /\ StringToNumber (lit " 12 ") = 12%float
  /\ StringToNumber (lit "") = 0%float
  /\ StringToNumber (lit "-12.5e1") = (-125)%float
  /\ StringToNumber (lit ".5") = 0.5%float
  /\ StringToNumber (lit "0.1") = 0x1.999999999999ap-4%float
  /\ StringToNumber (lit "0x1F") = 31%float
  /\ StringToNumber (lit "9007199254740993") = 9007199254740992%float
  /\ StringToNumber (lit "1e400") = infinity
  /\ StringToNumber (lit "-Infinity") = neg_infinity
  /\ PrimFloat.is_nan (StringToNumber (lit "12px")) = true
  /\ PrimFloat.is_nan (StringToNumber (lit "+0x10")) = true
  /\ PrimFloat.is_nan (StringToNumber (lit "1e")) = true.
Proof. repeat split; vm_compute; reflexivity. Qed.

(** Readings of [==]: a number meets the number the path writes, a string
    only itself. *)
Example IsLooselyEqual_runs :
  let to_text (x : float) := lit "5" in
  IsLooselyEqual to_text (Some (JNumber 5%float)) (lit "5.0") = true
  /\ IsLooselyEqual to_text (Some (JString (lit "5"))) (lit "5.0") = false
  /\ IsLooselyEqual to_text (Some (JNumber 5%float)) (lit "6") = false
  /\ IsLooselyEqual to_text (Some (JBool true)) (lit "1") = true
  /\ IsLooselyEqual to_text (Some JNull) (lit "null") = false
  /\ IsLooselyEqual to_text None (lit "undefined") = false
  /\ IsLooselyEqual to_text (Some (JArray [JString (lit "a"); JNull; JString (lit "b")]))
       (lit "a,,b") = true
  /\ IsLooselyEqual to_text (Some (JObject [])) (lit "[object Object]") = true.
Proof. cbv zeta. repeat split; vm_compute; reflexivity. Qed.

(** ** The comparison of the handler on the ids that occur *)

Lemma matches_string number_to_string (e : record) (s id : jsstring) :
  string_id e s ->
  matches (IsLooselyEqual number_to_string) id e = str_eqb s id.
Proof. unfold string_id, matches. now intros ->. Qed.

(** A stored timestamp is found by its decimal digits and by those of no
    other integer. *)
Lemma matches_integer number_to_string (e : record) (n : Z) (m : N) :
  integer_id e n -> (0 <= n < 2 ^ 53)%Z -> (Z.of_N m < 2 ^ 53)%Z ->
  matches (IsLooselyEqual number_to_string) (decimal m) e = Z.eqb n (Z.of_N m).
Proof.
  intros (x & Hget & Hx) Hn Hm. unfold matches. rewrite Hget.
  cbn [IsLooselyEqual]. rewrite StringToNumber_decimal, eqb_spec, Hx.
  rewrite Prim2SF_SF2Prim by (apply double_of_Z_valid; lia).
  apply double_of_Z_eqb; lia.
Qed.

Lemma integer_id_unique (e : record) (n m : Z) :
  (0 <= n < 2 ^ 53)%Z -> (0 <= m < 2 ^ 53)%Z ->
  integer_id e n -> integer_id e m -> n = m.
Proof.
  intros Hn Hm (x & Hget & Hx) (y & Hget' & Hy).
  rewrite Hget in Hget'. injection Hget' as <-.
  apply Z.eqb_eq. rewrite <- (double_of_Z_eqb n m Hn Hm), <- Hx, Hy.
  rewrite (double_of_Z_eqb m m Hm Hm). apply Z.eqb_refl.
Qed.


(** What JSON makes of a status: [-0] is stored as [0], an overflowing
    number as [null], a missing status removes the field. *)
Example put_emergency_writes_json :
  let to_text (x : float) := lit "number" in
  let file := [[(lit "id", JString (lit "b2")); (lit "status", JString (lit "pending"))]] in
  snd (put_emergency (IsLooselyEqual to_text) file (lit "b2")
         (Some (JNumber (-0)%float)))
  = [[(lit "id", JString (lit "b2")); (lit "status", JNumber 0%float)]]
  /\ snd (put_emergency (IsLooselyEqual to_text) file (lit "b2")
            (Some (JArray [JNumber infinity; JString (lit "x")])))
     = [[(lit "id", JString (lit "b2"));
         (lit "status", JArray [JNull; JString (lit "x")])]]
  /\ snd (put_emergency (IsLooselyEqual to_text) file (lit "b2") None)
     = [[(lit "id", JString (lit "b2"))]].
Proof. cbv zeta. repeat split; vm_compute; reflexivity. Qed.

(** A run on a file of two timestamps and a string id: the path
    "1700000000001" finds the second record, which gets the new status and
    is returned; the path "1700000000002" finds nothing. *)
Example put_emergency_run :
  let to_text (x : float) := lit "number" in
  let file :=
    [[(lit "id", JNumber 1700000000000%float);
      (lit "status", JString (lit "pending"))];
     [(lit "id", JNumber 1700000000001%float); (lit "note", JString (lit "flood"));
      (lit "status", JString (lit "pending"))];
     [(lit "id", JString (lit "b2")); (lit "status", JString (lit "pending"))]] in
  put_emergency (IsLooselyEqual to_text) file (lit "1700000000001")
    (Some (JString (lit "resolved")))
  = (Reply 200
       (JObject [(lit "id", JNumber 1700000000001%float);
                 (lit "note", JString (lit "flood"));
                 (lit "status", JString (lit "resolved"))]),
     [[(lit "id", JNumber 1700000000000%float);
       (lit "status", JString (lit "pending"))];
      [(lit "id", JNumber 1700000000001%float); (lit "note", JString (lit "flood"));
       (lit "status", JString (lit "resolved"))];
      [(lit "id", JString (lit "b2")); (lit "status", JString (lit "pending"))]])
  /\ reply_status
       (fst (put_emergency (IsLooselyEqual to_text) file (lit "1700000000002")
               (Some (JString (lit "resolved"))))) = 404
  /\ reply_status
       (fst (put_emergency (IsLooselyEqual to_text) file (lit "b2")
               (Some (JString (lit "resolved"))))) = 200
  /\ integer_id (nth 1 file []) 1700000000001
  /\ decimal 1700000000001 = lit "1700000000001".
Proof.
  cbv zeta. split; [vm_compute; reflexivity|].
  split; [vm_compute; reflexivity|]. split; [vm_compute; reflexivity|].
  split; [|vm_compute; reflexivity].
  eexists. split; [reflexivity|]. vm_compute. reflexivity.
Qed.

End ServerFacts.

(** ** Handshakes *)

Lemma onConnectionOpen_sends env conn isIncoming s :
  sent_messages (effects (onConnectionOpen env conn isIncoming) s)
  = [Handshake (deviceName s) (env_now env (clock_reads s))
       (match peer s with Some id => id | None => lit "bluetooth-only" end)
       (lit "webrtc")].
Proof.
  unfold effects, onConnectionOpen, sendHandshake, connSend,
    updateActiveConnections, updateConnectionStatus, showToast.
  destruct (env_send_throws env (conn_id conn)); reflexivity.
Qed.

Lemma connectBluetoothDevice_handshake env utf8_json device s server service chr :
  env_gatt_connect env (dev_id device) = Some server ->
  env_primary_service env server = Some service ->
  env_message_characteristic env service = Some chr ->
  env_start_notifications env (chr_id chr) = true ->
  exists before behind,
    effects (connectBluetoothDevice env utf8_json device) s
    = before
      ++ effects
           (writeBluetoothMessage env utf8_json chr
              (Some (BluetoothHandshake (deviceName s) (env_now env (clock_reads s))
                       (dev_id device)
                       [lit "messaging"; lit "emergency"; lit "file-transfer"])))
           s
      ++ behind.
Proof.
  intros Hgatt Hservice Hchar Hnotify.
  destruct (stateless_writeBluetoothMessage env utf8_json chr
              (Some (BluetoothHandshake (deviceName s) (env_now env (clock_reads s))
                       (dev_id device)
                       [lit "messaging"; lit "emergency"; lit "file-transfer"])))
    as (r & t & Hr & Hrun).
  unfold effects at 2. rewrite Hrun. cbn [snd].
  unfold effects, connectBluetoothDevice.
  rewrite Hgatt, Hservice, Hchar.
  unfold tryCatch at 1.
  unfold showToast at 1. rewrite bind_emit, bind_modify, bind_console, bind_modify.
  unfold startNotifications. rewrite Hnotify, bind_ret, bind_modify.
  unfold updateActiveConnections. rewrite bind_bind, bind_getApp, bind_emit.
  unfold showToast at 1, updateConnectionStatus. rewrite !bind_emit.
  unfold sendBluetoothHandshake. rewrite bind_getApp, bind_dateNow.
  rewrite Hrun. unfold after.
  destruct r as [[] | e |]; [| |congruence].
  - eexists [_; _; _; _; _], []. rewrite app_nil_r. reflexivity.
  - eexists [_; _; _; _; _], [_; _]. reflexivity.
Qed.

(** C8, as stated, fails on the direct transport: the object
    [sendHandshake] hands to [conn.send] has the fields [type],
    [deviceName], [timestamp], [peerId] and [connectionType], and no
    capability list. *)
Lemma direct_handshake_carries_no_capabilities :
  ~ (forall (conn : DataConnection) (isIncoming : bool),
       exists m,
         In m (sent_messages
                 (effects (onConnectionOpen calm_env conn isIncoming)
                    (constructed None)))
         /\ is_handshake m = true
         /\ capabilities_of m <> None).
Proof.
  intros H.
  destruct (H (sample_conn 1 "peer-a") true) as (m & Hin & _ & Hcap).
  rewrite onConnectionOpen_sends in Hin.
  destruct Hin as [<- | []]. now apply Hcap.
Qed.

(** C8 (amended). On every open of a direct connection, inbound or
    outbound, the handler sends one [handshake] with the local display
    name, a timestamp, the local peer id (or ["bluetooth-only"]) and the
    connection type ["webrtc"], without a capability list. On a constrained
    connection made through the emergency service and its message
    characteristic, the connect routine writes a [bluetooth-handshake] with
    the local display name, a timestamp, the id of the remote device and
    the capability list messaging, emergency, file-transfer. *)
Theorem handshake_sent_on_open
  (env : Env) (utf8_json : Message -> list byte) (s : App)
  (conn : DataConnection) (isIncoming : bool)
  (device : BluetoothDevice) (server service : nat) (chr : Characteristic) :
  env_gatt_connect env (dev_id device) = Some server ->
  env_primary_service env server = Some service ->
  env_message_characteristic env service = Some chr ->
  env_start_notifications env (chr_id chr) = true ->
  sent_messages (effects (onConnectionOpen env conn isIncoming) s)
  = [Handshake (deviceName s) (env_now env (clock_reads s))
       (match peer s with Some id => id | None => lit "bluetooth-only" end)
       (lit "webrtc")]
  /\ contains (effects (connectBluetoothDevice env utf8_json device) s)
       (effects
          (writeBluetoothMessage env utf8_json chr
             (Some (BluetoothHandshake (deviceName s)
                      (env_now env (clock_reads s)) (dev_id device)
                      [lit "messaging"; lit "emergency"; lit "file-transfer"])))
          s).
Proof.
  intros Hgatt Hservice Hchar Hnotify. split.
  - apply onConnectionOpen_sends.
  - now apply (connectBluetoothDevice_handshake env utf8_json device s
                 server service chr).
Qed.

Lemma handshake_sent_on_open_witness :
  env_gatt_connect calm_env (dev_id (sample_device "dev-x")) = Some 1
  /\ env_primary_service calm_env 1 = Some 2
  /\ env_message_characteristic calm_env 2 = Some sample_characteristic
  /\ env_start_notifications calm_env (chr_id sample_characteristic) = true
  /\ sent_messages
       (effects (onConnectionOpen calm_env (sample_conn 1 "peer-a") true)
          sample_app)
     = [Handshake (lit "Emergency Device") 1700000000000 (lit "emergency-me")
          (lit "webrtc")]
  /\ contains
       (effects (connectBluetoothDevice calm_env type_only_json
                   (sample_device "dev-x")) sample_app)
       (effects
          (writeBluetoothMessage calm_env type_only_json sample_characteristic
             (Some (BluetoothHandshake (lit "Emergency Device") 1700000000000
                      (lit "dev-x")
                      [lit "messaging"; lit "emergency"; lit "file-transfer"])))
          sample_app).
Proof.
  split; [reflexivity|]. split; [reflexivity|]. split; [reflexivity|].
  split; [reflexivity|].
  apply (handshake_sent_on_open calm_env type_only_json sample_app
           (sample_conn 1 "peer-a") true (sample_device "dev-x") 1 2
           sample_characteristic); reflexivity.
Defined.

(** In the generic fallback (no emergency service, some writable
    characteristic) the entry is registered and nothing is written. *)
Example generic_connection_sends_no_handshake :
  let env :=
    {| env_now := env_now calm_env;
       env_messageId := env_messageId calm_env;
       env_conn_open := env_conn_open calm_env;
       env_send_throws := env_send_throws calm_env;
       env_write_rejects := env_write_rejects calm_env;
       env_geolocation := env_geolocation calm_env;
       env_readAsDataURL := env_readAsDataURL calm_env;
       env_gatt_connect := env_gatt_connect calm_env;
       env_primary_service := fun _ => None;
       env_message_characteristic := env_message_characteristic calm_env;
       env_start_notifications := env_start_notifications calm_env;
       env_primary_services := fun _ => Some [5];
       env_characteristics := fun _ => Some [sample_characteristic] |} in
  let run := connectBluetoothDevice env type_only_json (sample_device "dev-x")
               (constructed None) in
  map (fun e => bt_type (snd e)) (bluetoothConnections (state_of run))
  = [lit "bluetooth-generic"]
  /\ write_times zero_latency 0 0 0 (snd run) = [].
Proof. split; vm_compute; reflexivity. Qed.

(* ===================================================================== *)
(** * Part III. Further properties of the code                            *)
(* ===================================================================== *)

(** ** The incident-log server, continued *)

Lemma JsMap_get_app {V : Type} (m1 m2 : JsMap.t V) k :
  JsMap.get (m1 ++ m2) k
  = match JsMap.get m1 k with
    | Some v => Some v
    | None => JsMap.get m2 k
    end.
Proof.
  induction m1 as [|[k' v'] m1 IH]; [reflexivity|].
  cbn [List.app JsMap.get]. destruct (str_eqb k' k); [reflexivity | exact IH].
Qed.

Lemma JsMap_set_set {V : Type} (m : JsMap.t V) k v :
  JsMap.set (JsMap.set m k v) k v = JsMap.set m k v.
Proof.
  induction m as [|[k' v'] m IH]; cbn [JsMap.set].
  - now rewrite str_eqb_refl.
  - destruct (str_eqb k' k) eqn:E; cbn [JsMap.set]; rewrite E;
      [reflexivity | now rewrite IH].
Qed.

Lemma JsMap_get_spread {V : Type} (body : JsMap.t V) : forall (m : JsMap.t V) k,
  JsMap.get (fold_left (fun o kv => JsMap.set o (fst kv) (snd kv)) body m) k
  = match JsMap.get (rev body) k with
    | Some v => Some v
    | None => JsMap.get m k
    end.
Proof.
  induction body as [|[k' v'] rest IH]; intros m k; [reflexivity|].
  cbn [fold_left rev fst snd]. rewrite IH, JsMap_get_app.
  destruct (JsMap.get (rev rest) k); [reflexivity|].
  cbn [JsMap.get]. destruct (str_eqb k' k) eqn:E.
  - apply str_eqb_eq in E. subst k'. apply JsMap_get_set_same.
  - apply JsMap_get_set_other. intros ->. now rewrite str_eqb_refl in E.
Qed.

Module ServerMore.

Import Server.

Lemma assign_status_idem status (e : record) :
  assign_status status (assign_status status e) = assign_status status e.
Proof.
  destruct status as [v|]; cbn [assign_status].
  - apply JsMap_set_set.
  - apply JsMap_delete_idem.
Qed.

Lemma matches_assign_status loose_eq id status (e : record) :
  matches loose_eq id (assign_status status e) = matches loose_eq id e.
Proof.
  unfold matches. rewrite ServerFacts.assign_status_other; [reflexivity|].
  intros H. vm_compute in H. discriminate H.
Qed.

Lemma findIndex_ext {A : Type} (p q : A -> bool) (l : list A) :
  (forall x, In x l -> p x = q x) -> findIndex p l = findIndex q l.
Proof.
  induction l as [|x rest IH]; intros H; [reflexivity|].
  cbn [findIndex]. rewrite (H x (or_introl eq_refl)).
  rewrite IH; [reflexivity|]. intros y Hy. apply H. now right.
Qed.

Lemma findIndex_map {A B : Type} (f : A -> B) (p : B -> bool) (l : list A) :
  findIndex p (map f l) = findIndex (fun x => p (f x)) l.
Proof.
  induction l as [|x rest IH]; [reflexivity|].
  cbn [map findIndex]. now rewrite IH.
Qed.

(** Updating one record by a function that keeps [p] keeps every index
    [findIndex] gives. *)
Lemma findIndex_update_at {A : Type} (p : A -> bool) (f : A -> A) (l : list A) :
  (forall x, p (f x) = p x) ->
  forall i, findIndex p (update_at i f l) = findIndex p l.
Proof.
  intros Hf. induction l as [|x rest IH]; intros [|i]; cbn [update_at findIndex];
    try reflexivity.
  - now rewrite Hf.
  - now rewrite IH.
Qed.

Lemma update_at_idem {A : Type} (f : A -> A) (l : list A) :
  (forall x, f (f x) = f x) ->
  forall i, update_at i f (update_at i f l) = update_at i f l.
Proof.
  intros Hf. induction l as [|x rest IH]; intros [|i]; cbn [update_at];
    try reflexivity.
  - now rewrite Hf.
  - now rewrite IH.
Qed.


(** A run: the body's [status] is overridden, its [id] is kept. *)
Example post_emergency_run :
  snd (post_emergency [] 17%float (lit "t")
         [(lit "id", JString (lit "mine")); (lit "status", JString (lit "done"))])
  = [[(lit "id", JString (lit "mine")); (lit "status", JString (lit "pending"));
      (lit "timestamp", JString (lit "t"))]].
Proof. vm_compute. reflexivity. Qed.



(** X3. [PUT] is idempotent: the same request a second time answers as the
    first did and leaves the file as the first left it. *)
Theorem put_emergency_idempotent
  (loose_eq : option json -> jsstring -> bool)
  (file : list record) (id : jsstring) (status : option json) :
  put_emergency loose_eq (snd (put_emergency loose_eq file id status)) id status
  = put_emergency loose_eq file id status.
Proof.
  unfold put_emergency at 2 3.
  destruct (findIndex (matches loose_eq id) file) as [index|] eqn:Hfind;
    cbn [snd]; unfold put_emergency.
  - rewrite (findIndex_update_at (matches loose_eq id) (assign_status status) file
               (matches_assign_status loose_eq id status) index), Hfind.
    rewrite (update_at_idem (assign_status status) file
               (assign_status_idem status) index).
    reflexivity.
  - now rewrite Hfind.
Qed.

(** X4. [PUT] never changes which record an id leads to: after it, every
    path parameter finds the record at the index where it found it before,
    and there are as many records as before. Only [status] fields move:
    every other field of every record is as it was. *)
Theorem put_emergency_keeps_ids
  (loose_eq : option json -> jsstring -> bool)
  (file : list record) (id id' : jsstring) (status : option json) :
  findIndex (matches loose_eq id') (snd (put_emergency loose_eq file id status))
  = findIndex (matches loose_eq id') file
  /\ map (fun e => JsMap.get e (lit "id"))
       (snd (put_emergency loose_eq file id status))
     = map (fun e => JsMap.get e (lit "id")) file
  /\ (forall key, key <> lit "status" ->
        map (fun e => JsMap.get e key)
          (snd (put_emergency loose_eq file id status))
        = map (fun e => JsMap.get e key) file).
Proof.
  assert (Hfields : forall key, key <> lit "status" ->
            map (fun e => JsMap.get e key)
              (snd (put_emergency loose_eq file id status))
            = map (fun e => JsMap.get e key) file).
  { intros key Hkey. unfold put_emergency.
    destruct (findIndex (matches loose_eq id) file) as [index|]; cbn [snd];
      [|reflexivity].
    revert index.
    induction file as [|e rest IH]; intros [|i]; cbn [update_at map];
      try reflexivity.
    - now rewrite ServerFacts.assign_status_other.
    - now rewrite IH. }
  split; [|split; [|exact Hfields]].
  - unfold put_emergency.
    destruct (findIndex (matches loose_eq id) file) as [index|]; cbn [snd];
      [|reflexivity].
    apply findIndex_update_at. apply matches_assign_status.
  - apply Hfields. intros H. vm_compute in H. discriminate H.
Qed.

End ServerMore.

(** ** What no method does to the registries *)

Lemma In_keys_set {V : Type} (m : JsMap.t V) k v q :
  In q (JsMap.keys (JsMap.set m k v)) -> q = k \/ In q (JsMap.keys m).
Proof.
  unfold JsMap.keys. induction m as [|[k' v'] m IH]; cbn [JsMap.set map fst].
  - intros [<- | []]. now left.
  - destruct (str_eqb k' k); cbn [map fst].
    + intros [<- | H]; right; [now left | now right].
    + intros [<- | H]; [right; now left|].
      destruct (IH H) as [-> | H']; [now left | right; now right].
Qed.

Lemma NoDup_keys_set {V : Type} (m : JsMap.t V) k v :
  NoDup (JsMap.keys m) -> NoDup (JsMap.keys (JsMap.set m k v)).
Proof.
  induction m as [|[k' v'] m IH]; cbn [JsMap.set].
  - intros _. constructor; [intros [] | constructor].
  - intros Hnd. inversion Hnd as [|? ? Hnotin Hrest]; subst.
    destruct (str_eqb k' k) eqn:E.
    + exact Hnd.
    + unfold JsMap.keys in *. cbn [map fst]. constructor; [|now apply IH].
      intros Hin. apply In_keys_set in Hin. destruct Hin as [-> | Hin].
      * now rewrite str_eqb_refl in E.
      * contradiction.
Qed.

Lemma NoDup_keys_delete {V : Type} (m : JsMap.t V) k :
  NoDup (JsMap.keys m) -> NoDup (JsMap.keys (JsMap.delete m k)).
Proof.
  unfold JsMap.keys, JsMap.delete.
  induction m as [|[k' v'] m IH]; cbn [filter map fst]; [trivial|].
  intros Hnd. inversion Hnd as [|? ? Hnotin Hrest]; subst.
  destruct (negb (str_eqb k' k)); [|now apply IH].
  cbn [map fst]. constructor; [|now apply IH].
  intros Hin. apply Hnotin.
  apply in_map_iff in Hin. destruct Hin as ([q d] & Hq & Hin).
  apply filter_In in Hin. apply in_map_iff. exists (q, d). tauto.
Qed.

Section MorePreservation.

Context (R : App -> App -> Prop) `{Frame R}.

Lemma preserves_pending {A : Type} : preserves R (@pending A).
Proof. intros s. apply frame_refl. Qed.

Lemma preserves_generateMessageId env : preserves R (generateMessageId env).
Proof. intros s. apply frame_clock. Qed.

Lemma preserves_forEach {V : Type} (entries : JsMap.t V)
  (f : V -> jsstring -> M unit) :
  (forall v k, preserves R (f v k)) -> preserves R (forEach entries f).
Proof.
  intros Hf. induction entries as [|[k v] rest IH]; cbn [forEach].
  - apply (preserves_ret R).
  - apply (preserves_bind R); [apply Hf | intros _; exact IH].
Qed.

Lemma preserves_connSend env conn m : preserves R (connSend env conn m).
Proof. apply (preserves_stateless R), stateless_connSend. Qed.

End MorePreservation.

(** [frame_steps], with the loops over the registries and the remaining
    primitives. *)
Ltac frame_all :=
  repeat first
    [ progress frame_steps
    | match goal with
      | |- preserves ?R (forEach _ _) => apply (preserves_forEach R); intros ? ?
      | |- preserves ?R (connSend _ _ _) => apply (preserves_connSend R)
      | |- preserves ?R pending => apply (preserves_pending R)
      | |- preserves ?R (generateMessageId _) => apply (preserves_generateMessageId R)
      | |- preserves ?R (displayMessage _ _) => unfold displayMessage
      | |- preserves ?R (displayEmergencyAlert _ _) => unfold displayEmergencyAlert
      | |- preserves ?R (displayFileMessage _ _) => unfold displayFileMessage
      | |- preserves ?R playAlertSound => unfold playAlertSound
      | |- preserves ?R hideFileModal => unfold hideFileModal
      | |- preserves ?R (getCurrentLocation _) => unfold getCurrentLocation
      | |- preserves ?R (fileToBase64 _ _) => unfold fileToBase64
      | |- preserves ?R (handleFileMessage _) => unfold handleFileMessage
      | |- preserves ?R (let x := _ in _) => cbv zeta
      end ].

Lemma sendMessage_keeps env utf8_json :
  preserves same_registries (sendMessage env utf8_json).
Proof. unfold sendMessage. frame_all; split; reflexivity. Qed.

Lemma sendEmergencyAlert_keeps env utf8_json :
  preserves same_registries (sendEmergencyAlert env utf8_json).
Proof. unfold sendEmergencyAlert. frame_all; split; reflexivity. Qed.

Lemma sendFile_keeps env utf8_json :
  preserves same_registries (sendFile env utf8_json).
Proof. unfold sendFile. frame_all; split; reflexivity. Qed.

Lemma handleIncomingMessage_keeps data :
  preserves same_registries (handleIncomingMessage data).
Proof. unfold handleIncomingMessage. frame_all; split; reflexivity. Qed.

Lemma handleBluetoothMessage_keeps decode value :
  preserves same_registries (handleBluetoothMessage decode value).
Proof. unfold handleBluetoothMessage. frame_all; split; reflexivity. Qed.

(** X5. Sending and receiving never change who is registered: whatever
    throws or is rejected on the way, [sendMessage], [sendEmergencyAlert]
    and [sendFile] leave both registries as they were (a failed send is
    logged, its connection stays registered), and so do the two receivers,
    for every received object, a handshake included. *)
Theorem sending_and_receiving_keep_the_registries
  (env : Env) (utf8_json : Message -> list byte) (decode : list byte -> Decoded)
  (data : Message) (value : list byte) (s : App) :
  same_registries s (exec (sendMessage env utf8_json) s)
  /\ same_registries s (exec (sendEmergencyAlert env utf8_json) s)
  /\ same_registries s (exec (sendFile env utf8_json) s)
  /\ same_registries s (exec (handleIncomingMessage data) s)
  /\ same_registries s (exec (handleBluetoothMessage decode value) s).
Proof.
  repeat split.
  all: first [ apply (sendMessage_keeps env utf8_json s)
             | apply (sendEmergencyAlert_keeps env utf8_json s)
             | apply (sendFile_keeps env utf8_json s)
             | apply (handleIncomingMessage_keeps data s)
             | apply (handleBluetoothMessage_keeps decode value s) ].
Qed.

(** X7. Teardown is idempotent on the registries: a close after a close,
    an error after a close, a close after an error and an error after an
    error leave the direct registry as the first handler left it. The Bluetooth disconnect handler
    is moreover silent the second time: no toast, no re-rendering, the state
    untouched. *)
Theorem teardown_is_idempotent
  (conn : DataConnection) (device : BluetoothDevice) (s : App) :
  connections (exec (onConnectionClose conn) (exec (onConnectionClose conn) s))
  = connections (exec (onConnectionClose conn) s)
  /\ connections (exec (onConnectionError conn) (exec (onConnectionClose conn) s))
     = connections (exec (onConnectionClose conn) s)
  /\ connections (exec (onConnectionClose conn) (exec (onConnectionError conn) s))
     = connections (exec (onConnectionError conn) s)
  /\ connections (exec (onConnectionError conn) (exec (onConnectionError conn) s))
     = connections (exec (onConnectionError conn) s)
  /\ handleBluetoothDisconnect device (exec (handleBluetoothDisconnect device) s)
     = (Normal tt, exec (handleBluetoothDisconnect device) s, []).
Proof.
  repeat split.
  - rewrite (proj1 (onConnectionClose_registries conn _)),
      (proj1 (onConnectionClose_registries conn s)).
    apply JsMap_delete_idem.
  - rewrite (proj1 (onConnectionError_registries conn _)),
      (proj1 (onConnectionClose_registries conn s)).
    apply JsMap_delete_idem.
  - rewrite (proj1 (onConnectionClose_registries conn _)),
      (proj1 (onConnectionError_registries conn s)).
    apply JsMap_delete_idem.
  - rewrite (proj1 (onConnectionError_registries conn _)),
      (proj1 (onConnectionError_registries conn s)).
    apply JsMap_delete_idem.
  - destruct (handleBluetoothDisconnect_registries device s) as (_ & Hgone & _).
    unfold handleBluetoothDisconnect at 1. rewrite bind_getApp, Hgone.
    reflexivity.
Qed.

(** ** Receiving *)

(** X8. What a peer running this code shows for each object this code
    sends over a direct connection: a chat message becomes a received
    bubble, an emergency a received alert (with the alert sound), a file a
    file bubble; handshakes, pings and file notifications are only logged.
    No toast is shown, and the handler returns. *)
Theorem direct_receiver_displays (data : Message) (s : App) :
  outcome (handleIncomingMessage data) s = Normal tt
  /\ messages (exec (handleIncomingMessage data) s)
     = messages s
       ++ match data with
          | ChatMessage _ _ _ _ => [MessageBubble data false]
          | Emergency _ _ _ _ _ => [AlertBubble data false]
          | FileMessage _ _ _ _ _ _ _ => [FileBubble data false]
          | _ => []
          end
  /\ toasts (effects (handleIncomingMessage data) s) = []
  /\ (In EvAlertSound (effects (handleIncomingMessage data) s)
      <-> msg_type data = lit "emergency").
Proof.
  split; [destruct data; reflexivity|].
  split; [destruct data; cbn; rewrite ?app_nil_r; reflexivity|].
  split; [destruct data; reflexivity|].
  destruct data; cbn; split; intros H.
  all: try reflexivity.
  all: try (vm_compute in H; discriminate H).
  all: try (repeat (destruct H as [H | H]; try discriminate H); contradiction).
  all: try (right; left; reflexivity).
Qed.

(** One frame on the constrained transport. *)
Lemma handleBluetoothMessage_run decode value s :
  exists s1 tr,
    handleBluetoothMessage decode value s = (Normal tt, s1, tr)
    /\ messages s1 = messages s ++ frame_bubbles (decode value)
    /\ same_registries s s1.
Proof.
  pose proof (handleBluetoothMessage_keeps decode value s) as Hkeep.
  unfold state_of in Hkeep. unfold handleBluetoothMessage in *.
  destruct (decode value) as [m | | |]; [destruct m| | |];
    cbn in *; rewrite ?app_nil_r; eexists; eexists;
    (split; [reflexivity|]); split; try reflexivity; exact Hkeep.
Qed.

(** X9. The constrained receiver has no reassembly: every frame is decoded
    and handled on its own, never throws, and the message list grows by
    exactly the frames that decode, each alone, to a chat message or an
    emergency. A message that was cut into several frames is therefore shown
    only if one of its frames happens to be a whole message. *)
Theorem bluetooth_frames_are_handled_one_by_one
  (decode : list byte -> Decoded) (frames : list (list byte)) (s : App) :
  outcome (receive_frames decode frames) s = Normal tt
  /\ messages (exec (receive_frames decode frames) s)
     = messages s ++ flat_map (fun frame => frame_bubbles (decode frame)) frames
  /\ same_registries s (exec (receive_frames decode frames) s).
Proof.
  revert s. induction frames as [|frame rest IH]; intros s.
  - cbn. rewrite app_nil_r. repeat split.
  - destruct (handleBluetoothMessage_run decode frame s)
      as (s1 & t1 & Hrun & Hm & Hr1).
    destruct (IH s1) as (Hout & Hmsgs & Hr2).
    unfold outcome, exec in *. cbn [receive_frames flat_map].
    unfold bind. rewrite Hrun.
    destruct (receive_frames decode rest s1) as [[r s2] t2]. cbn [fst snd] in *.
    split; [exact Hout|]. split.
    + rewrite Hmsgs, Hm. now rewrite app_assoc.
    + destruct Hr1 as [H1 H2]. destruct Hr2 as [H3 H4]. split; congruence.
Qed.

(** A concrete run: the 18 bytes of a chat message arrive in one frame and
    are shown; the same bytes behind ten blanks are cut in two frames by the
    sender, neither of which decodes, and nothing is shown. *)
Example segmented_message_is_lost :
  let blanks := bytes_of (lit "          ") in
  messages
    (exec (receive_frames sample_decode
             (frames_written
                (effects
                   (writeBluetoothMessage calm_env type_only_json
                      sample_characteristic (Some sample_chat))
                   (constructed None))))
       (constructed None))
  = [MessageBubble sample_chat false]
  /\ map (@List.length byte)
       (frames_written
          (effects
             (writeBluetoothMessage calm_env
                (fun m => blanks ++ type_only_json m)
                sample_characteristic (Some sample_chat))
             (constructed None)))
     = [20; 8]
  /\ messages
       (exec (receive_frames
                (fun value =>
                   if bytes_eqb value (blanks ++ type_only_json sample_chat)
                   then DecodedMessage sample_chat else DecodeFailure)
                (frames_written
                   (effects
                      (writeBluetoothMessage calm_env
                         (fun m => blanks ++ type_only_json m)
                         sample_characteristic (Some sample_chat))
                      (constructed None))))
          (constructed None))
     = [].
Proof. repeat split; vm_compute; reflexivity. Qed.

(** X10. A file notification is never shown to anybody. Over a direct
    connection its [type] is none of the cases of [handleIncomingMessage],
    and on the constrained transport, where [sendFile] sends it, it is none
    of the cases of [handleBluetoothMessage]: both receivers log it as
    unknown and change nothing. The branch of [handleFileMessage] that would
    show its note is reached by neither. *)
Theorem file_notification_is_never_shown
  (decode : list byte -> Decoded) (value : list byte) (s : App)
  (fileName : jsstring) (fileSize : N) (fileType sender : jsstring)
  (timestamp : Z) (id message : jsstring) :
  decode value
  = DecodedMessage
      (FileNotification fileName fileSize fileType sender timestamp id message) ->
  handleBluetoothMessage decode value s
  = (Normal tt, s,
     [EvConsole (lit "log") (lit "Received Bluetooth message:");
      EvConsole (lit "log") (lit "Unknown Bluetooth message type:")])
  /\ handleIncomingMessage
       (FileNotification fileName fileSize fileType sender timestamp id message) s
     = (Normal tt, s,
        [EvConsole (lit "log") (lit "Received message:");
         EvConsole (lit "log") (lit "Unknown message type:")])
  /\ messages
       (exec (handleFileMessage
                (FileNotification fileName fileSize fileType sender timestamp id
                   message)) s)
     = messages s ++ [MessageBubble (ChatMessage message sender timestamp id) false].
Proof.
  intros Hdecode. unfold handleBluetoothMessage. rewrite Hdecode.
  repeat split.
Qed.

Lemma file_notification_is_never_shown_witness :
  sample_decode (type_only_json sample_notification)
  = DecodedMessage sample_notification
  /\ handleBluetoothMessage sample_decode (type_only_json sample_notification)
       sample_app
     = (Normal tt, sample_app,
        [EvConsole (lit "log") (lit "Received Bluetooth message:");
         EvConsole (lit "log") (lit "Unknown Bluetooth message type:")]).
Proof.
  split; [reflexivity|].
  apply (file_notification_is_never_shown sample_decode
           (type_only_json sample_notification) sample_app
           (lit "map.txt") 2 (lit "text/plain") (lit "Field Unit")
           1700000000000 (lit "id1") (lit "File shared")).
  reflexivity.
Defined.

(** ** Failures on the constrained transport *)

Lemma firstn_add {A : Type} (a b : nat) (l : list A) :
  firstn (a + b) l = firstn a l ++ firstn b (skipn a l).
Proof.
  revert l. induction a as [|a IH]; intros l; [reflexivity|].
  destruct l as [|x l]; cbn [Nat.add firstn skipn List.app].
  - now rewrite firstn_nil.
  - now rewrite IH.
Qed.

Lemma frames_loop_trace_prefix n chr msg : forall i,
  List.concat (frames_written (loop_trace n chr msg i))
  = firstn (20 * n) (skipn i msg).
Proof.
  induction n as [|n IH]; intros i; [reflexivity|].
  cbn [loop_trace frames_written List.concat].
  rewrite IH, slice_chunk, skipn_add.
  replace (20 * S n) with (maxChunkSize + 20 * n) by (unfold maxChunkSize; lia).
  now rewrite firstn_add.
Qed.

Lemma frames_written_app tr1 tr2 :
  frames_written (tr1 ++ tr2) = frames_written tr1 ++ frames_written tr2.
Proof.
  induction tr1 as [|e tr1 IH]; [reflexivity|].
  destruct e; cbn [List.app frames_written]; rewrite ?IH; reflexivity.
Qed.

(** The chunk loop with its first rejected write at turn [k]. *)
Lemma chunk_loop_rejected env chr msg : forall k fuel i s,
  (forall j, j < k -> env_write_rejects env (chr_id chr) (i + 20 * j) = false) ->
  env_write_rejects env (chr_id chr) (i + 20 * k) = true ->
  i + 20 * k < List.length msg ->
  k < fuel ->
  chunk_loop env fuel chr msg i s
  = (Throw (lit "GATT write failed"), s,
     loop_trace k chr msg i
     ++ [EvWriteRejected (chr_id chr)
           (slice msg (i + 20 * k) (i + 20 * k + maxChunkSize))]).
Proof.
  induction k as [|k IH]; intros fuel i s Hacc Hrej Hlen Hfuel;
    (destruct fuel as [|fuel]; [lia|]); cbn [chunk_loop].
  - replace (i + 20 * 0) with i in * by lia.
    replace (i <? List.length msg) with true
      by (symmetry; apply Nat.ltb_lt; lia).
    unfold bind at 1, writeValue. rewrite Hrej. reflexivity.
  - replace (i <? List.length msg) with true
      by (symmetry; apply Nat.ltb_lt; lia).
    unfold bind at 1, writeValue.
    replace (env_write_rejects env (chr_id chr) i) with false
      by (symmetry; rewrite <- (Hacc 0) by lia; f_equal; lia).
    unfold emit at 1. unfold bind at 1, sleep, emit.
    rewrite (IH fuel (i + maxChunkSize) s).
    + cbn [loop_trace List.app].
      replace (i + maxChunkSize + 20 * k) with (i + 20 * S k)
        by (unfold maxChunkSize; lia).
      reflexivity.
    + intros j Hj. rewrite <- (Hacc (S j)) by lia. f_equal.
      unfold maxChunkSize. lia.
    + rewrite <- Hrej. f_equal. unfold maxChunkSize. lia.
    + unfold maxChunkSize. lia.
    + lia.
Qed.

Lemma writeBluetoothMessage_rejected env utf8_json chr data s k :
  (forall j, j < k -> env_write_rejects env (chr_id chr) (20 * j) = false) ->
  env_write_rejects env (chr_id chr) (20 * k) = true ->
  k = 0 \/ 20 * k < List.length (encodePayload utf8_json data) ->
  writeBluetoothMessage env utf8_json chr data s
  = (Throw (lit "GATT write failed"), s,
     loop_trace k chr (encodePayload utf8_json data) 0
     ++ [EvWriteRejected (chr_id chr)
           (slice (encodePayload utf8_json data) (20 * k) (20 * k + maxChunkSize));
         EvConsole (lit "error") (lit "Failed to write Bluetooth message:")]).
Proof.
  intros Hacc Hrej Hk. unfold writeBluetoothMessage.
  set (payload := encodePayload utf8_json data) in *.
  destruct (List.length payload <=? maxChunkSize) eqn:Hlen.
  - apply Nat.leb_le in Hlen. unfold maxChunkSize in Hlen.
    assert (k = 0) by lia. subst k. rewrite Nat.mul_0_r in *.
    unfold tryCatch, writeValue. rewrite Hrej.
    rewrite slice_chunk. cbn [skipn]. rewrite firstn_all2 by exact Hlen.
    reflexivity.
  - apply Nat.leb_gt in Hlen. unfold maxChunkSize in Hlen.
    unfold tryCatch.
    rewrite (chunk_loop_rejected env chr payload k (List.length payload) 0 s);
      cbn [Nat.add]; try assumption; try lia.
    cbn. now rewrite <- app_assoc.
Qed.

Lemma writes_loop_trace n chr msg : forall i,
  List.length (filter is_write (loop_trace n chr msg i)) = n.
Proof.
  induction n as [|n IH]; intros i; [reflexivity|].
  cbn [loop_trace filter is_write List.length]. now rewrite IH.
Qed.

(** X11. A rejected write ends the message there. When the characteristic
    accepts the first [k] frames and rejects the next one,
    [writeBluetoothMessage] logs and rethrows, no later frame is tried
    ([k + 1] writes in all), and what went out is the first [20 k] bytes of
    the payload: the receiver is left with a prefix. *)
Theorem rejected_write_truncates_the_message
  (env : Env) (utf8_json : Message -> list byte) (chr : Characteristic)
  (data : option Message) (s : App) (k : nat) :
  (forall j, j < k -> env_write_rejects env (chr_id chr) (20 * j) = false) ->
  env_write_rejects env (chr_id chr) (20 * k) = true ->
  k = 0 \/ 20 * k < List.length (encodePayload utf8_json data) ->
  outcome (writeBluetoothMessage env utf8_json chr data) s
  = Throw (lit "GATT write failed")
  /\ exec (writeBluetoothMessage env utf8_json chr data) s = s
  /\ List.length
       (frames_written (effects (writeBluetoothMessage env utf8_json chr data) s))
     = k
  /\ List.concat
       (frames_written (effects (writeBluetoothMessage env utf8_json chr data) s))
     = firstn (20 * k) (encodePayload utf8_json data)
  /\ List.length
       (filter is_write (effects (writeBluetoothMessage env utf8_json chr data) s))
     = S k
  /\ last (effects (writeBluetoothMessage env utf8_json chr data) s) EvAlertSound
     = EvConsole (lit "error") (lit "Failed to write Bluetooth message:").
Proof.
  intros Hacc Hrej Hk. unfold outcome, exec, effects.
  rewrite (writeBluetoothMessage_rejected env utf8_json chr data s k Hacc Hrej Hk).
  cbn [fst snd]. split; [reflexivity|]. split; [reflexivity|].
  rewrite frames_written_app. cbn [frames_written]. rewrite app_nil_r.
  split; [apply frames_loop_trace_length|].
  split; [now rewrite frames_loop_trace_prefix|].
  split.
  { rewrite filter_app, length_app, writes_loop_trace. cbn. lia. }
  match goal with
  | |- last (?x ++ [?r; ?c]) _ = _ =>
      replace (x ++ [r; c]) with ((x ++ [r]) ++ [c])
        by (rewrite <- app_assoc; reflexivity)
  end.
  apply last_last.
Qed.

Lemma rejected_write_truncates_the_message_witness :
  (forall j, j < 1 ->
     env_write_rejects
       (with_env_write_rejects (fun _ offset => Nat.eqb offset 20) calm_env)
       (chr_id sample_characteristic) (20 * j) = false)
  /\ env_write_rejects
       (with_env_write_rejects (fun _ offset => Nat.eqb offset 20) calm_env)
       (chr_id sample_characteristic) (20 * 1) = true
  /\ (1 = 0 \/ 20 * 1 < List.length (encodePayload type_only_json
                                         (Some sample_notification)))
  /\ List.concat
       (frames_written
          (effects
             (writeBluetoothMessage
                (with_env_write_rejects (fun _ offset => Nat.eqb offset 20)
                   calm_env)
                type_only_json sample_characteristic (Some sample_notification))
             (constructed None)))
     = firstn (20 * 1) (encodePayload type_only_json (Some sample_notification)).
Proof.
  assert (Hacc : forall j, j < 1 ->
            env_write_rejects
              (with_env_write_rejects (fun _ offset => Nat.eqb offset 20) calm_env)
              (chr_id sample_characteristic) (20 * j) = false).
  { intros j Hj. assert (j = 0) by lia. subst j. reflexivity. }
  assert (Hlen : 1 = 0 \/ 20 * 1 < List.length (encodePayload type_only_json
                                                  (Some sample_notification))).
  { right. vm_compute. lia. }
  split; [exact Hacc|]. split; [reflexivity|]. split; [exact Hlen|].
  apply (rejected_write_truncates_the_message
           (with_env_write_rejects (fun _ offset => Nat.eqb offset 20) calm_env)
           type_only_json sample_characteristic (Some sample_notification)
           (constructed None) 1 Hacc eq_refl Hlen).
Defined.


(** X12. A device whose handshake write is rejected stays registered. The
    entry is filed before the handshake is sent, so when the first write is
    rejected the connect routine tells the user the connection failed,
    right after telling them it succeeded, and the device remains in the
    registry and in the connection count. *)
Theorem rejected_handshake_leaves_the_device_registered
  (env : Env) (utf8_json : Message -> list byte) (device : BluetoothDevice)
  (s : App) (server service : nat) (chr : Characteristic) :
  env_gatt_connect env (dev_id device) = Some server ->
  env_primary_service env server = Some service ->
  env_message_characteristic env service = Some chr ->
  env_start_notifications env (chr_id chr) = true ->
  env_write_rejects env (chr_id chr) 0 = true ->
  outcome (connectBluetoothDevice env utf8_json device) s = Normal tt
  /\ JsMap.get
       (bluetoothConnections (exec (connectBluetoothDevice env utf8_json device) s))
       (dev_id device)
     = Some {| bt_device := device; bt_server := server; bt_service := service;
               bt_characteristic := chr; bt_type := lit "bluetooth" |}
  /\ toasts (effects (connectBluetoothDevice env utf8_json device) s)
     = [(lit "Connecting to "
           ++ orDefault (dev_name device) (lit "Unknown Device") ++ lit "...",
         lit "info");
        (lit "Connected to " ++ orDefault (dev_name device) (lit "Device")
           ++ lit " via Bluetooth", lit "success");
        (lit "Bluetooth connection failed: " ++ lit "GATT write failed",
         lit "error")].
Proof.
  intros Hgatt Hservice Hchar Hnotify Hrej. unfold outcome, exec, effects.
  rewrite (connectBluetoothDevice_named env utf8_json device s server service chr
             Hgatt Hservice Hchar Hnotify).
  unfold tryCatch.
  rewrite (writeBluetoothMessage_rejected env utf8_json chr _ _ 0);
    [|intros j Hj; lia | exact Hrej | now left].
  cbn. split; [reflexivity|]. split; [apply JsMap_get_set_same | reflexivity].
Qed.

Lemma rejected_handshake_leaves_the_device_registered_witness :
  env_gatt_connect faulty_env (dev_id (sample_device "dev-z")) = Some 1
  /\ env_primary_service faulty_env 1 = Some 2
  /\ env_message_characteristic
       (with_env_message_characteristic
          (fun _ => Some {| chr_id := 9; chr_write := true;
                            chr_writeWithoutResponse := false;
                            chr_notify := true |}) faulty_env) 2
     = Some {| chr_id := 9; chr_write := true; chr_writeWithoutResponse := false;
               chr_notify := true |}
  /\ JsMap.keys
       (bluetoothConnections
          (exec (connectBluetoothDevice
                   (with_env_message_characteristic
                      (fun _ => Some {| chr_id := 9; chr_write := true;
                                        chr_writeWithoutResponse := false;
                                        chr_notify := true |}) faulty_env)
                   type_only_json (sample_device "dev-z")) (constructed None)))
     = [lit "dev-z"]
  /\ outcome (connectBluetoothDevice
                (with_env_message_characteristic
                   (fun _ => Some {| chr_id := 9; chr_write := true;
                                     chr_writeWithoutResponse := false;
                                     chr_notify := true |}) faulty_env)
                type_only_json (sample_device "dev-z")) (constructed None)
     = Normal tt.
Proof.
  split; [reflexivity|]. split; [reflexivity|]. split; [reflexivity|].
  split; [vm_compute; reflexivity|].
  apply (rejected_handshake_leaves_the_device_registered
           (with_env_message_characteristic
              (fun _ => Some {| chr_id := 9; chr_write := true;
                                chr_writeWithoutResponse := false;
                                chr_notify := true |}) faulty_env)
           type_only_json (sample_device "dev-z") (constructed None) 1 2
           {| chr_id := 9; chr_write := true; chr_writeWithoutResponse := false;
              chr_notify := true |}); reflexivity.
Defined.

(** X13. A connect that fails before the entry is filed registers nothing.
    When [gatt.connect()] rejects, or the emergency service has no message
    characteristic, or its notifications cannot be started, the routine
    returns, both registries are as before, and the user sees the
    "Connecting" toast followed by one "Bluetooth connection failed" error
    toast. *)
Theorem failed_connect_registers_nothing
  (env : Env) (utf8_json : Message -> list byte) (device : BluetoothDevice)
  (s : App) :
  (env_gatt_connect env (dev_id device) = None
   \/ exists server service,
        env_gatt_connect env (dev_id device) = Some server
        /\ env_primary_service env server = Some service
        /\ (env_message_characteristic env service = None
            \/ exists chr,
                 env_message_characteristic env service = Some chr
                 /\ env_start_notifications env (chr_id chr) = false)) ->
  outcome (connectBluetoothDevice env utf8_json device) s = Normal tt
  /\ same_registries s (exec (connectBluetoothDevice env utf8_json device) s)
  /\ exists reason,
       toasts (effects (connectBluetoothDevice env utf8_json device) s)
       = [(lit "Connecting to "
             ++ orDefault (dev_name device) (lit "Unknown Device") ++ lit "...",
           lit "info");
          (lit "Bluetooth connection failed: " ++ reason, lit "error")].
Proof.
  intros Hfail. unfold outcome, exec, effects, connectBluetoothDevice.
  destruct Hfail as [Hgatt | (server & service & Hgatt & Hservice & Hrest)];
    rewrite Hgatt.
  - cbn. repeat split. eexists. reflexivity.
  - rewrite Hservice.
    destruct Hrest as [Hchar | (chr & Hchar & Hnotify)]; rewrite Hchar.
    + cbn. repeat split. eexists. reflexivity.
    + unfold startNotifications. rewrite Hnotify.
      cbn. repeat split. eexists. reflexivity.
Qed.

Lemma failed_connect_registers_nothing_witness :
  (env_gatt_connect (with_env_gatt_connect (fun _ => None) calm_env)
     (dev_id (sample_device "dev-x")) = None
   \/ exists server service,
        env_gatt_connect (with_env_gatt_connect (fun _ => None) calm_env)
          (dev_id (sample_device "dev-x")) = Some server
        /\ env_primary_service (with_env_gatt_connect (fun _ => None) calm_env)
             server = Some service
        /\ (env_message_characteristic
              (with_env_gatt_connect (fun _ => None) calm_env) service = None
            \/ exists chr,
                 env_message_characteristic
                   (with_env_gatt_connect (fun _ => None) calm_env) service
                 = Some chr
                 /\ env_start_notifications
                      (with_env_gatt_connect (fun _ => None) calm_env)
                      (chr_id chr) = false))
  /\ same_registries sample_app
       (exec (connectBluetoothDevice
                (with_env_gatt_connect (fun _ => None) calm_env) type_only_json
                (sample_device "dev-x")) sample_app).
Proof.
  split; [left; reflexivity|].
  apply (failed_connect_registers_nothing
           (with_env_gatt_connect (fun _ => None) calm_env) type_only_json
           (sample_device "dev-x") sample_app).
  left. reflexivity.
Defined.

(** ** Files that cannot be sent *)

(** X14. A file that cannot be sent changes nothing. With no file selected,
    with no connection, or when the file cannot be read, [sendFile] returns
    with the state as it was (the file stays selected), hands nothing to
    any connection or characteristic, and shows exactly one toast; the
    selection is tested first, the connection count second. *)
Theorem unsendable_file_changes_nothing
  (env : Env) (utf8_json : Message -> list byte) (s : App) :
  (file_input s = None
   \/ getTotalConnections s = 0
   \/ exists file, file_input s = Some file /\ env_readAsDataURL env file = None) ->
  outcome (sendFile env utf8_json) s = Normal tt
  /\ exec (sendFile env utf8_json) s = s
  /\ sent_to (effects (sendFile env utf8_json) s) = []
  /\ existsb is_write (effects (sendFile env utf8_json) s) = false
  /\ toasts (effects (sendFile env utf8_json) s)
     = [match file_input s with
        | None => (lit "No file selected", lit "error")
        | Some _ =>
            if getTotalConnections s =? 0
            then (lit "No devices connected to send file", lit "warning")
            else (lit "Failed to send file", lit "error")
        end].
Proof.
  intros Hblocked. unfold outcome, exec, effects, sendFile.
  rewrite bind_getApp.
  destruct (file_input s) as [file|] eqn:Hfile; [|cbn; repeat split].
  destruct (getTotalConnections s =? 0) eqn:Htotal; [cbn; repeat split|].
  destruct Hblocked as [H | [H | (file' & Hsome & Hread)]];
    [discriminate H | rewrite H in Htotal; discriminate Htotal |].
  injection Hsome as <-.
  unfold tryCatch, fileToBase64. rewrite Hread. cbn. repeat split.
Qed.

Lemma unsendable_file_changes_nothing_witness :
  (file_input sample_app = None
   \/ getTotalConnections sample_app = 0
   \/ exists file,
        file_input sample_app = Some file
        /\ env_readAsDataURL (with_env_readAsDataURL (fun _ => None) calm_env) file
           = None)
  /\ exec (sendFile (with_env_readAsDataURL (fun _ => None) calm_env)
             type_only_json) sample_app
     = sample_app.
Proof.
  assert (Hblocked :
            file_input sample_app = None
            \/ getTotalConnections sample_app = 0
            \/ exists file,
                 file_input sample_app = Some file
                 /\ env_readAsDataURL
                      (with_env_readAsDataURL (fun _ => None) calm_env) file
                    = None).
  { right. right. exists sample_file. split; reflexivity. }
  split; [exact Hblocked|].
  apply (unsendable_file_changes_nothing
           (with_env_readAsDataURL (fun _ => None) calm_env) type_only_json
           sample_app Hblocked).
Defined.

(** X15. The base64 text of a file is what follows the comma of its data
    URL. When the reader yields [header,body] with no further comma,
    [fileToBase64] resolves to [body] without touching the state; when the
    result holds no comma at all it resolves to [undefined]. *)
Theorem fileToBase64_returns_the_text_after_the_comma
  (env : Env) (file : File) (header body : jsstring) (s : App) :
  ~ In 44%N header ->
  ~ In 44%N body ->
  (env_readAsDataURL env file = Some (header ++ 44%N :: body) ->
   fileToBase64 env file s = (Normal (Some body), s, []))
  /\ (env_readAsDataURL env file = Some header ->
      fileToBase64 env file s = (Normal None, s, [])).
Proof.
  intros Hheader Hbody. unfold fileToBase64. split; intros ->.
  - rewrite split_comma_segment by exact Hheader.
    rewrite split_comma_last by exact Hbody. reflexivity.
  - rewrite split_comma_last by exact Hheader. reflexivity.
Qed.

Lemma fileToBase64_returns_the_text_after_the_comma_witness :
  ~ In 44%N (lit "data:text/plain;base64")
  /\ ~ In 44%N (lit "aGk=")
  /\ fileToBase64 calm_env sample_file sample_app
     = (Normal (Some (lit "aGk=")), sample_app, []).
Proof.
  assert (Hheader : ~ In 44%N (lit "data:text/plain;base64")).
  { intros Hin. vm_compute in Hin.
    repeat (destruct Hin as [Hin | Hin]; [discriminate Hin|]). exact Hin. }
  assert (Hbody : ~ In 44%N (lit "aGk=")).
  { intros Hin. vm_compute in Hin.
    repeat (destruct Hin as [Hin | Hin]; [discriminate Hin|]). exact Hin. }
  split; [exact Hheader|]. split; [exact Hbody|].
  apply (fileToBase64_returns_the_text_after_the_comma calm_env sample_file
           (lit "data:text/plain;base64") (lit "aGk=") sample_app
           Hheader Hbody).
  reflexivity.
Defined.

(** ** The generic Bluetooth fallback *)

Lemma generic_characteristics_skip env server service device pre rest s :
  existsb writable pre = false ->
  generic_characteristics env server service device (pre ++ rest) s
  = generic_characteristics env server service device rest s.
Proof.
  induction pre as [|c pre IH]; intros Hpre; [reflexivity|].
  cbn [existsb] in Hpre. apply orb_false_iff in Hpre as [Hc Hpre].
  unfold writable in Hc. cbn [List.app generic_characteristics].
  rewrite Hc. now apply IH.
Qed.

Lemma generic_characteristics_barren env server service device chars s :
  existsb writable chars = false ->
  generic_characteristics env server service device chars s = (Normal false, s, []).
Proof.
  intros Hnone.
  rewrite <- (app_nil_r chars).
  now rewrite generic_characteristics_skip.
Qed.

Lemma generic_services_skip env server device before rest s :
  Forall (barren env) before ->
  generic_services env server device (before ++ rest) s
  = generic_services env server device rest s.
Proof.
  induction 1 as [|service before (chars & Hchars & Hnone) _ IH]; [reflexivity|].
  cbn [List.app generic_services]. rewrite Hchars.
  unfold bind at 1.
  rewrite generic_characteristics_barren by exact Hnone.
  rewrite IH. destruct (generic_services env server device rest s) as [[r s1] t].
  reflexivity.
Qed.

(** The run of the fallback that finds [c] first. *)
Lemma generic_fallback_run env server device s before behind service pre post c :
  env_primary_services env server = Some (before ++ service :: behind) ->
  Forall (barren env) before ->
  env_characteristics env service = Some (pre ++ c :: post) ->
  existsb writable pre = false ->
  writable c = true ->
  setupGenericBluetoothConnection env server device s
  = (Normal tt,
     with_bluetoothConnections
       (JsMap.set (bluetoothConnections s) (dev_id device)
          (generic_entry server service device c)) s,
     EvConsole (lit "log")
       (lit "Found writable characteristic for generic connection")
     :: (if chr_notify c && negb (env_start_notifications env (chr_id c))
         then [EvConsole (lit "error") (lit "Generic Bluetooth setup failed:");
               EvToast (lit "Could not establish Bluetooth communication")
                 (lit "error")]
         else [EvActiveConnections
                 (JsMap.size (connections s)
                  + JsMap.size
                      (JsMap.set (bluetoothConnections s) (dev_id device)
                         (generic_entry server service device c)));
               EvToast (lit "Generic Bluetooth connection established")
                 (lit "success")])).
Proof.
  intros Hservices Hbefore Hchars Hpre Hc.
  unfold setupGenericBluetoothConnection, tryCatch.
  rewrite Hservices. unfold bind at 1.
  rewrite generic_services_skip by exact Hbefore.
  cbn [generic_services]. rewrite Hchars. unfold bind at 1.
  rewrite generic_characteristics_skip by exact Hpre.
  cbn [generic_characteristics]. unfold writable in Hc. rewrite Hc.
  rewrite bind_console, bind_modify. unfold generic_entry.
  destruct (chr_notify c); cbn [andb negb].
  - unfold startNotifications.
    destruct (env_start_notifications env (chr_id c)); reflexivity.
  - reflexivity.
Qed.

(** X16. The generic fallback files the first writable characteristic. The
    services are searched in order and, within a service, the
    characteristics in order; the first one with [write] or
    [writeWithoutResponse] is registered under the device id with type
    "bluetooth-generic". It is registered before its notifications are
    started, so when starting them fails the entry stays and the user is
    told that communication could not be established. *)
Theorem generic_fallback_files_the_first_writable
  (env : Env) (server : nat) (device : BluetoothDevice) (s : App)
  (before behind : list nat) (service : nat)
  (pre post : list Characteristic) (c : Characteristic) :
  env_primary_services env server = Some (before ++ service :: behind) ->
  Forall (barren env) before ->
  env_characteristics env service = Some (pre ++ c :: post) ->
  existsb writable pre = false ->
  writable c = true ->
  outcome (setupGenericBluetoothConnection env server device) s = Normal tt
  /\ exec (setupGenericBluetoothConnection env server device) s
     = with_bluetoothConnections
         (JsMap.set (bluetoothConnections s) (dev_id device)
            (generic_entry server service device c)) s
  /\ toasts (effects (setupGenericBluetoothConnection env server device) s)
     = [if chr_notify c && negb (env_start_notifications env (chr_id c))
        then (lit "Could not establish Bluetooth communication", lit "error")
        else (lit "Generic Bluetooth connection established", lit "success")].
Proof.
  intros Hservices Hbefore Hchars Hpre Hc.
  unfold outcome, exec, effects.
  rewrite (generic_fallback_run env server device s before behind service
             pre post c Hservices Hbefore Hchars Hpre Hc).
  destruct (chr_notify c && negb (env_start_notifications env (chr_id c)));
    repeat split.
Qed.

Lemma generic_fallback_files_the_first_writable_witness :
  env_primary_services
    (with_env_characteristics
       (fun service =>
          if Nat.eqb service 4
          then Some [{| chr_id := 11; chr_write := false;
                        chr_writeWithoutResponse := false; chr_notify := true |}]
          else Some [{| chr_id := 12; chr_write := false;
                        chr_writeWithoutResponse := false; chr_notify := false |};
                     {| chr_id := 13; chr_write := false;
                        chr_writeWithoutResponse := true; chr_notify := true |};
                     {| chr_id := 14; chr_write := true;
                        chr_writeWithoutResponse := false; chr_notify := false |}])
       (with_env_primary_services (fun _ => Some [4; 5; 6]) calm_env)) 1
  = Some ([4] ++ 5 :: [6])
  /\ JsMap.get
       (bluetoothConnections
          (exec (setupGenericBluetoothConnection
                   (with_env_characteristics
                      (fun service =>
                         if Nat.eqb service 4
                         then Some [{| chr_id := 11; chr_write := false;
                                       chr_writeWithoutResponse := false;
                                       chr_notify := true |}]
                         else Some [{| chr_id := 12; chr_write := false;
                                       chr_writeWithoutResponse := false;
                                       chr_notify := false |};
                                    {| chr_id := 13; chr_write := false;
                                       chr_writeWithoutResponse := true;
                                       chr_notify := true |};
                                    {| chr_id := 14; chr_write := true;
                                       chr_writeWithoutResponse := false;
                                       chr_notify := false |}])
                      (with_env_primary_services (fun _ => Some [4; 5; 6])
                         calm_env))
                   1 (sample_device "dev-z")) (constructed None)))
       (lit "dev-z")
     = Some (generic_entry 1 5 (sample_device "dev-z")
               {| chr_id := 13; chr_write := false;
                  chr_writeWithoutResponse := true; chr_notify := true |}).
Proof.
  split; [reflexivity|].
  destruct (generic_fallback_files_the_first_writable
              (with_env_characteristics
                 (fun service =>
                    if Nat.eqb service 4
                    then Some [{| chr_id := 11; chr_write := false;
                                  chr_writeWithoutResponse := false;
                                  chr_notify := true |}]
                    else Some [{| chr_id := 12; chr_write := false;
                                  chr_writeWithoutResponse := false;
                                  chr_notify := false |};
                               {| chr_id := 13; chr_write := false;
                                  chr_writeWithoutResponse := true;
                                  chr_notify := true |};
                               {| chr_id := 14; chr_write := true;
                                  chr_writeWithoutResponse := false;
                                  chr_notify := false |}])
                 (with_env_primary_services (fun _ => Some [4; 5; 6]) calm_env))
              1 (sample_device "dev-z") (constructed None)
              [4] [6] 5
              [{| chr_id := 12; chr_write := false;
                  chr_writeWithoutResponse := false; chr_notify := false |}]
              [{| chr_id := 14; chr_write := true;
                  chr_writeWithoutResponse := false; chr_notify := false |}]
              {| chr_id := 13; chr_write := false;
                 chr_writeWithoutResponse := true; chr_notify := true |})
    as (_ & Hstate & _).
  - reflexivity.
  - constructor; [|constructor]. eexists. split; reflexivity.
  - reflexivity.
  - reflexivity.
  - reflexivity.
  - rewrite Hstate. reflexivity.
Defined.

(** X17. A device with nothing writable is not registered. When the
    services cannot be listed, or every service lists its characteristics
    and none of them is writable, the fallback returns with the state as it
    was and one error toast. *)
Theorem generic_fallback_without_writable_registers_nothing
  (env : Env) (server : nat) (device : BluetoothDevice) (s : App) :
  (env_primary_services env server = None
   \/ exists services,
        env_primary_services env server = Some services
        /\ Forall (barren env) services) ->
  setupGenericBluetoothConnection env server device s
  = (Normal tt, s,
     [EvConsole (lit "error") (lit "Generic Bluetooth setup failed:");
      EvToast (lit "Could not establish Bluetooth communication") (lit "error")]).
Proof.
  intros [Hnone | (services & Hservices & Hbarren)];
    unfold setupGenericBluetoothConnection, tryCatch.
  - rewrite Hnone. reflexivity.
  - rewrite Hservices. unfold bind at 1.
    rewrite <- (app_nil_r services).
    rewrite generic_services_skip by exact Hbarren.
    reflexivity.
Qed.

Lemma generic_fallback_without_writable_registers_nothing_witness :
  (env_primary_services calm_env 1 = None
   \/ exists services,
        env_primary_services
          (with_env_characteristics
             (fun _ => Some [{| chr_id := 11; chr_write := false;
                                chr_writeWithoutResponse := false;
                                chr_notify := true |}])
             (with_env_primary_services (fun _ => Some [4; 5]) calm_env)) 1
        = Some services
        /\ Forall
             (barren
                (with_env_characteristics
                   (fun _ => Some [{| chr_id := 11; chr_write := false;
                                      chr_writeWithoutResponse := false;
                                      chr_notify := true |}])
                   (with_env_primary_services (fun _ => Some [4; 5]) calm_env)))
             services)
  /\ exec (setupGenericBluetoothConnection
             (with_env_characteristics
                (fun _ => Some [{| chr_id := 11; chr_write := false;
                                   chr_writeWithoutResponse := false;
                                   chr_notify := true |}])
                (with_env_primary_services (fun _ => Some [4; 5]) calm_env))
             1 (sample_device "dev-z")) sample_app
     = sample_app.
Proof.
  assert (Hbarren :
            exists services,
              env_primary_services
                (with_env_characteristics
                   (fun _ => Some [{| chr_id := 11; chr_write := false;
                                      chr_writeWithoutResponse := false;
                                      chr_notify := true |}])
                   (with_env_primary_services (fun _ => Some [4; 5]) calm_env)) 1
              = Some services
              /\ Forall
                   (barren
                      (with_env_characteristics
                         (fun _ => Some [{| chr_id := 11; chr_write := false;
                                            chr_writeWithoutResponse := false;
                                            chr_notify := true |}])
                         (with_env_primary_services (fun _ => Some [4; 5])
                            calm_env)))
                   services).
  { exists [4; 5]. split; [reflexivity|].
    repeat constructor; eexists; split; reflexivity. }
  split; [right; exact Hbarren|].
  unfold exec.
  rewrite (generic_fallback_without_writable_registers_nothing
             (with_env_characteristics
                (fun _ => Some [{| chr_id := 11; chr_write := false;
                                   chr_writeWithoutResponse := false;
                                   chr_notify := true |}])
                (with_env_primary_services (fun _ => Some [4; 5]) calm_env))
             1 (sample_device "dev-z") sample_app (or_intror Hbarren)).
  reflexivity.
Defined.

(** A run that settled and handed nothing to the radio. *)
Lemma quiet_bind {A B : Type} (m : M A) (f : A -> M B) s :
  (fst (fst (m s)) <> Pending /\ existsb is_write (snd (m s)) = false) ->
  (forall a s1,
     fst (fst (f a s1)) <> Pending /\ existsb is_write (snd (f a s1)) = false) ->
  fst (fst (bind m f s)) <> Pending
  /\ existsb is_write (snd (bind m f s)) = false.
Proof.
  intros [Hm Hq] Hf. unfold bind.
  destruct (m s) as [[[a | e |] s1] t1]; cbn [fst snd] in *.
  - specialize (Hf a s1). destruct (f a s1) as [[r s2] t2]. cbn [fst snd] in *.
    split; [apply Hf|]. rewrite existsb_app, Hq. apply Hf.
  - split; [discriminate | exact Hq].
  - now contradiction Hm.
Qed.

Lemma generic_characteristics_quiet env server service device chars : forall s,
  fst (fst (generic_characteristics env server service device chars s)) <> Pending
  /\ existsb is_write
       (snd (generic_characteristics env server service device chars s)) = false.
Proof.
  induction chars as [|c rest IH]; intros s; cbn [generic_characteristics].
  - split; [discriminate | reflexivity].
  - destruct (chr_write c || chr_writeWithoutResponse c); [|apply IH].
    rewrite bind_console, bind_modify.
    destruct (chr_notify c); [unfold startNotifications;
      destruct (env_start_notifications env (chr_id c))|];
      cbn; (split; [discriminate | reflexivity]).
Qed.

Lemma generic_services_quiet env server device services : forall s,
  fst (fst (generic_services env server device services s)) <> Pending
  /\ existsb is_write (snd (generic_services env server device services s)) = false.
Proof.
  induction services as [|service rest IH]; intros s; cbn [generic_services].
  - split; [discriminate | reflexivity].
  - destruct (env_characteristics env service) as [chars|];
      [|split; [discriminate | reflexivity]].
    apply quiet_bind; [apply generic_characteristics_quiet|].
    intros [|] s1; [split; [discriminate | reflexivity] | apply IH].
Qed.

Lemma setupGenericBluetoothConnection_quiet env server device s :
  exists s1 t,
    setupGenericBluetoothConnection env server device s = (Normal tt, s1, t)
    /\ existsb is_write t = false.
Proof.
  unfold setupGenericBluetoothConnection, tryCatch.
  destruct (env_primary_services env server) as [services|];
    [|eexists; eexists; split; reflexivity].
  unfold bind.
  destruct (generic_services_quiet env server device services s) as [Hp Hq].
  destruct (generic_services env server device services s)
    as [[[[|] | e |] s1] t1]; cbn [fst snd] in *;
    [| | | now contradiction Hp];
    (eexists; eexists; split; [cbn; reflexivity|]);
    rewrite !existsb_app, Hq; reflexivity.
Qed.

(** X18. Without the emergency service nothing is written to the device.
    When the GATT server is reached and the emergency service is missing,
    the connect routine always returns (every failure of the fallback is
    caught), hands no frame to any characteristic, so no handshake goes
    out, and leaves every entry of the other devices as it was; an entry it
    files is an entry for this device. *)
Theorem connect_without_emergency_service_writes_nothing
  (env : Env) (utf8_json : Message -> list byte) (device : BluetoothDevice)
  (s : App) (server : nat) :
  env_gatt_connect env (dev_id device) = Some server ->
  env_primary_service env server = None ->
  outcome (connectBluetoothDevice env utf8_json device) s = Normal tt
  /\ existsb is_write (effects (connectBluetoothDevice env utf8_json device) s)
     = false
  /\ bt_touch device s (exec (connectBluetoothDevice env utf8_json device) s).
Proof.
  intros Hgatt Hservice.
  split; [|split; [|apply (connectBluetoothDevice_touches env utf8_json device s)]];
    unfold outcome, effects, connectBluetoothDevice, tryCatch;
    rewrite Hgatt, Hservice;
    unfold showToast at 1;
    rewrite bind_emit, bind_modify, !bind_console, !after_after;
    destruct (setupGenericBluetoothConnection_quiet env server device
                (with_bluetoothDevice (Some device) s)) as (s1 & t1 & -> & Hq);
    cbn; [reflexivity | exact Hq].
Qed.

Lemma connect_without_emergency_service_writes_nothing_witness :
  env_gatt_connect (with_env_primary_service (fun _ => None) calm_env)
    (dev_id (sample_device "dev-z")) = Some 1
  /\ env_primary_service (with_env_primary_service (fun _ => None) calm_env) 1
     = None
  /\ outcome (connectBluetoothDevice
                (with_env_primary_service (fun _ => None) calm_env)
                type_only_json (sample_device "dev-z")) sample_app
     = Normal tt.
Proof.
  split; [reflexivity|]. split; [reflexivity|].
  apply (connect_without_emergency_service_writes_nothing
           (with_env_primary_service (fun _ => None) calm_env) type_only_json
           (sample_device "dev-z") sample_app 1); reflexivity.
Defined.

(** ** The quality probe, in general *)

Lemma str_eqb_sym (a b : jsstring) : str_eqb a b = str_eqb b a.
Proof.
  destruct (str_eqb a b) eqn:Hab.
  - apply str_eqb_eq in Hab. subst b. symmetry. apply str_eqb_refl.
  - destruct (str_eqb b a) eqn:Hba; [|reflexivity].
    apply str_eqb_eq in Hba. subst b. rewrite str_eqb_refl in Hab.
    discriminate Hab.
Qed.

Lemma filter_twice {A : Type} (f g : A -> bool) (l : list A) :
  filter f (filter g l) = filter (fun x => g x && f x) l.
Proof.
  induction l as [|x l IH]; [reflexivity|].
  cbn [filter]. destruct (g x); cbn [filter andb]; [|exact IH].
  destruct (f x); now rewrite IH.
Qed.

(** What the sweep leaves of [m]: the entries whose key is not the key of
    a failing entry. *)
Lemma probe_sweep_filter env (entries : JsMap.t ConnData) : forall m,
  probe_sweep env entries m
  = filter
      (fun e =>
         negb (existsb
                 (fun e' => probe_fails env (snd e') && str_eqb (fst e') (fst e))
                 entries)) m.
Proof.
  unfold probe_sweep.
  induction entries as [|[k d] rest IH]; intros m.
  - cbn. induction m as [|x m IHm]; [reflexivity|]. cbn. now rewrite <- IHm.
  - cbn [fold_left existsb fst snd]. rewrite IH.
    destruct (probe_fails env d); cbn [andb orb].
    + unfold JsMap.delete. rewrite filter_twice.
      apply filter_ext. intros e. rewrite negb_orb.
      now rewrite (str_eqb_sym k (fst e)).
    + reflexivity.
Qed.

Lemma failing_key_unique env (entries : JsMap.t ConnData) (e : jsstring * ConnData) :
  NoDup (JsMap.keys entries) ->
  In e entries ->
  existsb (fun e' => probe_fails env (snd e') && str_eqb (fst e') (fst e)) entries
  = probe_fails env (snd e).
Proof.
  unfold JsMap.keys.
  induction entries as [|x rest IH]; intros Hnodup Hin; [destruct Hin|].
  cbn [map] in Hnodup. inversion Hnodup as [|? ? Hfresh Hrest]; subst.
  cbn [existsb]. destruct Hin as [-> | Hin].
  - rewrite str_eqb_refl, andb_true_r.
    destruct (probe_fails env (snd e)); [reflexivity|]. cbn [orb].
    destruct (existsb _ rest) eqn:Hex; [|reflexivity].
    apply existsb_exists in Hex as (e' & Hin' & Hboth).
    apply andb_true_iff in Hboth as [_ Hkey]. apply str_eqb_eq in Hkey.
    exfalso. apply Hfresh. rewrite <- Hkey. now apply in_map.
  - rewrite (str_eqb_neq (fst x) (fst e)), andb_false_r.
    + cbn [orb]. now apply IH.
    + intros Hkey. apply Hfresh. rewrite Hkey. now apply in_map.
Qed.

Lemma sent_to_app (t1 t2 : list Event) :
  sent_to (t1 ++ t2) = sent_to t1 ++ sent_to t2.
Proof.
  induction t1 as [|e t1 IH]; [reflexivity|].
  destruct e; cbn [List.app sent_to]; now rewrite IH.
Qed.

Lemma probe_visit_sent env connData peerId s :
  sent_to (snd (probeConnection env connData peerId s))
  = if env_conn_open env (conn_id (cd_connection connData))
    then [conn_id (cd_connection connData)] else [].
Proof.
  unfold probeConnection.
  destruct (env_conn_open env (conn_id (cd_connection connData)));
    [|reflexivity].
  unfold tryCatch. rewrite bind_dateNow. unfold connSend.
  destruct (env_send_throws env (conn_id (cd_connection connData)));
    reflexivity.
Qed.

Lemma probe_loop_sent env (entries : JsMap.t ConnData) : forall s,
  sent_to (snd (forEach entries (probeConnection env) s))
  = map (fun e => conn_id (cd_connection (snd e)))
      (filter (entry_open env) entries).
Proof.
  induction entries as [|[k d] rest IH]; intros s; [reflexivity|].
  cbn [forEach]. unfold bind.
  pose proof (probe_visit_sent env d k s) as Hsent.
  destruct (probe_visit env d k s) as (s1 & t1 & Hrun & _).
  rewrite Hrun in *. cbn [snd] in Hsent.
  specialize (IH s1).
  destruct (forEach rest (probeConnection env) s1) as [[r s2] t2].
  cbn [snd] in *. rewrite sent_to_app, Hsent, IH.
  cbn [filter]. unfold entry_open at 2. cbn [snd].
  destruct (env_conn_open env (conn_id (cd_connection d))); reflexivity.
Qed.

(** X19. One tick of the quality probe keeps exactly the healthy
    connections. With every peer registered once, the direct registry after
    the tick holds, in their order, the entries whose ping did not fail,
    however many failed; the constrained registry is untouched; and a ping
    went, once, to each connection that reports open and to no other. *)
Theorem probe_keeps_exactly_the_healthy_connections (env : Env) (s : App) :
  NoDup (JsMap.keys (connections s)) ->
  outcome (qualityProbe env) s = Normal tt
  /\ connections (exec (qualityProbe env) s)
     = filter (fun e => negb (probe_fails env (snd e))) (connections s)
  /\ bluetoothConnections (exec (qualityProbe env) s) = bluetoothConnections s
  /\ sent_to (effects (qualityProbe env) s)
     = map (fun e => conn_id (cd_connection (snd e)))
         (filter (entry_open env) (connections s)).
Proof.
  intros Hnodup.
  pose proof (probe_loop_sent env (connections s) s) as Hsent.
  destruct (probe_loop env (connections s) s) as (s1 & tr & Hrun & Hc & Hb).
  unfold outcome, exec, effects, qualityProbe. rewrite bind_getApp.
  rewrite Hrun in *. cbn [fst snd] in *.
  split; [reflexivity|]. split; [|split; [exact Hb | exact Hsent]].
  rewrite Hc, probe_sweep_filter.
  apply filter_ext_in. intros e Hin.
  now rewrite failing_key_unique.
Qed.

Lemma probe_keeps_exactly_the_healthy_connections_witness :
  NoDup (JsMap.keys (connections sample_app))
  /\ sent_to (effects (qualityProbe faulty_env) sample_app)
     = map (fun e => conn_id (cd_connection (snd e)))
         (filter (entry_open faulty_env) (connections sample_app)).
Proof.
  assert (Hnodup : NoDup (JsMap.keys (connections sample_app))).
  { cbn. constructor.
    - intros [H | []]. discriminate H.
    - constructor; [intros []|constructor]. }
  split; [exact Hnodup|].
  apply (probe_keeps_exactly_the_healthy_connections faulty_env sample_app
           Hnodup).
Defined.

(** ** The addresses of the local scan *)

Lemma nth_error_blocks {A B : Type} (f : A -> list B) (n : nat) (l : list A) :
  (forall a, List.length (f a) = n) ->
  forall b j x,
    nth_error l b = Some x -> j < n ->
    nth_error (flat_map f l) (n * b + j) = nth_error (f x) j.
Proof.
  intros Hlen. induction l as [|a l IH]; intros b j x Hb Hj.
  - destruct b; discriminate Hb.
  - cbn [flat_map]. destruct b as [|b]; cbn [nth_error] in Hb.
    + injection Hb as ->. rewrite Nat.mul_0_r, Nat.add_0_l.
      apply nth_error_app1. now rewrite Hlen.
    + rewrite nth_error_app2 by (rewrite Hlen; lia).
      rewrite Hlen.
      replace (n * S b + j - n) with (n * b + j) by lia.
      now apply IH.
Qed.

(** X20. The address list enumerates every base in order. The address of
    suffix [i] (1 to 254) under the [b]-th base sits at index
    [254 * b + i - 1]; the list has 4 * 254 = 1016 addresses. *)
Theorem generateLocalIPRange_enumerates_every_base
  (b i : nat) (base : jsstring) :
  nth_error baseIPs b = Some base ->
  1 <= i <= 254 ->
  List.length generateLocalIPRange = 1016
  /\ nth_error generateLocalIPRange (254 * b + (i - 1))
     = Some (base ++ numberToString i).
Proof.
  intros Hbase Hi. split; [vm_compute; reflexivity|].
  unfold generateLocalIPRange.
  rewrite (nth_error_blocks _ 254 baseIPs) with (x := base);
    [| intros a; now rewrite length_map, length_seq | exact Hbase | lia].
  apply (map_nth_error (fun i0 => base ++ numberToString i0) (i - 1) (seq 1 254)).
  rewrite (nth_error_nth' _ 0) by (rewrite length_seq; lia).
  rewrite seq_nth by lia. f_equal. lia.
Qed.

Lemma generateLocalIPRange_enumerates_every_base_witness :
  nth_error baseIPs 2 = Some (lit "10.0.0.")
  /\ 1 <= 37 <= 254
  /\ nth_error generateLocalIPRange (254 * 2 + (37 - 1))
     = Some (lit "10.0.0." ++ numberToString 37).
Proof.
  split; [reflexivity|]. split; [lia|].
  apply (generateLocalIPRange_enumerates_every_base 2 37 (lit "10.0.0."));
    [reflexivity | lia].
Defined.

(** X21. The local scan looks at ten addresses of one subnet. What
    [scanLocalNetwork] iterates over, the first ten of the generated
    addresses, is 192.168.1.1 to 192.168.1.10; the other 1006 addresses,
    and the three other bases, are never visited. *)
Theorem local_scan_visits_ten_addresses_of_the_first_base (ip : jsstring) :
  In ip scan_targets
  <-> exists i, 1 <= i <= 10 /\ ip = lit "192.168.1." ++ numberToString i.
Proof.
  assert (Htargets :
            scan_targets
            = map (fun i => lit "192.168.1." ++ numberToString i) (seq 1 10)).
  { vm_compute. reflexivity. }
  rewrite Htargets, in_map_iff. split.
  - intros (i & <- & Hin). apply in_seq in Hin. exists i. split; [lia | reflexivity].
  - intros (i & Hi & ->). exists i. split; [reflexivity|]. apply in_seq. lia.
Qed.
